(** * Adaptive-concurrency task engine of parkour-to-the-moon

    A shallow embedding of the TypeScript sources
      - [src/utils/concurrency.ts]  (token bucket [RateLimiter], worker pool
        [runtWithConcurrencyLimit]),
      - [src/utils/retry.ts]        ([getDelayFromHeaders], [calculateDelay],
        [retry]),
      - the two versions of [orchestrator/MegaverseBuilder.ts]
        ([adjustConcurrency], [processBatches], [makeRetryOpts], the task
        wrappers, [buildXPattern], [buildUniverse], [isSame],
        [createFromToken], [syncWithGoal], [toDeleteTasks]),
      - [src/utils/progressLogger.ts] ([createProgressLogger]),
        [domain/parseCell] and the failure messages of the two versions of
        [src/api/MegaverseApiClient.ts],
    together with the properties the specification states about them and
    further properties read off the code.

    Conventions.  JavaScript numbers that only ever hold integers
    (counters, concurrency levels, attempt numbers) are [Z]; numbers that
    hold fractions (token counts, rates, delays, clock readings in ms) are
    exact rationals [Q]; [NaN] is [None] in a [jsnum].  Asynchronous code is
    modelled by explicit state passing: a worker of the pool is a small
    state machine that the scheduler resumes, an awaited operation is a
    function on an abstract world [W].  [sleep(ms)] ([src/utils/sleep.ts])
    is the primitive that suspends its caller for [ms] milliseconds.  The
    values thrown by the operations that [retry] runs are [Error] objects,
    as everywhere in the repository; a task of the pool may reject with any
    value, also one whose [message] the pool cannot read ([completion]). *)

From Stdlib Require Import ZArith QArith Qround Qminmax Qpower Lia String Ascii
  DecimalString Bool.
From stdpp Require Import base list.

Local Open Scope Z_scope.

(* ===================================================================== *)
(** ** Error objects and message tests                                    *)
(* ===================================================================== *)

(** [err.headers.get(name)]: the call either throws or returns the header
    value ([None] is JavaScript's [null]). *)
Inductive get_result :=
| GetThrows
| GetReturns (value : option string).

(** [err.headers && err.headers.get]: either there is no usable [headers]
    object, or there is one with a [get] method. *)
Inductive header_source :=
| NoHeaders
| HeadersGet (get : string -> get_result).

(** Rejection reasons are [Error]-like objects, as [ApiError] of
    [MegaverseApiClient.ts]: a [message] string (possibly empty), the
    numeric HTTP [status] when there is one, and the response headers. *)
Record ApiError := MkApiError {
  message : string;
  status : option Z;
  headers : header_source
}.

Definition is_digit (c : ascii) : bool :=
  let n := nat_of_ascii c in ((48 <=? n) && (n <=? 57))%nat.

(** [hay.startsWith(needle)] *)
Fixpoint starts_with (needle hay : string) : bool :=
  match needle, hay with
  | EmptyString, _ => true
  | String a n', String b h' => Ascii.eqb a b && starts_with n' h'
  | String _ _, EmptyString => false
  end.

(** [hay.includes(needle)], also the regular expression test [/429/]. *)
Fixpoint includes (needle hay : string) : bool :=
  starts_with needle hay ||
  match hay with
  | EmptyString => false
  | String _ h' => includes needle h'
  end.

(** [err.message && err.message.includes("429")]: an empty message is
    falsy. *)
Definition mentions_429 (err : ApiError) : bool :=
  match message err with
  | EmptyString => false
  | m => includes "429" m
  end.

(** The regular expression test [/5\d{2}/.test(s)]. *)
Fixpoint matches_5xx (s : string) : bool :=
  match s with
  | String c1 ((String c2 (String c3 _)) as rest) =>
      (Ascii.eqb c1 "5" && is_digit c2 && is_digit c3) || matches_5xx rest
  | _ => false
  end.


(* ===================================================================== *)
(** ** Settlement of promises                                             *)
(* ===================================================================== *)

(** How the promise returned by an asynchronous call settles. *)
Inductive outcome (V : Type) :=
| Resolved (value : V)
| Threw (reason : ApiError).
Arguments Resolved {V} value.
Arguments Threw {V} reason.

(** A JavaScript number that may be [NaN] ([None]). *)
Definition jsnum : Type := option Q.

(** [Math.min(a, b)] with a possibly-[NaN] first argument. *)
Definition js_min (a : jsnum) (b : Q) : jsnum :=
  match a with
  | Some x => Some (Qmin x b)
  | None => None
  end.

(* ===================================================================== *)
(** ** Backoff / retry engine ([src/utils/retry.ts])                      *)
(* ===================================================================== *)

Module Retry.

(** What a run of [retry] does to the outside, in order. *)
Inductive warning :=
| HeaderWarning                (* "Could not parse header, using default delay" *)
| RateLimitedWarning (attempt : Z)
| RetryWarning (attempt : Z).

(** The readings of [Math.random()] and [Date.now()] taken while the
    delay of a given attempt is computed, and [new Date(s).getTime()]
    ([None] for an invalid date). *)
Record Env := MkEnv {
  random : Z -> Q;
  date_now : Z -> Q;
  date_getTime : string -> jsnum
}.

(** [/^\d+$/.test(s)] *)
Fixpoint all_digits (s : string) : bool :=
  match s with
  | EmptyString => true
  | String c s' => is_digit c && all_digits s'
  end.

Definition digits_only (s : string) : bool :=
  match s with
  | EmptyString => false
  | _ => all_digits s
  end.

(** [parseInt(s, 10)] on a string of decimal digits. *)
Fixpoint parseInt_from (acc : Z) (s : string) : Z :=
  match s with
  | EmptyString => acc
  | String c s' => parseInt_from (10 * acc + (Z.of_nat (nat_of_ascii c) - 48)) s'
  end.

Definition parseInt (s : string) : Z := parseInt_from 0 s.

(** [getDelayFromHeaders(err, defaultDelay)]: the delay and the warnings
    it logs.  The only statement of the [try] block that can throw is the
    call of [err.headers.get]. *)
Definition getDelayFromHeaders (getTime : string -> jsnum) (now : Q)
    (err : ApiError) (defaultDelay : Q) : jsnum * list warning :=
  match headers err with
  | NoHeaders => (Some defaultDelay, [])
  | HeadersGet get =>
      match get "retry-after"%string with
      | GetThrows => (Some defaultDelay, [HeaderWarning])
      | GetReturns None => (Some defaultDelay, [])
      | GetReturns (Some EmptyString) => (Some defaultDelay, [])
      | GetReturns (Some retryAfter) =>
          if digits_only retryAfter then
            (Some (inject_Z (parseInt retryAfter) * 1000)%Q, [])
          else
            match getTime retryAfter with
            | Some retryDate => (Some (Qmax 0 (retryDate - now)), [])
            | None => (None, [])
            end
      end
  end.

Section WithWorld.
Context {W : Type}.

(** The options of [retry]; a field that is not given is [None].
    [retries] is a whole number, as in every call of the repository;
    [Infinity] and [NaN], with which a failing operation would be retried
    for ever, are not represented. *)
Record RetryOptions := MkRetryOptions {
  retries : option Z;
  factor : option Q;
  minTimeout : option Q;
  maxTimeout : option Q;
  shouldRetry : option (ApiError -> W -> bool * W);
  jitter : option bool;
  onRetry : option (ApiError -> Z -> jsnum -> W -> W)
}.

(** [{}] *)
Definition no_options : RetryOptions :=
  {| retries := None; factor := None; minTimeout := None;
     maxTimeout := None; shouldRetry := None; jitter := None;
     onRetry := None |}.

(** The exponential delay of an attempt, capped at [maxTimeout].  The
    power is exact here; in the code it is a double, which overflows to
    [Infinity] for a large exponent, so that with [minTimeout = 0] the
    product is [NaN] there and 0 here. *)
Definition cappedBackoff (attempt : Z) (options : RetryOptions) : Q :=
  let factor := default 2%Q (factor options) in
  let minTimeout := default 1000%Q (minTimeout options) in
  let maxTimeout := default 30000%Q (maxTimeout options) in
  Qmin (minTimeout * Qpower factor (attempt - 1)) maxTimeout.

(** The last step of [calculateDelay]: [Math.floor(delay * (0.7 +
    Math.random() * 0.6))] when [jitter] is on. *)
Definition applyJitter (options : RetryOptions) (rnd : Q) (delay : jsnum)
    : jsnum :=
  if default true (jitter options) then
    match delay with
    | Some d => Some (inject_Z (Qfloor (d * (0.7 + rnd * 0.6))))
    | None => None
    end
  else delay.

(** [calculateDelay(attempt, err, options)], given the readings [rnd]
    of [Math.random()] and [now] of [Date.now()]. *)
Definition calculateDelay (getTime : string -> jsnum) (rnd now : Q)
    (attempt : Z) (err : ApiError) (options : RetryOptions)
    : jsnum * list warning :=
  let maxTimeout := default 30000%Q (maxTimeout options) in
  let delay := cappedBackoff attempt options in
  let '(delay, warnings) :=
    if mentions_429 err then
      let '(rateDelay, warnings) :=
        getDelayFromHeaders getTime now err (delay * 2)%Q in
      (js_min rateDelay maxTimeout, warnings)
    else (Some delay, []) in
  (applyJitter options rnd delay, warnings).

Context {V : Type}.

Inductive effect :=
| Invoke (settlement : outcome V)      (* one call of [fn] *)
| Warn (w : warning)                   (* console.warn *)
| MaxRetriesError                      (* console.error *)
| Sleep (ms : jsnum).                  (* await sleep(delay) *)

(** The body of [while (true)], from the [attempt]-th failure on.
    [fuel] bounds the number of further turns of the loop; [retry] below
    passes enough of it (see [retry_returns]).  [retry] reads the world
    only through [fn], [shouldRetry] and [onRetry], and between the
    settlement of a call and the start of the sleep it runs without
    interruption; so what timers and other tasks do to the world while
    [retry] sleeps, or waits for the call, is part of the step [fn w] of
    the call that follows the sleep. *)
Fixpoint retry_loop (env : Env) (fn : W -> outcome V * W)
    (options : RetryOptions) (fuel : nat) (attempt : Z) (w : W)
    : option (outcome V * W * list effect) :=
  let retries := default 8 (retries options) in
  let shouldRetry := default (fun _ w => (true, w)) (shouldRetry options) in
  let '(settlement, w) := fn w in
  match settlement with
  | Resolved value => Some (Resolved value, w, [Invoke settlement])
  | Threw err =>
      let attempt := attempt + 1 in
      if retries <? attempt then
        Some (Threw err, w, [Invoke settlement; MaxRetriesError])
      else
        let '(again, w) := shouldRetry err w in
        if negb again then
          Some (Threw err, w, [Invoke settlement])
        else
          let '(delay, warnings) :=
            calculateDelay (date_getTime env) (random env attempt)
              (date_now env attempt) attempt err options in
          let notice :=
            if mentions_429 err then RateLimitedWarning attempt
            else RetryWarning attempt in
          let w :=
            match onRetry options with
            | Some observer => observer err attempt delay w
            | None => w
            end in
          match fuel with
          | O => None
          | S fuel' =>
              match retry_loop env fn options fuel' attempt w with
              | Some (final, w, rest) =>
                  Some (final, w,
                        Invoke settlement :: map Warn warnings
                          ++ Warn notice :: Sleep delay :: rest)
              | None => None
              end
          end
  end.

(** [retry(fn, options)] *)
Definition retry (env : Env) (fn : W -> outcome V * W)
    (options : RetryOptions) (w : W)
    : option (outcome V * W * list effect) :=
  retry_loop env fn options (Z.to_nat (default 8 (retries options))) 0 w.

Definition is_call (e : effect) : bool :=
  match e with Invoke _ => true | _ => false end.

Definition is_sleep (e : effect) : bool :=
  match e with Sleep _ => true | _ => false end.


Definition calls (tr : list effect) : nat :=
  length (List.filter is_call tr).

Definition sleeps (tr : list effect) : nat :=
  length (List.filter is_sleep tr).

End WithWorld.

Arguments RetryOptions W : clear implicits.
Arguments effect V : clear implicits.

End Retry.


(* ===================================================================== *)
(** ** Token bucket ([RateLimiter] of [src/utils/concurrency.ts])         *)
(* ===================================================================== *)

Module RateLimiter.

Local Open Scope Q_scope.

Record t := Mk {
  tokens : Q;
  lastRefill : Q;
  maxTokens : Q;
  refillRate : Q                 (* tokens per millisecond *)
}.

(** [new RateLimiter(maxTokens, refillRatePerSecond)] at clock reading
    [now]. *)
Definition create (maxTokens refillRatePerSecond now : Q) : t :=
  {| tokens := maxTokens;
     lastRefill := now;
     maxTokens := maxTokens;
     refillRate := refillRatePerSecond / 1000 |}.

(** [refill()] when [Date.now()] reads [now]. *)
Definition refill (now : Q) (rl : t) : t :=
  let timePassed := now - lastRefill rl in
  let newTokens := timePassed * refillRate rl in
  {| tokens := Qmin (maxTokens rl) (tokens rl + newTokens);
     lastRefill := now;
     maxTokens := maxTokens rl;
     refillRate := refillRate rl |}.

(** [this.tokens -= 1] *)
Definition consume (rl : t) : t :=
  {| tokens := tokens rl - 1;
     lastRefill := lastRefill rl;
     maxTokens := maxTokens rl;
     refillRate := refillRate rl |}.

(** [getToken()] up to its [await]: refill, then either take a token and
    return ([None]) or compute the time to sleep ([Some waitTime]).  The
    rate is positive wherever the pool calls this (see [Pool.start]).
    The time is the ceiling of the exact quotient; the code computes the
    quotient in double precision, where it can fall just above a whole
    number that the exact one does not exceed, so that [Math.ceil] gives
    one millisecond more.  The time is used only by [Pool.timely], as the
    moment before which a schedule that respects the clock does not resume
    the runner; the general statements hold for every schedule. *)
Definition getToken_start (now : Q) (rl : t) : t * option Z :=
  let rl := refill now rl in
  if Qle_bool 1 (tokens rl) then (consume rl, None)
  else (rl, Some (Qceiling ((1 - tokens rl) / refillRate rl))).

(** [getToken()] after [await sleep(waitTime)]. *)
Definition getToken_resume (rl : t) : t := consume rl.

(** [adjustRateLimit(decreaseFactor = 0.8)] *)
Definition adjustRateLimit (rl : t) : t :=
  {| tokens := tokens rl;
     lastRefill := lastRefill rl;
     maxTokens := maxTokens rl;
     refillRate := refillRate rl * 0.8 |}.

End RateLimiter.

(* ===================================================================== *)
(** ** Bounded worker pool ([runtWithConcurrencyLimit])                   *)
(* ===================================================================== *)

(** How the promise of a task of the pool settles.  The pool catches
    whatever a task rejects with, and that need not be an [Error]: besides
    the settlements of [outcome] there is the rejection with a value on
    which the test [error.message && error.message.includes("429")] of
    the [catch] block itself raises a [TypeError]: [null], [undefined],
    or an object whose [message] is truthy and has no method [includes]. *)
Inductive completion (V : Type) :=
| Settles (o : outcome V)
| RejectsUnreadable.
Arguments Settles {V} o.
Arguments RejectsUnreadable {V}.

(** [PromiseSettledResult<T>], as the callers of the pool read it: the
    reason of a rejection is an [Error] object. *)
Inductive settled (V : Type) :=
| Fulfilled (value : V)
| Rejected (reason : ApiError).
Arguments Fulfilled {V} value.
Arguments Rejected {V} reason.

Definition settle {V} (o : outcome V) : settled V :=
  match o with
  | Resolved value => Fulfilled value
  | Threw reason => Rejected reason
  end.

(** A JavaScript array is a list of slots, [None] being a hole.
    [a[k] = x] overwrites slot [k], or extends the array with holes up to
    [k] when [k] is past the end. *)
Definition array_set {A} (a : list (option A)) (k : nat) (x : A)
    : list (option A) :=
  if decide (k < length a)%nat then <[k := Some x]> a
  else a ++ replicate (k - length a) None ++ [Some x].

(** Number of elements of a list that pass a test. *)
Fixpoint count_if {A} (p : A -> bool) (l : list A) : nat :=
  match l with
  | [] => 0
  | x :: l' => (if p x then 1 else 0) + count_if p l'
  end.

Module Pool.
Section WithTasks.
Context {W V : Type}.

(** A task is a closure [() => Promise<T>]: called in a world, it
    settles and leaves a world. *)
Definition task : Type := W -> completion V * W.

(** A task that fulfils, or rejects with an [Error] object. *)
Definition plain (t : W -> outcome V * W) : task :=
  fun w => let '(o, w') := t w in (Settles o, w').

(** Where one of the [limit] async runners stands. *)
Inductive runner :=
| AtLoopTest                                  (* about to test [i < tasks.length] *)
| Sleeping (current : nat) (wake_at : Q)      (* in [getToken], awaiting [sleep] *)
| TokenGranted (current : nat)                (* [getToken] done, task not run yet *)
| Finished                                    (* left the loop *)
| Died.                                       (* its [catch] block threw *)

(** One call of a task, kept for the statements only. *)
Record execution := MkExecution {
  index : nat;
  world_before : W;
  settlement : completion V
}.

(** What [results[current] = { status, ... }] stores: a settled result,
    or a rejection whose reason is no [Error] object. *)
Inductive entry :=
| Recorded (result : settled V)
| RecordedUnreadable.

Definition record (c : completion V) : entry :=
  match c with
  | Settles o => Recorded (settle o)
  | RejectsUnreadable => RecordedUnreadable
  end.

Record state := MkState {
  i : nat;                                    (* the shared cursor *)
  results : list (option entry);
  rateLimiter : RateLimiter.t;
  runners : list runner;
  world : W;
  history : list execution                    (* ghost: the calls so far *)
}.

(** State after the synchronous prefix of the function: [results = []],
    [i = 0], a fresh limiter, [limit] runners not yet started. *)
Definition start (limit : nat) (now : Q) (w : W) : state :=
  {| i := 0;
     results := [];
     rateLimiter :=
       RateLimiter.create (inject_Z (Z.of_nat limit) * 2)%Q
                          (inject_Z (Z.of_nat limit) * 0.5)%Q now;
     runners := replicate limit AtLoopTest;
     world := w;
     history := [] |}.

(** What [tasks[current]()] settles to; past the end of the array the
    call itself raises a [TypeError], which the [catch] receives. *)
Definition call (tasks : list task) (current : nat) (w : W)
    : completion V * W :=
  match tasks !! current with
  | Some t => t w
  | None =>
      (Settles
         (Threw (MkApiError "tasks[current] is not a function" None
                   NoHeaders)),
       w)
  end.

(** The scheduler resumes runner [r] when the clock reads [now]; the
    runner advances to its next [await] (or to its end).  When the task
    has settled, the [try] or the [catch] block stores the result; the
    [catch] block then reads [error.message]: for a reason it cannot
    read, that raises a [TypeError] inside the [catch] block, which ends
    the runner (its promise rejects) with the slot already written. *)
Definition resume (tasks : list task) (r : nat) (now : Q) (st : state)
    : option state :=
  match runners st !! r with
  | None | Some Finished | Some Died => None
  | Some AtLoopTest =>
      if decide (i st < length tasks)%nat then
        let current := i st in
        let '(rl, wait) := RateLimiter.getToken_start now (rateLimiter st) in
        let next :=
          match wait with
          | None => TokenGranted current
          | Some waitTime => Sleeping current (now + inject_Z waitTime)%Q
          end in
        Some {| i := S (i st);
                results := results st;
                rateLimiter := rl;
                runners := <[r := next]> (runners st);
                world := world st;
                history := history st |}
      else
        Some {| i := i st;
                results := results st;
                rateLimiter := rateLimiter st;
                runners := <[r := Finished]> (runners st);
                world := world st;
                history := history st |}
  | Some (Sleeping current _) =>
      Some {| i := i st;
              results := results st;
              rateLimiter := RateLimiter.getToken_resume (rateLimiter st);
              runners := <[r := TokenGranted current]> (runners st);
              world := world st;
              history := history st |}
  | Some (TokenGranted current) =>
      let '(c, w) := call tasks current (world st) in
      let rl :=
        match c with
        | Settles (Threw error) =>
            if mentions_429 error
            then RateLimiter.adjustRateLimit (rateLimiter st)
            else rateLimiter st
        | Settles (Resolved _) | RejectsUnreadable => rateLimiter st
        end in
      let next :=
        match c with
        | Settles _ => AtLoopTest
        | RejectsUnreadable => Died
        end in
      Some {| i := i st;
              results := array_set (results st) current (record c);
              rateLimiter := rl;
              runners := <[r := next]> (runners st);
              world := w;
              history := history st ++ [MkExecution current (world st) c] |}
  end.

(** A schedule: which runner is resumed, and the clock reading then. *)
Definition schedule : Type := list (nat * Q).

Fixpoint run (tasks : list task) (sched : schedule) (st : state)
    : option state :=
  match sched with
  | [] => Some st
  | (r, now) :: sched' =>
      match resume tasks r now st with
      | Some st' => run tasks sched' st'
      | None => None
      end
  end.

Definition is_finished (r : runner) : bool :=
  match r with Finished => true | _ => false end.

Definition is_died (r : runner) : bool :=
  match r with Died => true | _ => false end.

(** A runner that will not be resumed again. *)
Definition stopped (r : runner) : bool := is_finished r || is_died r.

(** A slot of [results] as the caller gets it.  (When the array is handed
    back no slot holds an unreadable reason: the runner that stored it has
    died.) *)
Definition published (slot : option entry) : option (settled V) :=
  match slot with
  | Some (Recorded result) => Some result
  | Some RecordedUnreadable | None => None
  end.

(** [await Promise.all(runners); return results]: the array is handed
    back once every runner has finished. *)
Definition returned (st : state) : option (list (option (settled V))) :=
  if forallb is_finished (runners st)
  then Some (map published (results st))
  else None.

(** [Promise.all(runners)] rejects as soon as one runner has died, and
    with it the promise of [runtWithConcurrencyLimit], whatever the other
    runners go on to do: no array is returned. *)
Definition rejected (st : state) : bool :=
  existsb is_died (runners st).

(** [runtWithConcurrencyLimit(tasks, limit)] under a schedule: the
    array it returns and the world it leaves, when the schedule is one
    the runners can follow and it runs them all to their end. *)
Definition runtWithConcurrencyLimit (tasks : list task) (limit : nat)
    (now : Q) (sched : schedule) (w : W)
    : option (list (option (settled V)) * W) :=
  match run tasks sched (start limit now w) with
  | Some st =>
      match returned st with
      | Some res => Some (res, world st)
      | None => None
      end
  | None => None
  end.

(** A schedule respects the clock from reading [last] on when the
    readings never go back and no sleeper is woken before its time. *)
Fixpoint timely (tasks : list task) (last : Q) (sched : schedule)
    (st : state) : bool :=
  match sched with
  | [] => true
  | (r, now) :: sched' =>
      Qle_bool last now
      && match runners st !! r with
         | Some (Sleeping _ wake_at) => Qle_bool wake_at now
         | _ => true
         end
      && match resume tasks r now st with
         | Some st' => timely tasks now sched' st'
         | None => false
         end
  end.

(** The first runner that has neither finished nor died. *)
Fixpoint first_unfinished (rs : list runner) : option (nat * runner) :=
  match rs with
  | [] => None
  | Finished :: rs' | Died :: rs' =>
      match first_unfinished rs' with
      | Some (k, r) => Some (S k, r)
      | None => None
      end
  | r :: _ => Some (O, r)
  end.

(** One particular scheduler: always resume the first unfinished
    runner, as soon as the clock allows.  It yields the schedule it
    followed and the state it reached. *)
Fixpoint drive (tasks : list task) (fuel : nat) (now : Q) (st : state)
    : schedule * state :=
  match fuel with
  | O => ([], st)
  | S fuel' =>
      match first_unfinished (runners st) with
      | None => ([], st)
      | Some (r, rs) =>
          let now' :=
            match rs with
            | Sleeping _ wake_at => Qmax now wake_at
            | _ => now
            end in
          match resume tasks r now' st with
          | Some st' =>
              let '(sched, st'') := drive tasks fuel' now' st' in
              ((r, now') :: sched, st'')
          | None => ([], st)
          end
      end
  end.

(** *** Notions used in the statements *)

(** The index a runner has claimed and not yet recorded. *)
Definition holding (r : runner) : option nat :=
  match r with
  | Sleeping current _ | TokenGranted current => Some current
  | AtLoopTest | Finished | Died => None
  end.

Definition holds (k : nat) (r : runner) : bool :=
  match holding r with
  | Some current => Nat.eqb current k
  | None => false
  end.

(** Number of runners holding index [k]. *)
Definition holders (k : nat) (rs : list runner) : nat :=
  count_if (holds k) rs.

(** Number of calls of task [k] so far. *)
Definition executions (k : nat) (h : list execution) : nat :=
  count_if (fun e => Nat.eqb (index e) k) h.

(** Resumptions a runner still needs at least, were it to stop
    claiming. *)
Definition weight (r : runner) : nat :=
  match r with
  | Sleeping _ _ => 3
  | TokenGranted _ => 2
  | AtLoopTest => 1
  | Finished | Died => 0
  end.

Definition total_weight (rs : list runner) : nat :=
  foldr (fun r n => weight r + n)%nat 0%nat rs.

(** Number of calls so far that ended in a reason the [catch] block could
    not read. *)
Definition crashes (h : list execution) : nat :=
  count_if (fun e => match settlement e with
                     | RejectsUnreadable => true
                     | Settles _ => false
                     end) h.

(** Number of runners that have died. *)
Definition died (rs : list runner) : nat := count_if is_died rs.

(** A bound on the number of resumptions left. *)
Definition measure (tasks : list task) (st : state) : nat :=
  3 * (length tasks - i st) + total_weight (runners st).

(** What holds of every state a schedule leads to. *)
Record invariant (tasks : list task) (limit : nat) (st : state) : Prop := {
  inv_runners : length (runners st) = limit;
  inv_cursor : (i st <= length tasks)%nat;
  inv_length : (length (results st) <= i st)%nat;
  inv_once : forall k,
    (holders k (runners st) + executions k (history st))%nat
    = if decide (k < i st)%nat then 1%nat else 0%nat;
  inv_recorded : forall e, e ∈ history st ->
    results st !! index e = Some (Some (record (settlement e)));
  inv_genuine : forall e, e ∈ history st ->
    fst (call tasks (index e) (world_before e)) = settlement e;
  inv_finished : Finished ∈ runners st -> i st = length tasks;
  inv_died : died (runners st) = crashes (history st);
  inv_bucket : (0 <= RateLimiter.refillRate (rateLimiter st))%Q
               /\ RateLimiter.maxTokens (rateLimiter st)
                  = (inject_Z (Z.of_nat limit) * 2)%Q;
  inv_rate : (0 < limit)%nat ->
             (0 < RateLimiter.refillRate (rateLimiter st))%Q
}.

End WithTasks.

Arguments task W V : clear implicits.
Arguments state W V : clear implicits.
Arguments execution W V : clear implicits.
Arguments entry V : clear implicits.

End Pool.


(* ===================================================================== *)
(** ** Orchestrator: concurrency controller and batch scheduler           *)
(* ===================================================================== *)

(** One call of the pool by [processBatches], kept for the statements
    only: the limit the batch was run with, and the value the field
    [concurrency] had when the batch started. *)
Record launch := MkLaunch {
  limit_used : Z;
  level_at_start : Z
}.

(** [batchResults.filter(r => r.status === "rejected" &&
    r.reason.message.includes("429")).length]; [filter] skips holes. *)
Definition rejected_with_429 {V} (slot : option (settled V)) : bool :=
  match slot with
  | Some (Rejected reason) => includes "429" (message reason)
  | _ => false
  end.

Definition count_429 {V} (batchResults : list (option (settled V))) : Z :=
  Z.of_nat (length (List.filter rejected_with_429 batchResults)).

(** The pool run by one particular scheduler ([Pool.drive]), as a function
    from the world before the run to the array returned and the world
    after.  The builder only ever passes a level of at least 1, and tasks
    that reject with [Error] objects (API calls, most of them wrapped in
    [retry]). *)
Definition driven_pool {W V} (tasks : list (W -> outcome V * W)) (limit : Z)
    (w : W) : list (option (settled V)) * W :=
  let st := Pool.start (Z.to_nat limit) 0%Q w in
  let '(_, st') :=
    Pool.drive (map Pool.plain tasks) (3 * length tasks + Z.to_nat limit)
      0%Q st in
  (map Pool.published (Pool.results st'), Pool.world st').

(** First version of [MegaverseBuilder] (fields [concurrency],
    [error429Count], [maxConcurrency = 10]). *)
Module BuilderA.

Record state := MkState {
  concurrency : Z;
  error429Count : Z
}.

Definition maxConcurrency : Z := 10.
Definition batchSize : nat := 20.

(** Field initialisers of the class. *)
Definition initial : state :=
  {| concurrency := 3; error429Count := 0 |}.

(** [record429()] *)
Definition record429 (st : state) : state :=
  {| concurrency := concurrency st;
     error429Count := error429Count st + 1 |}.

Definition adjustConcurrency (st : state) : state :=
  let concurrency' :=
    if error429Count st =? 0 then
      Z.min (concurrency st + 1) maxConcurrency
    else
      let reduction := Z.min (error429Count st) (concurrency st - 1) in
      Z.max 1 (concurrency st - reduction) in
  {| concurrency := concurrency'; error429Count := 0 |}.

(** The range the data model gives the two fields. *)
Definition valid (st : state) : Prop :=
  1 <= concurrency st <= maxConcurrency /\ 0 <= error429Count st.

(** The [shouldRetry] closure of [makeRetryOpts()]. *)
Definition shouldRetry (err : ApiError) (st : state) : bool * state :=
  let is429 := includes "429" (message err) in
  let st := if is429 then record429 st else st in
  (is429 || matches_5xx (message err), st).

Definition makeRetryOpts : Retry.RetryOptions state :=
  {| Retry.retries := Some 10;
     Retry.factor := Some 2%Q;
     Retry.minTimeout := Some 1000%Q;
     Retry.maxTimeout := Some 60000%Q;
     Retry.shouldRetry := Some shouldRetry;
     Retry.jitter := None;
     Retry.onRetry := None |}.

Section Batches.
Context {T V : Type}.

(** The worker pool as the run makes it behave: the tasks and the
    timer callback may change the fields while it runs. *)
Variable pool : list T -> Z -> state -> list (option (settled V)) * state.

(** The number of times the interval timer fires during the pause that
    follows a given batch. *)
Variable ticks : nat -> nat.

(** The first loop: [batches.push(allTasks.slice(i, i + batchSize))]. *)
Fixpoint make_batches (fuel : nat) (allTasks : list T) : list (list T) :=
  match fuel, allTasks with
  | S fuel', _ :: _ =>
      take batchSize allTasks :: make_batches fuel' (drop batchSize allTasks)
  | _, _ => []
  end.

(** The second loop, from batch number [index] on. *)
Fixpoint process (batches : list (list T)) (index : nat)
    (concurrency : Z) (st : state)
    : list (option (settled V)) * state * list launch :=
  match batches with
  | [] => ([], st, [])
  | batchTasks :: rest =>
      let started := MkLaunch concurrency (BuilderA.concurrency st) in
      let '(batchResults, st) := pool batchTasks concurrency st in
      let failedWith429 := count_429 batchResults in
      let st :=
        if 0 <? failedWith429 then
          adjustConcurrency
            {| concurrency := BuilderA.concurrency st;
               error429Count := error429Count st + failedWith429 |}
        else st in
      let st :=
        match rest with
        | [] => st
        | _ :: _ => Nat.iter (ticks index) adjustConcurrency st
        end in
      let '(results, st, launches) :=
        process rest (S index) concurrency st in
      (batchResults ++ results, st, started :: launches)
  end.

(** [processBatches(allTasks, concurrency)] *)
Definition processBatches (allTasks : list T) (concurrency : Z)
    (st : state) : list (option (settled V)) * state * list launch :=
  process (make_batches (length allTasks) allTasks) 0 concurrency st.

(** The callers ([buildXPattern], [buildUniverse],
    [resetUniverseToBlue]): [this.processBatches(tasks,
    this.concurrency)]. *)
Definition runBatches (tasks : list T) (st : state)
    : list (option (settled V)) * state * list launch :=
  processBatches tasks (BuilderA.concurrency st) st.

End Batches.

End BuilderA.

(** Second version of [MegaverseBuilder] (fields [concurrency],
    [error429], [maxConcurrency = 8]). *)
Module BuilderB.

Record state := MkState {
  concurrency : Z;
  error429 : Z
}.

Definition maxConcurrency : Z := 8.
Definition batchSize : nat := 20.

Definition initial : state :=
  {| concurrency := 3; error429 := 0 |}.

Definition adjustConcurrency (st : state) : state :=
  let concurrency' :=
    if error429 st =? 0 then
      Z.min (concurrency st + 1) maxConcurrency
    else
      Z.max 1 (concurrency st - error429 st) in
  {| concurrency := concurrency'; error429 := 0 |}.

Definition valid (st : state) : Prop :=
  1 <= concurrency st <= maxConcurrency /\ 0 <= error429 st.

(** The [shouldRetry] closure of [makeRetryOpts()]. *)
Definition shouldRetry (err : ApiError) (st : state) : bool * state :=
  let is429 := includes "429" (message err) in
  let st :=
    if is429 then {| concurrency := concurrency st; error429 := error429 st + 1 |}
    else st in
  (is429 || matches_5xx (message err), st).

Definition makeRetryOpts : Retry.RetryOptions state :=
  {| Retry.retries := Some 8;
     Retry.factor := Some 2%Q;
     Retry.minTimeout := Some 1000%Q;
     Retry.maxTimeout := Some 60000%Q;
     Retry.shouldRetry := Some shouldRetry;
     Retry.jitter := None;
     Retry.onRetry := None |}.

Section Batches.
Context {T V : Type}.

Variable pool : list T -> Z -> state -> list (option (settled V)) * state.
Variable ticks : nat -> nat.

(** The loop [for (let i = 0; i < tasks.length; i += this.batchSize)],
    from offset [i] on; [fuel] bounds the number of turns. *)
Fixpoint processBatches_from (fuel : nat) (i : nat) (tasks : list T)
    (st : state) : list (option (settled V)) * state * list launch :=
  match fuel with
  | O => ([], st, [])
  | S fuel' =>
      if decide (i < length tasks)%nat then
        let batch := take batchSize (drop i tasks) in
        let started := MkLaunch (concurrency st) (concurrency st) in
        let '(r, st) := pool batch (concurrency st) st in
        let rateErrors := count_429 r in
        let st :=
          if rateErrors =? 0 then st
          else
            adjustConcurrency
              {| concurrency := concurrency st;
                 error429 := error429 st + rateErrors |} in
        let st :=
          if decide (i + batchSize < length tasks)%nat
          then Nat.iter (ticks (i / batchSize)%nat) adjustConcurrency st
          else st in
        let '(results, st, launches) :=
          processBatches_from fuel' (i + batchSize)%nat tasks st in
        (r ++ results, st, started :: launches)
      else ([], st, [])
  end.

(** [processBatches(tasks)] *)
Definition processBatches (tasks : list T) (st : state)
    : list (option (settled V)) * state * list launch :=
  processBatches_from (length tasks) 0 tasks st.

End Batches.

End BuilderB.


(* ===================================================================== *)
(** ** Further notions about the pool                                     *)
(* ===================================================================== *)

(** Number of runners that have claimed a task and not yet recorded its
    result. *)
Definition in_flight (rs : list Pool.runner) : nat :=
  count_if (fun r => match Pool.holding r with
                     | Some _ => true
                     | None => false
                     end) rs.

(** Number of calls so far that were rejected with a message mentioning
    429, the ones after which the pool calls [adjustRateLimit]. *)
Definition throttled {W V} (h : list (Pool.execution W V)) : nat :=
  count_if (fun e => match Pool.settlement e with
                     | Settles (Threw error) => mentions_429 error
                     | Settles (Resolved _) | RejectsUnreadable => false
                     end) h.

(** What the bucket and the cursor keep in every state of a run: the count
    never exceeds the capacity; the rate is the initial one times 0.8 for
    each throttled call; the cursor counts the calls made and the tasks in
    flight. *)
Definition pool_accounts {W V} (limit : nat) (st : Pool.state W V) : Prop :=
  (RateLimiter.tokens (Pool.rateLimiter st)
   <= RateLimiter.maxTokens (Pool.rateLimiter st))%Q
  /\ (RateLimiter.refillRate (Pool.rateLimiter st)
      == inject_Z (Z.of_nat limit) * 0.5 / 1000
         * Qpower 0.8 (Z.of_nat (throttled (Pool.history st))))%Q
  /\ Pool.i st = (length (Pool.history st) + in_flight (Pool.runners st))%nat.

(** The wrapper of [buildUniverse] and [resetUniverseToBlue] in the first
    version of the builder:
    [async () => { try { await fn() } catch { } finally { logProgress() } }]. *)
Definition swallow_and_log {W V} (logProgress : W -> W)
    (fn : Pool.task W V) : Pool.task W unit :=
  fun w => let '(_, w) := fn w in (Settles (Resolved tt), logProgress w).

(** The wrapper of [runWithProgress] in the second version:
    [async () => { try { await fn() } finally { log() } }]. *)
Definition log_finally {W V} (log : W -> W) (fn : Pool.task W V)
    : Pool.task W unit :=
  fun w =>
    let '(c, w) := fn w in
    (match c with
     | Settles (Resolved _) => Settles (Resolved tt)
     | Settles (Threw reason) => Settles (Threw reason)
     | RejectsUnreadable => RejectsUnreadable
     end, log w).

(* ===================================================================== *)
(** ** Progress logger ([src/utils/progressLogger.ts])                    *)
(* ===================================================================== *)

Module ProgressLogger.

(** The function [createProgressLogger(label, total, interval)] returns,
    applied when the counter of its closure is [count]: the new counter
    and, when a line is printed, the pair [count/total] it shows.  JavaScript's
    [%] is the remainder of the truncated division; [count % 0] is [NaN],
    which is not [0], as [Z.rem count 0] is [count]. *)
Definition logProgress (total interval : Z) (count : Z) : Z * option (Z * Z) :=
  let count := count + 1 in
  if (Z.rem count interval =? 0) || (count =? total)
  then (count, Some (count, total))
  else (count, None).

(** The lines printed by [calls] successive calls, from counter [count]. *)
Fixpoint lines (total interval : Z) (calls : nat) (count : Z)
    : list (Z * Z) :=
  match calls with
  | O => []
  | S calls' =>
      let '(count, line) := logProgress total interval count in
      match line with
      | Some l => l :: lines total interval calls' count
      | None => lines total interval calls' count
      end
  end.

End ProgressLogger.

(* ===================================================================== *)
(** ** Tokens, cells and API calls                                        *)
(* ===================================================================== *)

(** [CurrentCell] of [MegaverseApiClient.ts] when it is not [null]:
    [{ type: 0 }], [{ type: 1; color }], [{ type: 2; direction }]. *)
Inductive cell :=
| PolyanetCell
| SoloonCell (color : string)
| ComethCell (direction : string).

(** The methods of [IMegaverseApiClient] that change the map, with their
    arguments; [NoCall] is [Promise.resolve()]. *)
Inductive api_call :=
| CreatePolyanet (row column : nat)
| DeletePolyanet (row column : nat)
| CreateSoloon (row column : nat) (color : string)
| DeleteSoloon (row column : nat)
| CreateCometh (row column : nat) (direction : string)
| DeleteCometh (row column : nat)
| NoCall.

(** [toUpperCase()] and [toLowerCase()] on the letters A-Z, a-z; the
    tokens and names they are applied to are ASCII. *)
Definition upper_char (c : ascii) : ascii :=
  let n := nat_of_ascii c in
  if ((97 <=? n) && (n <=? 122))%nat then ascii_of_nat (n - 32) else c.

Definition lower_char (c : ascii) : ascii :=
  let n := nat_of_ascii c in
  if ((65 <=? n) && (n <=? 90))%nat then ascii_of_nat (n + 32) else c.

Fixpoint toUpperCase (s : string) : string :=
  match s with
  | EmptyString => EmptyString
  | String c s' => String (upper_char c) (toUpperCase s')
  end.

Fixpoint toLowerCase (s : string) : string :=
  match s with
  | EmptyString => EmptyString
  | String c s' => String (lower_char c) (toLowerCase s')
  end.

(** [s.split("_")[0]] *)
Fixpoint before_underscore (s : string) : string :=
  match s with
  | EmptyString => EmptyString
  | String c s' =>
      if Ascii.eqb c "_" then EmptyString else String c (before_underscore s')
  end.

Definition SOLOON : list string := ["red"; "blue"; "purple"; "white"]%string.
Definition COMETH : list string := ["up"; "down"; "left"; "right"]%string.

Definition isSoloonToken (t : string) : bool :=
  existsb (fun c => String.eqb t (toUpperCase c ++ "_SOLOON")) SOLOON.

Definition isComethToken (t : string) : bool :=
  existsb (fun d => String.eqb t (toUpperCase d ++ "_COMETH")) COMETH.

(** [del[cell.type](r, c)] *)
Definition delete_call (have : cell) (r c : nat) : api_call :=
  match have with
  | PolyanetCell => DeletePolyanet r c
  | SoloonCell _ => DeleteSoloon r c
  | ComethCell _ => DeleteCometh r c
  end.

(** [grid[r][c]] where the row exists; a missing column reads as
    [undefined], which the code treats as [null]. *)
Definition cell_at (grid : list (list (option cell))) (r c : nat)
    : option cell :=
  mjoin (default [] (grid !! r) !! c).

(** The reconciliation helpers of the second version of the builder. *)
Module Reconcile.

(** [isSame(token, cell)]; [None] is [null] (or [undefined]). *)
Definition isSame (token : string) (have : option cell) : bool :=
  (String.eqb token "SPACE"
   && match have with None => true | Some _ => false end)
  || (String.eqb token "POLYANET"
      && match have with Some PolyanetCell => true | _ => false end)
  || (isSoloonToken token
      && match have with
         | Some (SoloonCell color) =>
             String.eqb color (toLowerCase (before_underscore token))
         | _ => false
         end)
  || (isComethToken token
      && match have with
         | Some (ComethCell direction) =>
             String.eqb direction (toLowerCase (before_underscore token))
         | _ => false
         end).

(** [createFromToken(token, r, c)]: the call it makes. *)
Definition createFromToken (token : string) (r c : nat) : api_call :=
  if String.eqb token "POLYANET" then CreatePolyanet r c
  else if isSoloonToken token then
    CreateSoloon r c (toLowerCase (before_underscore token))
  else if isComethToken token then
    CreateCometh r c (toLowerCase (before_underscore token))
  else NoCall.

(** A task of the list [todo] of [syncWithGoal]: one of the [del]
    closures, or [() => this.createFromToken(token, r, c)]. *)
Inductive todo_item :=
| Remove (have : cell) (r c : nat)
| Create (token : string) (r c : nat).

(** The call a task makes when the pool runs it. *)
Definition perform (item : todo_item) : api_call :=
  match item with
  | Remove have r c => delete_call have r c
  | Create token r c => createFromToken token r c
  end.

Definition position (item : todo_item) : nat * nat :=
  match item with
  | Remove _ r c | Create _ r c => (r, c)
  end.

(** The body of the inner [forEach] of [syncWithGoal] for one cell. *)
Definition cell_todo (token : string) (have : option cell) (r c : nat)
    : list todo_item :=
  if isSame token have then []
  else match have with
       | Some h => [Remove h r c]
       | None => []
       end ++ [Create token r c].

(** [row.forEach((token, c) => ...)] from column [c] on; a column missing
    in the current row reads as [undefined]. *)
Fixpoint row_todo (row : list string) (current_row : list (option cell))
    (r c : nat) : list todo_item :=
  match row with
  | [] => []
  | token :: row' =>
      cell_todo token (mjoin (current_row !! c)) r c
        ++ row_todo row' current_row r (S c)
  end.

(** [goal.forEach((row, r) => ...)] from row [r] on: the list [todo], or
    [None] when [current[r]] is missing for a non-empty row of the goal
    (a [TypeError]). *)
Fixpoint syncWithGoal_from (goal : list (list string))
    (current : list (list (option cell))) (r : nat)
    : option (list todo_item) :=
  match goal with
  | [] => Some []
  | row :: goal' =>
      match row, current !! r with
      | _ :: _, None => None
      | _, current_row =>
          match syncWithGoal_from goal' current (S r) with
          | Some rest =>
              Some (row_todo row (default [] current_row) r 0 ++ rest)
          | None => None
          end
      end
  end.

(** The tasks [syncWithGoal] hands to the pool. *)
Definition syncWithGoal_todo (goal : list (list string))
    (current : list (list (option cell))) : option (list todo_item) :=
  syncWithGoal_from goal current 0.

(** [row.forEach((cell, c) => { if (cell) tasks.push(...) })] *)
Fixpoint row_deletes (row : list (option cell)) (r c : nat) : list api_call :=
  match row with
  | [] => []
  | Some have :: row' => delete_call have r c :: row_deletes row' r (S c)
  | None :: row' => row_deletes row' r (S c)
  end.

Fixpoint toDeleteTasks_from (grid : list (list (option cell))) (r : nat)
    : list api_call :=
  match grid with
  | [] => []
  | row :: grid' => row_deletes row r 0 ++ toDeleteTasks_from grid' (S r)
  end.

(** [toDeleteTasks(grid)]: the call of each task, before [retry] wraps
    it. *)
Definition toDeleteTasks (grid : list (list (option cell))) : list api_call :=
  toDeleteTasks_from grid 0.

(** The body of the inner loop of [buildUniverse] for one cell.  A row of
    the goal shorter than the first one reads as [undefined] there
    ([None]): [isSame] is false for it and [createFromToken] does
    nothing. *)
Definition createTodo_cell (token : option string) (have : option cell)
    (r c : nat) : list api_call :=
  match token with
  | Some token =>
      if isSame token have then [] else [createFromToken token r c]
  | None => [NoCall]
  end.

(** [for (let c = 0; c < goal[0].length; c++)] in row [r]. *)
Definition createTodo_row (width : nat) (row : list string)
    (current_row : list (option cell)) (r : nat) : list api_call :=
  flat_map (fun c => createTodo_cell (row !! c) (mjoin (current_row !! c)) r c)
    (seq 0 width).

(** [for (let r = 0; r < goal.length; r++)] from row [r] on: the calls of
    the tasks of [createTodo], or [None] when [current[r]] is missing while
    there is a column to look at (a [TypeError]). *)
Fixpoint createTodo_from (width : nat) (goal : list (list string))
    (current : list (list (option cell))) (r : nat)
    : option (list api_call) :=
  match goal with
  | [] => Some []
  | row :: goal' =>
      match width, current !! r with
      | S _, None => None
      | _, current_row =>
          match createTodo_from width goal' current (S r) with
          | Some rest =>
              Some (createTodo_row width row (default [] current_row) r
                      ++ rest)
          | None => None
          end
      end
  end.

(** The list [createTodo] of [buildUniverse]; the width is
    [goal[0].length]. *)
Definition createTodo (goal : list (list string))
    (current : list (list (option cell))) : option (list api_call) :=
  createTodo_from (length (default [] (head goal))) goal current 0.

End Reconcile.

(** The first version of the builder: the [switch] of [buildUniverse]. *)
Definition create_by_switch (cell : string) (r c : nat) : api_call :=
  if String.eqb cell "POLYANET" then CreatePolyanet r c
  else if String.eqb cell "RED_SOLOON" then CreateSoloon r c "red"
  else if String.eqb cell "BLUE_SOLOON" then CreateSoloon r c "blue"
  else if String.eqb cell "PURPLE_SOLOON" then CreateSoloon r c "purple"
  else if String.eqb cell "WHITE_SOLOON" then CreateSoloon r c "white"
  else if String.eqb cell "UP_COMETH" then CreateCometh r c "up"
  else if String.eqb cell "DOWN_COMETH" then CreateCometh r c "down"
  else if String.eqb cell "LEFT_COMETH" then CreateCometh r c "left"
  else if String.eqb cell "RIGHT_COMETH" then CreateCometh r c "right"
  else NoCall.

(** The first version of the builder: the calls of the tasks [rawTasks]
    that [buildUniverse] collects, row [r] from column [c] on
    ([for (let c = 0; c < goalMap[r].length; c++)]). *)
Fixpoint rawTasks_row (row : list string) (r c : nat) : list api_call :=
  match row with
  | [] => []
  | cell :: row' =>
      (if String.eqb cell "SPACE" then [] else [create_by_switch cell r c])
        ++ rawTasks_row row' r (S c)
  end.

Fixpoint rawTasks_from (goalMap : list (list string)) (r : nat)
    : list api_call :=
  match goalMap with
  | [] => []
  | row :: goalMap' => rawTasks_row row r 0 ++ rawTasks_from goalMap' (S r)
  end.

Definition buildUniverse_rawTasks (goalMap : list (list string))
    : list api_call :=
  rawTasks_from goalMap 0.

(** The classes [Polyanet], [Soloon] and [Cometh] of the domain model,
    with the fields their constructors set. *)
Inductive AstralBody :=
| Polyanet (row column : nat)
| Soloon (row column : nat) (color : string)
| Cometh (row column : nat) (direction : string).

(** [parseCell(cell, row, column)]; [None] is [null]. *)
Definition parseCell (cell : string) (row column : nat) : option AstralBody :=
  if String.eqb cell "POLYANET" then Some (Polyanet row column)
  else if String.eqb cell "RED_SOLOON" || String.eqb cell "BLUE_SOLOON"
          || String.eqb cell "PURPLE_SOLOON" || String.eqb cell "WHITE_SOLOON"
  then Some (Soloon row column (toLowerCase (before_underscore cell)))
  else if String.eqb cell "UP_COMETH" || String.eqb cell "DOWN_COMETH"
          || String.eqb cell "LEFT_COMETH" || String.eqb cell "RIGHT_COMETH"
  then Some (Cometh row column (toLowerCase (before_underscore cell)))
  else None.

(** The calls of the tasks [buildXPattern(matrixSize)] collects:
    [for (let i = 2; i < matrixSize - 2; i++)], from [i] on. *)
Fixpoint xPattern_from (fuel : nat) (i matrixSize : nat) : list api_call :=
  match fuel with
  | O => []
  | S fuel' =>
      if decide (i + 2 < matrixSize)%nat then
        CreatePolyanet i i :: CreatePolyanet i (matrixSize - i)
          :: xPattern_from fuel' (S i) matrixSize
      else []
  end.

Definition buildXPattern_calls (matrixSize : nat) : list api_call :=
  xPattern_from matrixSize 2 matrixSize.


(* ===================================================================== *)
(** ** The API client ([src/api/MegaverseApiClient.ts])                   *)
(* ===================================================================== *)

Module ApiClient.

(** What the client reads of the [Response] of [fetch]: [resp.ok],
    [resp.status], [resp.headers] and the body [await resp.text()]. *)
Record Response := MkResponse {
  ok : bool;
  resp_status : N;
  resp_headers : header_source;
  text : string
}.

(** The file holds two versions of the client, which word the message of
    a failed request differently. *)
Inductive version := First | Second.

Inductive method := POST | DELETE.

Definition method_name (m : method) : string :=
  match m with
  | POST => "POST"
  | DELETE => "DELETE"
  end.

(** The number [resp.status] in a template literal. *)
Definition show (n : N) : string := NilZero.string_of_uint (N.to_uint n).

(** The message of the [ApiError] of [post] and [del]:
    [`${resource}: POST failed (${resp.status}): ${await resp.text()}`] in
    the first version,
    [`POST ${resource} failed (${resp.status}): ${await resp.text()}`] in
    the second. *)
Definition failure_message (v : version) (m : method) (resource : string)
    (resp : Response) : string :=
  match v with
  | First =>
      resource ++ ": " ++ method_name m ++ " failed ("
        ++ show (resp_status resp) ++ "): " ++ text resp
  | Second =>
      method_name m ++ " " ++ resource ++ " failed ("
        ++ show (resp_status resp) ++ "): " ++ text resp
  end.

(** [new ApiError(message, resp)] *)
Definition failure (v : version) (m : method) (resource : string)
    (resp : Response) : ApiError :=
  MkApiError (failure_message v m resource resp)
    (Some (Z.of_N (resp_status resp))) (resp_headers resp).

(** [post(resource, payload)] and [del(resource, coords)], given the
    response of the server. *)
Definition request (v : version) (m : method) (resource : string)
    (resp : Response) : outcome unit :=
  if ok resp then Resolved tt else Threw (failure v m resource resp).

End ApiClient.

(** No character of [s] is a decimal digit. *)
Fixpoint digit_free (s : string) : bool :=
  match s with
  | EmptyString => true
  | String c s' => negb (is_digit c) && digit_free s'
  end.

(* ===================================================================== *)
(** ** A spy on the operation that [retry] runs                           *)
(* ===================================================================== *)



(* ===================================================================== *)
(** * Properties                                                          *)
(* ===================================================================== *)


(* --------------------------------------------------------------------- *)
(** ** The concurrency controller                                         *)
(* --------------------------------------------------------------------- *)

Lemma BuilderA_initial_valid : BuilderA.valid BuilderA.initial.
Proof. unfold BuilderA.valid, BuilderA.maxConcurrency; simpl; lia. Qed.

Lemma BuilderB_initial_valid : BuilderB.valid BuilderB.initial.
Proof. unfold BuilderB.valid, BuilderB.maxConcurrency; simpl; lia. Qed.

Lemma BuilderA_record429_valid st :
  BuilderA.valid st -> BuilderA.valid (BuilderA.record429 st).
Proof. unfold BuilderA.valid; simpl; lia. Qed.

(** Every adjustment keeps the level within [1, maxConcurrency]. *)
Lemma BuilderA_adjust_valid st :
  BuilderA.valid st -> BuilderA.valid (BuilderA.adjustConcurrency st).
Proof.
  unfold BuilderA.valid, BuilderA.adjustConcurrency, BuilderA.maxConcurrency.
  simpl. destruct (Z.eqb_spec (BuilderA.error429Count st) 0); lia.
Qed.

Lemma BuilderB_adjust_valid st :
  BuilderB.valid st -> BuilderB.valid (BuilderB.adjustConcurrency st).
Proof.
  unfold BuilderB.valid, BuilderB.adjustConcurrency, BuilderB.maxConcurrency.
  simpl. destruct (Z.eqb_spec (BuilderB.error429 st) 0); lia.
Qed.

(** C2.  In both versions of the builder, from every state of the
    controller (level at least 1): a step with no throttling error sets the
    level to [min (level + 1) maxConcurrency]; a step with [k >= 1] errors
    sets it to [level - min k (level - 1)], which is at least 1; and the
    error counter is 0 after the step. *)
Theorem adjustConcurrency_feedback :
  (forall st : BuilderA.state,
      1 <= BuilderA.concurrency st ->
      let st' := BuilderA.adjustConcurrency st in
      let c := BuilderA.concurrency st in
      let k := BuilderA.error429Count st in
      (k = 0 -> BuilderA.concurrency st' = Z.min (c + 1) BuilderA.maxConcurrency)
      /\ (1 <= k -> BuilderA.concurrency st' = c - Z.min k (c - 1)
                    /\ 1 <= BuilderA.concurrency st')
      /\ BuilderA.error429Count st' = 0)
  /\
  (forall st : BuilderB.state,
      1 <= BuilderB.concurrency st ->
      let st' := BuilderB.adjustConcurrency st in
      let c := BuilderB.concurrency st in
      let k := BuilderB.error429 st in
      (k = 0 -> BuilderB.concurrency st' = Z.min (c + 1) BuilderB.maxConcurrency)
      /\ (1 <= k -> BuilderB.concurrency st' = c - Z.min k (c - 1)
                    /\ 1 <= BuilderB.concurrency st')
      /\ BuilderB.error429 st' = 0).
Proof.
  split; intros st Hc; cbv zeta.
  - unfold BuilderA.adjustConcurrency; simpl.
    destruct (Z.eqb_spec (BuilderA.error429Count st) 0) as [E|E].
    + repeat split; try reflexivity; lia.
    + repeat split; try reflexivity; lia.
  - unfold BuilderB.adjustConcurrency; simpl.
    destruct (Z.eqb_spec (BuilderB.error429 st) 0) as [E|E].
    + repeat split; try reflexivity; lia.
    + repeat split; try reflexivity; lia.
Qed.

(** The feedback rule at concrete states: a quiet tick from level 3, a
    tick at the cap, and ticks with 2 and with 7 errors from level 4. *)
Lemma adjustConcurrency_feedback_witness :
  BuilderA.concurrency (BuilderA.adjustConcurrency (BuilderA.MkState 3 0)) = 4
  /\ BuilderA.concurrency (BuilderA.adjustConcurrency (BuilderA.MkState 10 0)) = 10
  /\ BuilderA.concurrency (BuilderA.adjustConcurrency (BuilderA.MkState 4 2)) = 2
  /\ BuilderB.concurrency (BuilderB.adjustConcurrency (BuilderB.MkState 4 7)) = 1
  /\ BuilderB.error429 (BuilderB.adjustConcurrency (BuilderB.MkState 4 7)) = 0.
Proof.
  destruct adjustConcurrency_feedback as [HA HB].
  assert (H1 : 1 <= 3) by lia.
  assert (H2 : 1 <= 10) by lia.
  assert (H3 : 1 <= 4) by lia.
  assert (H4 : 1 <= 2) by lia.
  assert (H5 : 1 <= 7) by lia.
  split; [| split; [| split; [| split]]].
  - exact (proj1 (HA (BuilderA.MkState 3 0) H1) eq_refl).
  - exact (proj1 (HA (BuilderA.MkState 10 0) H2) eq_refl).
  - exact (proj1 (proj1 (proj2 (HA (BuilderA.MkState 4 2) H3)) H4)).
  - exact (proj1 (proj1 (proj2 (HB (BuilderB.MkState 4 7) H3)) H5)).
  - exact (proj2 (proj2 (HB (BuilderB.MkState 4 7) H3))).
Defined.

(** C9.  For a level [c >= 1] and an error count [k >= 1] the decrease
    branch of the first version computes [max 1 (c - min k (c - 1))], the
    one of the second version computes [max 1 (c - k)], and the two give
    the same new level. *)
Theorem adjustConcurrency_decrease_agree (c k : Z) :
  1 <= c -> 1 <= k ->
  BuilderA.concurrency (BuilderA.adjustConcurrency (BuilderA.MkState c k))
  = Z.max 1 (c - Z.min k (c - 1))
  /\ BuilderB.concurrency (BuilderB.adjustConcurrency (BuilderB.MkState c k))
     = Z.max 1 (c - k)
  /\ BuilderA.concurrency (BuilderA.adjustConcurrency (BuilderA.MkState c k))
     = BuilderB.concurrency (BuilderB.adjustConcurrency (BuilderB.MkState c k)).
Proof.
  intros Hc Hk.
  unfold BuilderA.adjustConcurrency, BuilderB.adjustConcurrency; simpl.
  destruct (Z.eqb_spec k 0); [lia|].
  repeat split; lia.
Qed.

Lemma adjustConcurrency_decrease_agree_witness :
  BuilderA.concurrency (BuilderA.adjustConcurrency (BuilderA.MkState 3 5))
  = BuilderB.concurrency (BuilderB.adjustConcurrency (BuilderB.MkState 3 5)).
Proof.
  apply (adjustConcurrency_decrease_agree 3 5); lia.
Defined.

(* --------------------------------------------------------------------- *)
(** ** The retry engine                                                   *)
(* --------------------------------------------------------------------- *)

Section RetryFacts.
Context {W V : Type}.
Variable env : Retry.Env.
Variable fn : W -> outcome V * W.
Variable options : Retry.RetryOptions W.

Let retries := default 8 (Retry.retries options).











(** *** The operation under a spy *)




End RetryFacts.







(** The claim of C7 fails on the code: a 429 error whose [headers.get]
    throws, first attempt, default options but no jitter.  The base delay
    is [1000 * 2^0 = 1000] ms; the delay computed is 2000 ms. *)
Lemma calculateDelay_header_failure_doubles :
  Retry.calculateDelay (W := unit) (fun _ => None) 0%Q 0%Q 1
    (MkApiError "429 Rate limit exceeded" (Some 429)
       (HeadersGet (fun _ => GetThrows)))
    (Retry.MkRetryOptions None None None None None (Some false) None)
  = (Some 2000%Q, [Retry.HeaderWarning])
  /\ ~ (2000 == 1000 * Qpower 2 (1 - 1))%Q.
Proof.
  split; [vm_compute; reflexivity|].
  intros H. vm_compute in H. discriminate H.
Qed.

(** C7, as the code has it.  For a 429 error whose [headers.get] throws,
    [getDelayFromHeaders] logs one warning and returns the default it was
    given, which is twice the capped exponential delay; [calculateDelay]
    caps it at [maxTimeout] again and then applies the jitter:
    [min (2 * min (minTimeout * factor^(attempt-1)) maxTimeout) maxTimeout]. *)
Theorem calculateDelay_header_failure_fallback {W : Type}
    (getTime : string -> jsnum) (rnd now : Q) (attempt : Z) (err : ApiError)
    (options : Retry.RetryOptions W) (get : string -> get_result) :
  mentions_429 err = true ->
  headers err = HeadersGet get ->
  get "retry-after"%string = GetThrows ->
  let minTimeout := default 1000%Q (Retry.minTimeout options) in
  let maxTimeout := default 30000%Q (Retry.maxTimeout options) in
  let factor := default 2%Q (Retry.factor options) in
  let base := (minTimeout * Qpower factor (attempt - 1))%Q in
  let fallback := Qmin (Qmin base maxTimeout * 2) maxTimeout in
  Retry.getDelayFromHeaders getTime now err (Qmin base maxTimeout * 2)
  = (Some (Qmin base maxTimeout * 2)%Q, [Retry.HeaderWarning])
  /\ Retry.calculateDelay getTime rnd now attempt err options
     = (Retry.applyJitter options rnd (Some fallback), [Retry.HeaderWarning])
  /\ (Retry.jitter options = Some false ->
      Retry.calculateDelay getTime rnd now attempt err options
      = (Some fallback, [Retry.HeaderWarning])).
Proof.
  intros H429 Hheaders Hthrows. cbv zeta.
  assert (Hget : forall d, Retry.getDelayFromHeaders getTime now err d
                           = (Some d, [Retry.HeaderWarning])).
  { intros d. unfold Retry.getDelayFromHeaders.
    rewrite Hheaders, Hthrows. reflexivity. }
  split; [apply Hget|].
  assert (Hcalc :
            Retry.calculateDelay getTime rnd now attempt err options
            = (Retry.applyJitter options rnd
                 (Some (Qmin (Retry.cappedBackoff attempt options * 2)
                             (default 30000%Q (Retry.maxTimeout options)))),
               [Retry.HeaderWarning])).
  { unfold Retry.calculateDelay. rewrite H429, Hget. reflexivity. }
  split; [exact Hcalc|].
  intros Hjitter. rewrite Hcalc. unfold Retry.applyJitter.
  rewrite Hjitter. reflexivity.
Qed.

Lemma calculateDelay_header_failure_fallback_witness :
  Retry.calculateDelay (W := unit) (fun _ => None) 0.5%Q 0%Q 5
    (MkApiError "429 Rate limit exceeded" (Some 429)
       (HeadersGet (fun _ => GetThrows)))
    (Retry.MkRetryOptions None None None None None (Some false) None)
  = (Some (Qmin (Qmin (1000 * Qpower 2 (5 - 1)) 30000 * 2) 30000)%Q,
     [Retry.HeaderWarning]).
Proof.
  apply (calculateDelay_header_failure_fallback (W := unit)
           (fun _ => None) 0.5%Q 0%Q 5
           (MkApiError "429 Rate limit exceeded" (Some 429)
              (HeadersGet (fun _ => GetThrows)))
           (Retry.MkRetryOptions None None None None None (Some false) None)
           (fun _ => GetThrows)).
  - reflexivity.
  - reflexivity.
  - reflexivity.
  - reflexivity.
Defined.

(* --------------------------------------------------------------------- *)
(** ** Counting and array updates                                         *)
(* --------------------------------------------------------------------- *)

Lemma count_if_insert {A} (p : A -> bool) (l : list A) (r : nat) (x y : A) :
  l !! r = Some x ->
  (count_if p (<[r := y]> l) + (if p x then 1 else 0)
   = count_if p l + (if p y then 1 else 0))%nat.
Proof.
  revert r. induction l as [|a l IH]; intros [|r] H; simpl in *; try discriminate.
  - injection H as ->. lia.
  - specialize (IH r H). lia.
Qed.

Lemma count_if_app {A} (p : A -> bool) (l l' : list A) :
  count_if p (l ++ l') = (count_if p l + count_if p l')%nat.
Proof. induction l; simpl; lia. Qed.

Lemma count_if_none {A} (p : A -> bool) (l : list A) :
  (forall x, x ∈ l -> p x = false) -> count_if p l = 0%nat.
Proof.
  induction l as [|a l IH]; intros H; simpl; [reflexivity|].
  rewrite (H a) by apply list_elem_of_here.
  rewrite IH; [reflexivity|].
  intros x Hx. apply H. by apply list_elem_of_further.
Qed.

Lemma count_if_zero {A} (p : A -> bool) (l : list A) x :
  count_if p l = 0%nat -> x ∈ l -> p x = false.
Proof.
  induction l as [|a l IH]; intros H Hx; simpl in *.
  - by apply not_elem_of_nil in Hx.
  - apply elem_of_cons in Hx as [->|Hx].
    + destruct (p a); [lia | reflexivity].
    + apply IH; [|exact Hx]. destruct (p a); lia.
Qed.

Lemma count_if_positive {A} (p : A -> bool) (l : list A) :
  (0 < count_if p l)%nat -> exists x, x ∈ l /\ p x = true.
Proof.
  induction l as [|a l IH]; intros H; simpl in *; [lia|].
  destruct (p a) eqn:E.
  - exists a. split; [apply list_elem_of_here | exact E].
  - destruct IH as (x & Hx & Hp); [lia|].
    exists x. split; [by apply list_elem_of_further | exact Hp].
Qed.

Lemma array_set_lookup_eq {A} (a : list (option A)) k x :
  array_set a k x !! k = Some (Some x).
Proof.
  unfold array_set. case_decide as Hk.
  - by apply list_lookup_insert_eq.
  - rewrite lookup_app_r by lia.
    rewrite lookup_app_r by (rewrite length_replicate; lia).
    rewrite length_replicate.
    replace (k - length a - (k - length a))%nat with 0%nat by lia.
    reflexivity.
Qed.

Lemma array_set_lookup_kept {A} (a : list (option A)) k x j v :
  j <> k -> a !! j = Some v -> array_set a k x !! j = Some v.
Proof.
  intros Hne Hj. unfold array_set. case_decide as Hk.
  - by rewrite list_lookup_insert_ne.
  - by apply lookup_app_l_Some.
Qed.

Lemma array_set_length {A} (a : list (option A)) k x :
  length (array_set a k x) = Nat.max (length a) (S k).
Proof.
  unfold array_set. case_decide as Hk.
  - rewrite length_insert. lia.
  - rewrite !length_app, length_replicate. simpl. lia.
Qed.

Lemma count_if_member {A} (p : A -> bool) (l : list A) r x :
  l !! r = Some x -> p x = true -> (1 <= count_if p l)%nat.
Proof.
  revert r. induction l as [|a l IH]; intros [|r] H Hp; simpl in *; try discriminate.
  - injection H as ->. rewrite Hp. lia.
  - specialize (IH r H Hp). lia.
Qed.

Lemma elem_of_insert_inv {A} (l : list A) r x y :
  x ∈ <[r := y]> l -> x = y \/ x ∈ l.
Proof.
  intros H. apply list_elem_of_lookup in H as [j Hj].
  apply list_lookup_insert_Some in Hj as [(_ & -> & _)|(_ & Hj)].
  - by left.
  - right. by eapply list_elem_of_lookup_2.
Qed.

(* --------------------------------------------------------------------- *)
(** ** The worker pool                                                    *)
(* --------------------------------------------------------------------- *)

Section PoolFacts.
Context {W V : Type}.
Variable tasks : list (Pool.task W V).

Lemma total_weight_insert (rs : list Pool.runner) r x y :
  rs !! r = Some x ->
  (Pool.total_weight (<[r := y]> rs) + Pool.weight x
   = Pool.total_weight rs + Pool.weight y)%nat.
Proof.
  revert r. induction rs as [|a rs IH]; intros [|r] H; simpl in *; try discriminate.
  - injection H as ->. lia.
  - specialize (IH r H). lia.
Qed.

Lemma holders_insert k (rs : list Pool.runner) r x y :
  rs !! r = Some x ->
  (Pool.holders k (<[r := y]> rs) + (if Pool.holds k x then 1 else 0)
   = Pool.holders k rs + (if Pool.holds k y then 1 else 0))%nat.
Proof. apply count_if_insert. Qed.

Lemma died_insert (rs : list Pool.runner) r x y :
  rs !! r = Some x ->
  (Pool.died (<[r := y]> rs) + (if Pool.is_died x then 1 else 0)
   = Pool.died rs + (if Pool.is_died y then 1 else 0))%nat.
Proof. apply count_if_insert. Qed.

Lemma crashes_snoc (h : list (Pool.execution W V)) e :
  Pool.crashes (h ++ [e])
  = (Pool.crashes h
     + match Pool.settlement e with
       | RejectsUnreadable => 1
       | Settles _ => 0
       end)%nat.
Proof.
  unfold Pool.crashes. rewrite count_if_app. simpl.
  destruct (Pool.settlement e); lia.
Qed.

Lemma executions_snoc k (h : list (Pool.execution W V)) e :
  Pool.executions k (h ++ [e])
  = (Pool.executions k h + (if Nat.eqb (Pool.index e) k then 1 else 0))%nat.
Proof. unfold Pool.executions. rewrite count_if_app. simpl. lia. Qed.

Lemma getToken_start_bucket now rl :
  RateLimiter.refillRate (fst (RateLimiter.getToken_start now rl))
  = RateLimiter.refillRate rl
  /\ RateLimiter.maxTokens (fst (RateLimiter.getToken_start now rl))
     = RateLimiter.maxTokens rl.
Proof.
  unfold RateLimiter.getToken_start.
  destruct (Qle_bool _ _); split; reflexivity.
Qed.

Lemma start_invariant limit now w :
  Pool.invariant tasks limit (Pool.start limit now w).
Proof.
  split; simpl.
  - apply length_replicate.
  - lia.
  - lia.
  - intros k. unfold Pool.holders.
    rewrite count_if_none.
    + reflexivity.
    + intros x Hx. apply elem_of_replicate_inv in Hx as ->. reflexivity.
  - intros e He. by apply not_elem_of_nil in He.
  - intros e He. by apply not_elem_of_nil in He.
  - intros H. apply elem_of_replicate_inv in H. discriminate.
  - unfold Pool.died. rewrite count_if_none; [reflexivity|].
    intros x Hx. apply elem_of_replicate_inv in Hx as ->. reflexivity.
  - split; [|reflexivity].
    unfold Qdiv. apply Qmult_le_0_compat; [|discriminate].
    apply Qmult_le_0_compat; [|discriminate].
    change 0%Q with (inject_Z 0). rewrite <- Zle_Qle. lia.
  - intros Hlimit.
    unfold Qdiv. apply Qmult_lt_0_compat; [|reflexivity].
    apply Qmult_lt_0_compat; [|reflexivity].
    change 0%Q with (inject_Z 0). rewrite <- Zlt_Qlt. lia.
Qed.

(** A held index lies below the cursor and has not been run. *)
Lemma held_index limit st r x k :
  Pool.invariant tasks limit st ->
  Pool.runners st !! r = Some x ->
  Pool.holding x = Some k ->
  (k < Pool.i st)%nat /\ Pool.executions k (Pool.history st) = 0%nat.
Proof.
  intros Hinv Hr Hk.
  pose proof (Pool.inv_once _ _ _ Hinv k) as Honce.
  assert (1 <= Pool.holders k (Pool.runners st))%nat.
  { eapply count_if_member; [exact Hr|].
    unfold Pool.holds. rewrite Hk. apply Nat.eqb_refl. }
  case_decide; lia.
Qed.

Lemma resume_invariant limit st r now st' :
  Pool.invariant tasks limit st ->
  Pool.resume tasks r now st = Some st' ->
  Pool.invariant tasks limit st'.
Proof.
  intros Hinv Hstep. unfold Pool.resume in Hstep.
  destruct (Pool.runners st !! r) as [[|current wake|current| |]|] eqn:Hr;
    try discriminate.
  - (* at the loop test *)
    case_decide as Hlt.
    + destruct (RateLimiter.getToken_start now (Pool.rateLimiter st))
        as [rl wait] eqn:Htoken.
      injection Hstep as <-.
      set (next := match wait with
                   | Some waitTime =>
                       Pool.Sleeping (Pool.i st) (now + inject_Z waitTime)
                   | None => Pool.TokenGranted (Pool.i st)
                   end).
      assert (Hnext : Pool.holding next = Some (Pool.i st))
        by (subst next; destruct wait; reflexivity).
      destruct Hinv as [Hlen Hcur Hres Honce Hrec Hgen Hfin Hdied Hbucket Hpos].
      split; simpl.
      * by rewrite length_insert.
      * lia.
      * lia.
      * intros k. specialize (Honce k).
        pose proof (holders_insert k _ r _ next Hr) as Hh.
        change (Pool.holds k Pool.AtLoopTest) with false in Hh.
        unfold Pool.holds in Hh. rewrite Hnext in Hh.
        destruct (Nat.eqb_spec (Pool.i st) k); repeat case_decide; lia.
      * exact Hrec.
      * exact Hgen.
      * intros Hin. apply elem_of_insert_inv in Hin as [Heq|Hin].
        -- subst next. destruct wait; discriminate.
        -- specialize (Hfin Hin). lia.
      * pose proof (died_insert _ r _ next Hr) as Hd.
        assert (Pool.is_died next = false) as Hn
          by (subst next; destruct wait; reflexivity).
        rewrite Hn in Hd. simpl in Hd. lia.
      * pose proof (getToken_start_bucket now (Pool.rateLimiter st)) as [H1 H2].
        rewrite Htoken in H1, H2. simpl in H1, H2. rewrite H1, H2. exact Hbucket.
      * pose proof (getToken_start_bucket now (Pool.rateLimiter st)) as [H1 _].
        rewrite Htoken in H1. simpl in H1. rewrite H1. exact Hpos.
    + injection Hstep as <-.
      destruct Hinv as [Hlen Hcur Hres Honce Hrec Hgen Hfin Hdied Hbucket Hpos].
      split; simpl; try assumption.
      * by rewrite length_insert.
      * intros k. specialize (Honce k).
        pose proof (holders_insert k _ r _ Pool.Finished Hr) as Hh.
        simpl in Hh. lia.
      * intros _. lia.
      * pose proof (died_insert _ r _ Pool.Finished Hr) as Hd.
        simpl in Hd. lia.
  - (* woken up *)
    injection Hstep as <-.
    destruct Hinv as [Hlen Hcur Hres Honce Hrec Hgen Hfin Hdied Hbucket Hpos].
    split; simpl; try assumption.
    + by rewrite length_insert.
    + intros k. specialize (Honce k).
      pose proof (holders_insert k _ r _ (Pool.TokenGranted current) Hr) as Hh.
      unfold Pool.holds in Hh. simpl in Hh. lia.
    + intros Hin. apply elem_of_insert_inv in Hin as [Heq|Hin];
        [discriminate | auto].
    + pose proof (died_insert _ r _ (Pool.TokenGranted current) Hr) as Hd.
      simpl in Hd. lia.
  - (* the task runs *)
    destruct (held_index limit st r _ current Hinv Hr eq_refl) as [Hbelow Hfresh].
    destruct (Pool.call tasks current (Pool.world st)) as [c w] eqn:Hcall.
    injection Hstep as <-.
    set (next := match c with
                 | Settles _ => Pool.AtLoopTest
                 | RejectsUnreadable => Pool.Died
                 end).
    assert (Hnext : Pool.holding next = None /\ next <> Pool.Finished)
      by (subst next; destruct c; split; first [reflexivity | discriminate]).
    destruct Hnext as [Hhold Hnotfin].
    destruct Hinv as [Hlen Hcur Hres Honce Hrec Hgen Hfin Hdied Hbucket Hpos].
    split; simpl.
    + by rewrite length_insert.
    + exact Hcur.
    + rewrite array_set_length. lia.
    + intros k. specialize (Honce k).
      pose proof (holders_insert k _ r _ next Hr) as Hh.
      unfold Pool.holds in Hh. rewrite Hhold in Hh. simpl in Hh.
      rewrite executions_snoc. simpl. lia.
    + intros e He. apply elem_of_app in He as [He|He].
      * apply array_set_lookup_kept; [|by apply Hrec].
        pose proof (count_if_zero _ _ e Hfresh He) as Hne. simpl in Hne.
        by apply Nat.eqb_neq in Hne.
      * apply list_elem_of_singleton in He as ->. simpl.
        apply array_set_lookup_eq.
    + intros e He. apply elem_of_app in He as [He|He].
      * by apply Hgen.
      * apply list_elem_of_singleton in He as ->. simpl.
        by rewrite Hcall.
    + intros Hin. apply elem_of_insert_inv in Hin as [Heq|Hin];
        [congruence | auto].
    + pose proof (died_insert _ r _ next Hr) as Hd.
      rewrite crashes_snoc. simpl in *.
      subst next. destruct c; simpl in Hd; lia.
    + destruct c as [[value|error]|]; try exact Hbucket.
      destruct (mentions_429 error); [|exact Hbucket].
      destruct Hbucket as [Hrate Hmax]. split; [|exact Hmax].
      simpl. apply Qmult_le_0_compat; [exact Hrate | discriminate].
    + intros Hlimit. specialize (Hpos Hlimit).
      destruct c as [[value|error]|]; try exact Hpos.
      destruct (mentions_429 error); [|exact Hpos].
      simpl. apply Qmult_lt_0_compat; [exact Hpos | reflexivity].
Qed.

Lemma run_invariant limit sched : forall st st',
  Pool.invariant tasks limit st ->
  Pool.run tasks sched st = Some st' ->
  Pool.invariant tasks limit st'.
Proof.
  induction sched as [|[r now] sched IH]; intros st st' Hinv Hrun; simpl in Hrun.
  - by injection Hrun as <-.
  - destruct (Pool.resume tasks r now st) as [st1|] eqn:Hstep; [|discriminate].
    eapply IH; [|exact Hrun]. eapply resume_invariant; eassumption.
Qed.

(** *** Termination: every resumption uses up the measure *)

Lemma resume_measure st r now st' :
  Pool.resume tasks r now st = Some st' ->
  (Pool.measure tasks st' < Pool.measure tasks st)%nat.
Proof.
  intros Hstep. unfold Pool.resume in Hstep. unfold Pool.measure.
  destruct (Pool.runners st !! r) as [[|current wake|current| |]|] eqn:Hr;
    try discriminate.
  - case_decide as Hlt.
    + destruct (RateLimiter.getToken_start now (Pool.rateLimiter st))
        as [rl wait].
      injection Hstep as <-. simpl.
      pose proof (total_weight_insert _ r _
                    (match wait with
                     | Some waitTime =>
                         Pool.Sleeping (Pool.i st) (now + inject_Z waitTime)
                     | None => Pool.TokenGranted (Pool.i st)
                     end) Hr) as Hw.
      destruct wait; simpl in Hw; lia.
    + injection Hstep as <-. simpl.
      pose proof (total_weight_insert _ r _ Pool.Finished Hr) as Hw.
      simpl in Hw. lia.
  - injection Hstep as <-. simpl.
    pose proof (total_weight_insert _ r _ (Pool.TokenGranted current) Hr) as Hw.
    simpl in Hw. lia.
  - destruct (Pool.call tasks current (Pool.world st)) as [c w].
    injection Hstep as <-. simpl.
    pose proof (total_weight_insert _ r _
                  (match c with
                   | Settles _ => Pool.AtLoopTest
                   | RejectsUnreadable => Pool.Died
                   end) Hr) as Hw.
    destruct c; simpl in Hw; lia.
Qed.

Lemma run_measure sched : forall st st',
  Pool.run tasks sched st = Some st' ->
  (length sched + Pool.measure tasks st' <= Pool.measure tasks st)%nat.
Proof.
  induction sched as [|[r now] sched IH]; intros st st' Hrun; simpl in Hrun.
  - injection Hrun as <-. simpl. lia.
  - destruct (Pool.resume tasks r now st) as [st1|] eqn:Hstep; [|discriminate].
    apply resume_measure in Hstep. apply IH in Hrun. simpl. lia.
Qed.

Lemma start_measure limit now w :
  Pool.measure tasks (Pool.start limit now w) = (3 * length tasks + limit)%nat.
Proof.
  unfold Pool.measure. simpl. rewrite Nat.sub_0_r.
  assert (Pool.total_weight (replicate limit (@Pool.AtLoopTest)) = limit) as ->.
  { induction limit; simpl; [reflexivity|]. f_equal. assumption. }
  lia.
Qed.

(** *** Progress: a runner that has not stopped can be resumed *)

Lemma resume_enabled st r x now :
  Pool.runners st !! r = Some x ->
  Pool.stopped x = false ->
  is_Some (Pool.resume tasks r now st).
Proof.
  intros Hr Hx. unfold Pool.resume. rewrite Hr.
  destruct x as [|current wake|current| |]; try discriminate.
  - case_decide; [|by eexists].
    destruct (RateLimiter.getToken_start _ _). by eexists.
  - by eexists.
  - destruct (Pool.call _ _ _). by eexists.
Qed.

Lemma first_unfinished_none (rs : list Pool.runner) :
  Pool.first_unfinished rs = None -> forallb Pool.stopped rs = true.
Proof.
  induction rs as [|x rs IH]; simpl; [reflexivity|].
  destruct x; try discriminate.
  all: destruct (Pool.first_unfinished rs) as [[k y]|]; [discriminate|].
  all: intros _; by apply IH.
Qed.

Lemma first_unfinished_some (rs : list Pool.runner) r x :
  Pool.first_unfinished rs = Some (r, x) ->
  rs !! r = Some x /\ Pool.stopped x = false.
Proof.
  revert r. induction rs as [|y rs IH]; intros r H; simpl in H; [discriminate|].
  destruct y; try (injection H as <- <-; split; reflexivity).
  all: destruct (Pool.first_unfinished rs) as [[k z]|]; [|discriminate].
  all: injection H as <- <-; by apply IH.
Qed.

Lemma all_finished_elem (rs : list Pool.runner) x :
  forallb Pool.is_finished rs = true -> x ∈ rs -> x = Pool.Finished.
Proof.
  induction rs as [|y rs IH]; simpl; intros H Hx.
  - by apply not_elem_of_nil in Hx.
  - apply andb_true_iff in H as [Hy H].
    apply elem_of_cons in Hx as [->|Hx]; [|by apply IH].
    destruct y; try discriminate. reflexivity.
Qed.

Lemma all_finished_none_died (rs : list Pool.runner) :
  forallb Pool.is_finished rs = true -> Pool.died rs = 0%nat.
Proof.
  intros H. unfold Pool.died. apply count_if_none.
  intros x Hx. by rewrite (all_finished_elem rs x H Hx).
Qed.

(** Runners that have all stopped have all finished, unless one died. *)
Lemma all_stopped (rs : list Pool.runner) :
  forallb Pool.stopped rs = true ->
  Pool.died rs = 0%nat ->
  forallb Pool.is_finished rs = true.
Proof.
  unfold Pool.died.
  induction rs as [|x rs IH]; simpl; [reflexivity|].
  intros [Hx H]%andb_true_iff Hd.
  destruct x; try discriminate; simpl in *; try lia.
  apply IH; [exact H | lia].
Qed.

Lemma died_rejected (rs : list Pool.runner) :
  existsb Pool.is_died rs = true <-> (0 < Pool.died rs)%nat.
Proof.
  unfold Pool.died. induction rs as [|x rs IH]; simpl; [split; [discriminate|lia]|].
  destruct (Pool.is_died x); simpl; [split; [lia|reflexivity]|].
  rewrite IH. reflexivity.
Qed.

Lemma progress st :
  Pool.returned st = None ->
  Pool.rejected st = false ->
  exists r, forall now, is_Some (Pool.resume tasks r now st).
Proof.
  unfold Pool.returned, Pool.rejected. intros H Hrej.
  destruct (Pool.first_unfinished (Pool.runners st)) as [[r x]|] eqn:Hfirst.
  - apply first_unfinished_some in Hfirst as [Hr Hx].
    exists r. intros now. eapply resume_enabled; eassumption.
  - apply first_unfinished_none in Hfirst.
    rewrite (all_stopped _ Hfirst) in H; [discriminate|].
    destruct (Pool.died (Pool.runners st)) eqn:Hd; [reflexivity|].
    assert (existsb Pool.is_died (Pool.runners st) = true)
      by (apply died_rejected; lia).
    congruence.
Qed.

(** *** The scheduler [drive] follows a schedule and stops every runner *)

Lemma drive_run fuel : forall now st sched st',
  Pool.drive tasks fuel now st = (sched, st') ->
  Pool.run tasks sched st = Some st'.
Proof.
  induction fuel as [|fuel IH]; intros now st sched st' H; simpl in H.
  - by injection H as <- <-.
  - destruct (Pool.first_unfinished (Pool.runners st)) as [[r x]|];
      [|by injection H as <- <-].
    match type of H with
    | context [Pool.resume tasks r ?t st] =>
        destruct (Pool.resume tasks r t st) as [st1|] eqn:Hstep
    end; [|by injection H as <- <-].
    match type of H with
    | context [Pool.drive tasks fuel ?t st1] =>
        destruct (Pool.drive tasks fuel t st1) as [sched1 st2] eqn:Hrest
    end.
    injection H as <- <-. simpl. rewrite Hstep. eapply IH. exact Hrest.
Qed.

Lemma drive_finishes fuel : forall now st,
  (Pool.measure tasks st <= fuel)%nat ->
  forallb Pool.stopped (Pool.runners (snd (Pool.drive tasks fuel now st)))
  = true.
Proof.
  induction fuel as [|fuel IH]; intros now st Hfuel; simpl.
  - destruct (Pool.first_unfinished (Pool.runners st)) as [[r x]|] eqn:Hfirst;
      [|by apply first_unfinished_none].
    apply first_unfinished_some in Hfirst as [Hr Hx].
    pose proof (total_weight_insert _ r x Pool.Finished Hr) as Hw.
    unfold Pool.measure in Hfuel.
    destruct x; simpl in Hw; try discriminate; lia.
  - destruct (Pool.first_unfinished (Pool.runners st)) as [[r x]|] eqn:Hfirst;
      [|by apply first_unfinished_none].
    apply first_unfinished_some in Hfirst as [Hr Hx].
    match goal with
    | |- context [Pool.resume tasks r ?t st] =>
        destruct (resume_enabled st r x t Hr Hx) as [st1 Hstep];
        rewrite Hstep;
        destruct (Pool.drive tasks fuel t st1) as [sched1 st2] eqn:Hrest;
        pose proof (IH t st1) as Hfin
    end.
    apply resume_measure in Hstep. rewrite Hrest in Hfin. simpl in *.
    apply Hfin. lia.
Qed.

(** *** What the array holds once every runner has finished *)

(** Tasks that, wherever they are called, fulfil or reject with an
    [Error] object. *)
Lemma readable_history limit st :
  (forall t, t ∈ tasks -> forall w, exists o, fst (t w) = Settles o) ->
  Pool.invariant tasks limit st ->
  Pool.died (Pool.runners st) = 0%nat.
Proof.
  intros Hreadable Hinv. rewrite (Pool.inv_died _ _ _ Hinv).
  unfold Pool.crashes. apply count_if_none. intros e He.
  pose proof (Pool.inv_genuine _ _ _ Hinv e He) as Hgen.
  unfold Pool.call in Hgen.
  destruct (tasks !! Pool.index e) as [t|] eqn:Ht.
  - destruct (Hreadable t (list_elem_of_lookup_2 _ _ _ Ht)
                (Pool.world_before e)) as [o Ho].
    unfold Pool.task in *. rewrite Ho in Hgen. by rewrite <- Hgen.
  - simpl in Hgen. by rewrite <- Hgen.
Qed.

Lemma finished_results limit st res :
  (1 <= limit)%nat ->
  Pool.invariant tasks limit st ->
  Pool.returned st = Some res ->
  length res = length tasks
  /\ forall k, (k < length tasks)%nat ->
       Pool.executions k (Pool.history st) = 1%nat
       /\ exists e o, e ∈ Pool.history st
            /\ Pool.index e = k
            /\ fst (Pool.call tasks k (Pool.world_before e)) = Settles o
            /\ Pool.settlement e = Settles o
            /\ res !! k = Some (Some (settle o)).
Proof.
  intros Hlimit Hinv Hret. unfold Pool.returned in Hret.
  destruct (forallb Pool.is_finished (Pool.runners st)) eqn:Hall; [|discriminate].
  injection Hret as <-.
  destruct Hinv as [Hlen Hcur Hres Honce Hrec Hgen Hfin Hdied Hbucket Hpos].
  assert (Hi : Pool.i st = length tasks).
  { apply Hfin.
    destruct (Pool.runners st) as [|x rs] eqn:Hrs; [simpl in Hlen; lia|].
    assert (x = Pool.Finished) as ->.
    { eapply all_finished_elem; [exact Hall|]. apply list_elem_of_here. }
    apply list_elem_of_here. }
  assert (Hrun : forall k, (k < length tasks)%nat ->
            Pool.executions k (Pool.history st) = 1%nat).
  { intros k Hk. specialize (Honce k).
    unfold Pool.holders in Honce. rewrite count_if_none in Honce.
    - case_decide; lia.
    - intros x Hx. rewrite (all_finished_elem _ x Hall Hx). reflexivity. }
  assert (Hreadable : forall e, e ∈ Pool.history st ->
            exists o, Pool.settlement e = Settles o).
  { intros e He. rewrite (all_finished_none_died _ Hall) in Hdied.
    symmetry in Hdied.
    pose proof (count_if_zero _ _ e Hdied He) as Hc. simpl in Hc.
    destruct (Pool.settlement e) as [o|]; [by exists o | discriminate]. }
  assert (Hslot : forall k, (k < length tasks)%nat ->
            exists e o, e ∈ Pool.history st /\ Pool.index e = k
              /\ fst (Pool.call tasks k (Pool.world_before e)) = Settles o
              /\ Pool.settlement e = Settles o
              /\ map Pool.published (Pool.results st) !! k
                 = Some (Some (settle o))).
  { intros k Hk. specialize (Hrun k Hk).
    destruct (count_if_positive (fun e => Nat.eqb (Pool.index e) k)
                (Pool.history st)) as (e & He & Hidx).
    - unfold Pool.executions in Hrun. lia.
    - apply Nat.eqb_eq in Hidx.
      destruct (Hreadable e He) as [o Ho]. exists e, o.
      repeat split; [exact He | exact Hidx | | exact Ho |].
      + rewrite <- Hidx, <- Ho. by apply Hgen.
      + rewrite list_lookup_fmap, <- Hidx, (Hrec e He), Ho. reflexivity. }
  split.
  - destruct (length tasks) as [|n] eqn:Hn; [rewrite length_map; lia|].
    destruct (Hslot n) as (e & o & _ & _ & _ & _ & Hlook); [lia|].
    apply lookup_lt_Some in Hlook. rewrite length_map in *. lia.
  - intros k Hk. split; [by apply Hrun | by apply Hslot].
Qed.

Lemma call_lookup k t w :
  tasks !! k = Some t -> Pool.call tasks k w = t w.
Proof. unfold Pool.call, Pool.task in *. by intros ->. Qed.

Lemma drive_timely fuel : forall now st,
  Pool.timely tasks now (fst (Pool.drive tasks fuel now st)) st = true.
Proof.
  induction fuel as [|fuel IH]; intros now st; simpl; [reflexivity|].
  destruct (Pool.first_unfinished (Pool.runners st)) as [[r x]|] eqn:Hfirst;
    [|reflexivity].
  apply first_unfinished_some in Hfirst as [Hr Hx].
  match goal with
  | |- context [Pool.resume tasks r ?t st] =>
      set (now' := t);
      destruct (resume_enabled st r x now' Hr Hx) as [st1 Hstep];
      rewrite Hstep;
      specialize (IH now' st1);
      destruct (Pool.drive tasks fuel now' st1) as [sched1 st2]
  end.
  simpl in *. rewrite Hr, Hstep, IH.
  assert (Hlater : Qle_bool now now' = true).
  { apply Qle_bool_iff. subst now'.
    destruct x; try apply Qle_refl. apply Q.le_max_l. }
  rewrite Hlater.
  destruct x; try reflexivity.
  assert (Hwake : Qle_bool wake_at now' = true)
    by (apply Qle_bool_iff; subst now'; apply Q.le_max_r).
  rewrite Hwake. reflexivity.
Qed.

(** Some schedule that respects the clock stops every runner. *)
Lemma run_stops limit now w :
  exists sched st,
    Pool.run tasks sched (Pool.start limit now w) = Some st
    /\ forallb Pool.stopped (Pool.runners st) = true
    /\ Pool.timely tasks now sched (Pool.start limit now w) = true.
Proof.
  destruct (Pool.drive tasks (3 * length tasks + limit) now
              (Pool.start limit now w)) as [sched st] eqn:Hdrive.
  exists sched, st. split; [by eapply drive_run|].
  split;
    [|pose proof (drive_timely (3 * length tasks + limit) now
                    (Pool.start limit now w)) as Ht;
      rewrite Hdrive in Ht; exact Ht].
  pose proof (drive_finishes (3 * length tasks + limit) now
                (Pool.start limit now w)) as Hfin.
  rewrite Hdrive in Hfin. simpl in Hfin.
  apply Hfin. rewrite start_measure. lia.
Qed.

(** When every task fulfils or rejects with an [Error] object, that
    schedule runs every runner to its end and the array is returned. *)
Lemma run_exists limit now w :
  (forall t, t ∈ tasks -> forall w, exists o, fst (t w) = Settles o) ->
  exists sched st,
    Pool.run tasks sched (Pool.start limit now w) = Some st
    /\ Pool.returned st = Some (map Pool.published (Pool.results st))
    /\ Pool.timely tasks now sched (Pool.start limit now w) = true.
Proof.
  intros Hreadable.
  destruct (run_stops limit now w) as (sched & st & Hrun & Hstop & Htimely).
  exists sched, st. split; [exact Hrun|]. split; [|exact Htimely].
  pose proof (run_invariant limit sched _ _ (start_invariant limit now w) Hrun)
    as Hinv.
  unfold Pool.returned.
  by rewrite (all_stopped _ Hstop (readable_history limit st Hreadable Hinv)).
Qed.

(** When no task depends on the world it is called in, the array
    returned is the list of the settlements, in the order of the tasks. *)
Lemma finished_results_fixed limit st res (outcomes : list (outcome V)) :
  (1 <= limit)%nat ->
  Pool.invariant tasks limit st ->
  Pool.returned st = Some res ->
  Forall2 (fun t o => forall w, fst (t w) = Settles o) tasks outcomes ->
  res = map (fun o => Some (settle o)) outcomes.
Proof.
  intros Hlimit Hinv Hret Hfixed.
  destruct (finished_results limit st res Hlimit Hinv Hret) as [Hlen Hslots].
  pose proof (Forall2_length _ _ _ Hfixed) as Hlen2.
  unfold Pool.task in *.
  apply list_eq. intros k.
  destruct (decide (k < length tasks)%nat) as [Hk|Hk].
  - destruct (Hslots k Hk) as (_ & e & o' & _ & _ & Hgen & _ & ->).
    destruct (lookup_lt_is_Some_2 tasks k Hk) as [t Ht].
    destruct (Forall2_lookup_l _ _ _ _ _ Hfixed Ht) as (o & Ho & Hto).
    rewrite list_lookup_fmap, Ho. simpl.
    rewrite (call_lookup k t _ Ht), Hto in Hgen.
    by injection Hgen as ->.
  - rewrite (lookup_ge_None_2 res k) by lia.
    symmetry. apply lookup_ge_None_2. rewrite length_map. lia.
Qed.

(** *** A reason the [catch] block cannot read *)

Lemma crash_rejects limit st e :
  Pool.invariant tasks limit st ->
  e ∈ Pool.history st ->
  Pool.settlement e = RejectsUnreadable ->
  Pool.rejected st = true /\ Pool.returned st = None.
Proof.
  intros Hinv He Hc.
  assert (Hd : (0 < Pool.died (Pool.runners st))%nat).
  { rewrite (Pool.inv_died _ _ _ Hinv). unfold Pool.crashes.
    destruct (count_if _ (Pool.history st)) eqn:Hn; [|lia].
    pose proof (count_if_zero _ _ e Hn He) as Hz. simpl in Hz.
    rewrite Hc in Hz. discriminate. }
  split; [by apply died_rejected|].
  unfold Pool.returned.
  destruct (forallb Pool.is_finished (Pool.runners st)) eqn:Hall; [|reflexivity].
  rewrite (all_finished_none_died _ Hall) in Hd. lia.
Qed.

(** A task that rejects with such a reason wherever it is called: no
    run hands back the array. *)
Lemma unreadable_never_returns limit now0 w0 k t sched st :
  (1 <= limit)%nat ->
  tasks !! k = Some t ->
  (forall w, fst (t w) = RejectsUnreadable) ->
  Pool.run tasks sched (Pool.start limit now0 w0) = Some st ->
  Pool.returned st = None.
Proof.
  intros Hlimit Ht Hbad Hrun.
  pose proof (run_invariant limit sched _ _ (start_invariant limit now0 w0) Hrun)
    as Hinv.
  destruct (Pool.returned st) as [res|] eqn:Hret; [|reflexivity].
  destruct (finished_results limit st res Hlimit Hinv Hret) as [_ Hslots].
  destruct (Hslots k) as (_ & e & o & _ & _ & Hcall & _).
  { by eapply lookup_lt_Some. }
  rewrite (call_lookup k t _ Ht), Hbad in Hcall. discriminate.
Qed.

(** With one runner, the tasks after it are never called. *)
Lemma single_runner_stops_at k t sched : forall st st',
  tasks !! k = Some t ->
  (forall w, fst (t w) = RejectsUnreadable) ->
  Pool.invariant tasks 1 st ->
  ((Pool.i st <= S k)%nat
   /\ (Pool.i st = S k ->
       exists x, Pool.runners st = [x]
                 /\ (Pool.holding x = Some k \/ x = Pool.Died))) ->
  Pool.run tasks sched st = Some st' ->
  (Pool.i st' <= S k)%nat.
Proof.
  intros st st' Ht Hbad. revert st.
  induction sched as [|[r now] sched IH]; intros st Hinv [Hle Hlast] Hrun;
    simpl in Hrun.
  { by injection Hrun as <-. }
  destruct (Pool.resume tasks r now st) as [st1|] eqn:Hstep; [|discriminate].
  apply (IH st1); [by eapply resume_invariant | | exact Hrun].
  pose proof (Pool.inv_runners _ _ _ Hinv) as Hone.
  destruct (Pool.runners st) as [|x [|y rs]] eqn:Hrs; try discriminate Hone.
  unfold Pool.resume in Hstep. rewrite Hrs in Hstep.
  destruct r as [|r]; [|discriminate]. cbn [lookup list_lookup] in Hstep.
  assert (Hx : Pool.i st = S k -> Pool.holding x = Some k \/ x = Pool.Died).
  { intros Hi. destruct (Hlast Hi) as (x' & [= <-] & Hx'). exact Hx'. }
  destruct x as [|current wake|current| |]; try discriminate.
  - case_decide as Hlt.
    + destruct (RateLimiter.getToken_start now (Pool.rateLimiter st))
        as [rl wait].
      injection Hstep as <-. cbn.
      assert (Hi : (Pool.i st <= k)%nat).
      { destruct (decide (Pool.i st = S k)) as [Hi|Hi]; [|lia].
        destruct (Hx Hi) as [?|?]; discriminate. }
      split; [lia|]. intros Hnew. eexists. split; [reflexivity|]. left.
      replace k with (Pool.i st) by lia. by destruct wait.
    + injection Hstep as <-. cbn. split; [exact Hle|].
      intros Hi. destruct (Hx Hi) as [?|?]; discriminate.
  - injection Hstep as <-. cbn. split; [exact Hle|].
    intros Hi. eexists. split; [reflexivity|]. left.
    destruct (Hx Hi) as [Hh|?]; [exact Hh | discriminate].
  - destruct (Pool.call tasks current (Pool.world st)) as [c w] eqn:Hcall.
    injection Hstep as <-. cbn. split; [exact Hle|].
    intros Hi. eexists. split; [reflexivity|]. right.
    destruct (Hx Hi) as [[= ->]|?]; [|discriminate].
    rewrite (call_lookup k t _ Ht) in Hcall.
    pose proof (Hbad (Pool.world st)) as Hb. rewrite Hcall in Hb.
    cbn in Hb. by subst c.
Qed.

End PoolFacts.

(** C1 on the code.  A task may reject with any value, and the
    [catch] block of a runner reads [error.message] of whatever it caught.
    When some task rejects with a value that cannot be read that way
    ([undefined], say), then with a limit of at least 1 no schedule makes
    [runtWithConcurrencyLimit] return an array; every run that stops all
    the runners ends with the promise rejected; and there is such a run
    that respects the clock, after which nothing can be resumed. *)
Theorem runtWithConcurrencyLimit_unreadable_reason {W V : Type}
    (tasks : list (Pool.task W V)) (limit : nat) (now0 : Q) (w0 : W)
    (k : nat) (t : Pool.task W V) :
  (1 <= limit)%nat ->
  tasks !! k = Some t ->
  (forall w, fst (t w) = RejectsUnreadable) ->
  (forall sched,
      Pool.runtWithConcurrencyLimit tasks limit now0 sched w0 = None)
  /\ (forall sched st,
        Pool.run tasks sched (Pool.start limit now0 w0) = Some st ->
        forallb Pool.stopped (Pool.runners st) = true ->
        Pool.rejected st = true)
  /\ (exists sched st,
        Pool.run tasks sched (Pool.start limit now0 w0) = Some st
        /\ Pool.timely tasks now0 sched (Pool.start limit now0 w0) = true
        /\ Pool.rejected st = true
        /\ forall r now, Pool.resume tasks r now st = None).
Proof.
  intros Hlimit Ht Hbad.
  assert (Hstopped : forall sched st,
             Pool.run tasks sched (Pool.start limit now0 w0) = Some st ->
             forallb Pool.stopped (Pool.runners st) = true ->
             Pool.rejected st = true).
  { intros sched st Hrun Hstop.
    pose proof (unreadable_never_returns tasks limit now0 w0 k t sched st
                  Hlimit Ht Hbad Hrun) as Hnone.
    unfold Pool.rejected. apply died_rejected.
    destruct (Pool.died (Pool.runners st)) eqn:Hd; [|lia].
    unfold Pool.returned in Hnone.
    rewrite (all_stopped _ Hstop Hd) in Hnone. discriminate. }
  split; [|split; [exact Hstopped|]].
  - intros sched. unfold Pool.runtWithConcurrencyLimit.
    destruct (Pool.run tasks sched _) as [st|] eqn:Hrun; [|reflexivity].
    by rewrite (unreadable_never_returns tasks limit now0 w0 k t sched st).
  - destruct (run_stops tasks limit now0 w0)
      as (sched & st & Hrun & Hstop & Htimely).
    exists sched, st. repeat split; try assumption.
    + by eapply Hstopped.
    + intros r now. unfold Pool.resume.
      destruct (Pool.runners st !! r) as [x|] eqn:Hr; [|reflexivity].
      assert (Hx : Pool.stopped x = true).
      { rewrite forallb_forall in Hstop. apply Hstop.
        apply list_elem_of_In. by eapply list_elem_of_lookup_2. }
      destruct x; try discriminate; reflexivity.
Qed.

(** One task that rejects with [undefined], one runner. *)
Lemma runtWithConcurrencyLimit_unreadable_reason_witness :
  (forall sched,
      Pool.runtWithConcurrencyLimit (V := Z)
        [fun w : unit => (RejectsUnreadable, w)] 1 0%Q sched tt
      = None)
  /\ exists st,
       Pool.run (V := Z) [fun w : unit => (RejectsUnreadable, w)]
         [(0, 0%Q); (0, 0%Q)]%nat (Pool.start 1 0%Q tt)
       = Some st
       /\ Pool.rejected st = true
       /\ Pool.returned st = None.
Proof.
  split.
  - apply (runtWithConcurrencyLimit_unreadable_reason (V := Z)
             [fun w : unit => (RejectsUnreadable, w)] 1 0%Q tt 0
             (fun w : unit => (RejectsUnreadable, w)));
      [lia | reflexivity | reflexivity].
  - eexists. split; [vm_compute; reflexivity|].
    split; vm_compute; reflexivity.
Defined.

(** C8 on the code.  The example of the claim, [ok, throws, ok] at
    concurrency 2, when the second task throws a value that the [catch]
    block cannot read: under no schedule is an array returned, and the
    run in which the first runner works alone until it dies ends with all
    three tasks called, their results stored, and the promise rejected.
    With one runner the failure also keeps every later task from being
    called. *)
Theorem pool_failure_not_isolated {W V : Type} :
  (forall (v1 v2 : V) (w0 : W),
      (forall now0 sched,
          Pool.runtWithConcurrencyLimit
            [fun w => (Settles (Resolved v1), w);
             fun w => (RejectsUnreadable, w);
             fun w => (Settles (Resolved v2), w)] 2 now0 sched w0
          = None)
      /\ exists st,
           Pool.run
             [fun w => (Settles (Resolved v1), w);
              fun w => (RejectsUnreadable, w);
              fun w => (Settles (Resolved v2), w)]
             [(0, 0%Q); (0, 0%Q); (0, 0%Q); (0, 0%Q);
              (1, 0%Q); (1, 0%Q); (1, 0%Q)]%nat
             (Pool.start 2 0%Q w0)
           = Some st
           /\ Pool.runners st = [Pool.Died; Pool.Finished]
           /\ Pool.results st
              = [Some (Pool.Recorded (Fulfilled v1));
                 Some Pool.RecordedUnreadable;
                 Some (Pool.Recorded (Fulfilled v2))]
           /\ Pool.rejected st = true
           /\ Pool.returned st = None)
  /\ (forall (tasks : list (Pool.task W V)) (k : nat) (t : Pool.task W V)
             (now0 : Q) (w0 : W) sched st,
        tasks !! k = Some t ->
        (forall w, fst (t w) = RejectsUnreadable) ->
        Pool.run tasks sched (Pool.start 1 now0 w0) = Some st ->
        forall e, e ∈ Pool.history st -> (Pool.index e <= k)%nat).
Proof.
  split.
  - intros v1 v2 w0. split.
    + intros now0 sched. unfold Pool.runtWithConcurrencyLimit.
      destruct (Pool.run _ sched _) as [st|] eqn:Hrun; [|reflexivity].
      pose proof (fun Ht Hbad =>
                    unreadable_never_returns _ 2 now0 w0 1
                      (fun w => (RejectsUnreadable, w)) sched st
                      ltac:(lia) Ht Hbad Hrun) as Hnone.
      by rewrite Hnone.
    + eexists. split; [vm_compute; reflexivity|].
      repeat split.
  - intros tasks k t now0 w0 sched st Ht Hbad Hrun e He.
    pose proof (run_invariant tasks 1 sched _ _
                  (start_invariant tasks 1 now0 w0) Hrun) as Hinv.
    assert (Hi : (Pool.i st <= S k)%nat).
    { apply (single_runner_stops_at tasks k t sched (Pool.start 1 now0 w0) st
               Ht Hbad (start_invariant tasks 1 now0 w0)); [|exact Hrun].
      cbn. split; [lia | intros; lia]. }
    pose proof (Pool.inv_once _ _ _ Hinv (Pool.index e)) as Honce.
    assert (1 <= Pool.executions (Pool.index e) (Pool.history st))%nat.
    { apply list_elem_of_lookup in He as [j Hj].
      eapply count_if_member; [exact Hj|]. cbn. apply Nat.eqb_refl. }
    case_decide; lia.
Qed.

(** [ok, throws undefined, ok] with one runner, resumed until it dies:
    the third task is never called and its slot stays empty. *)
Lemma pool_failure_not_isolated_witness :
  exists st,
    Pool.run (V := Z)
      [fun w : unit => (Settles (Resolved 1), w);
       fun w => (RejectsUnreadable, w);
       fun w => (Settles (Resolved 2), w)]
      [(0, 0%Q); (0, 0%Q); (0, 0%Q); (0, 0%Q)]%nat (Pool.start 1 0%Q tt)
    = Some st
    /\ Pool.runners st = [Pool.Died]
    /\ Pool.results st
       = [Some (Pool.Recorded (Fulfilled 1)); Some Pool.RecordedUnreadable]
    /\ Pool.rejected st = true
    /\ forall e, e ∈ Pool.history st -> (Pool.index e <= 1)%nat.
Proof.
  eexists. split; [vm_compute; reflexivity|]. repeat split.
  apply (proj2 (@pool_failure_not_isolated unit Z)
           [fun w : unit => (Settles (Resolved 1), w);
            fun w => (RejectsUnreadable, w);
            fun w => (Settles (Resolved 2), w)]
           1%nat (fun w => (RejectsUnreadable, w)) 0%Q tt
           [(0, 0%Q); (0, 0%Q); (0, 0%Q); (0, 0%Q)]%nat);
    [reflexivity | reflexivity | vm_compute; reflexivity].
Defined.

(** C10.  With a limit of 0 there is no runner: nothing can be resumed,
    the only schedule is the empty one, no task is called, and the array
    returned is empty, also when there are tasks. *)
Theorem runtWithConcurrencyLimit_zero {W V : Type}
    (tasks : list (Pool.task W V)) (now0 : Q) (w0 : W) :
  Pool.runners (Pool.start (V := V) 0 now0 w0) = []
  /\ (forall r now, Pool.resume tasks r now (Pool.start 0 now0 w0) = None)
  /\ Pool.runtWithConcurrencyLimit tasks 0 now0 [] w0 = Some ([], w0)
  /\ (forall sched res w',
        Pool.runtWithConcurrencyLimit tasks 0 now0 sched w0 = Some (res, w') ->
        sched = [] /\ res = [] /\ w' = w0)
  /\ (forall sched st,
        Pool.run tasks sched (Pool.start 0 now0 w0) = Some st ->
        Pool.history st = [])
  /\ (tasks <> [] ->
      forall sched res w',
        Pool.runtWithConcurrencyLimit tasks 0 now0 sched w0 = Some (res, w') ->
        length res <> length tasks).
Proof.
  assert (Hstuck : forall r now,
             Pool.resume tasks r now (Pool.start 0 now0 w0) = None).
  { intros r now. unfold Pool.resume. simpl. reflexivity. }
  assert (Hsched : forall sched st,
             Pool.run tasks sched (Pool.start 0 now0 w0) = Some st ->
             sched = [] /\ st = Pool.start 0 now0 w0).
  { intros [|[r now] sched] st H.
    - injection H as <-. split; reflexivity.
    - cbn [Pool.run] in H. rewrite Hstuck in H. discriminate. }
  assert (Hret : forall sched res w',
             Pool.runtWithConcurrencyLimit tasks 0 now0 sched w0 = Some (res, w') ->
             sched = [] /\ res = [] /\ w' = w0).
  { intros sched res w' H. unfold Pool.runtWithConcurrencyLimit in H.
    destruct (Pool.run tasks sched _) as [st|] eqn:Hrun; [|discriminate].
    apply Hsched in Hrun as [-> ->]. simpl in H.
    injection H as <- <-. repeat split. }
  split; [reflexivity|]. split; [exact Hstuck|]. split; [reflexivity|].
  split; [exact Hret|]. split.
  - intros sched st H. apply Hsched in H as [_ ->]. reflexivity.
  - intros Hne sched res w' H. apply Hret in H as (_ & -> & _).
    destruct tasks; [congruence | simpl; lia].
Qed.

Lemma runtWithConcurrencyLimit_zero_witness :
  Pool.runtWithConcurrencyLimit (W := unit) (V := Z)
    [fun w => (Settles (Resolved 1), w); fun w => (Settles (Resolved 2), w)] 0 0%Q [] tt
  = Some ([], tt)
  /\ length (@nil (option (settled Z))) <> 2%nat.
Proof.
  destruct (@runtWithConcurrencyLimit_zero unit Z
              [fun w => (Settles (Resolved 1), w); fun w => (Settles (Resolved 2), w)] 0%Q tt)
    as (_ & _ & Hrun & _ & _ & Hshort).
  split; [exact Hrun|].
  apply (Hshort ltac:(discriminate) [] [] tt Hrun).
Defined.

(** The claim of C4 fails on the code.  Two runners, seven tasks that
    resolve at once, clock at 0: the bucket of 4 tokens is emptied, both
    runners find it empty and sleep 1000 ms, both wake at 1000 and take a
    token each (count -2), one of them runs its task and comes back for
    the next one; the [refill()] of that [getToken()], at 1000, credits one
    token and leaves the count at -1. *)
Lemma refill_leaves_negative_count :
  exists st,
    Pool.run (replicate 7 (fun w : unit => (Settles (Resolved tt), w)))
      [(0%nat, 0%Q); (1%nat, 0%Q); (0%nat, 0%Q); (1%nat, 0%Q);
       (0%nat, 0%Q); (1%nat, 0%Q); (0%nat, 0%Q); (1%nat, 0%Q);
       (0%nat, 0%Q); (1%nat, 0%Q);
       (0%nat, 1000%Q); (1%nat, 1000%Q); (0%nat, 1000%Q)]
      (Pool.start 2 0%Q tt)
    = Some st
    /\ Pool.timely (replicate 7 (fun w : unit => (Settles (Resolved tt), w))) 0%Q
         [(0%nat, 0%Q); (1%nat, 0%Q); (0%nat, 0%Q); (1%nat, 0%Q);
          (0%nat, 0%Q); (1%nat, 0%Q); (0%nat, 0%Q); (1%nat, 0%Q);
          (0%nat, 0%Q); (1%nat, 0%Q);
          (0%nat, 1000%Q); (1%nat, 1000%Q); (0%nat, 1000%Q)]
         (Pool.start 2 0%Q tt)
       = true
    /\ (RateLimiter.tokens (Pool.rateLimiter st) == -2)%Q
    /\ option_map Pool.rateLimiter
         (Pool.resume (replicate 7 (fun w : unit => (Settles (Resolved tt), w)))
            0 1000%Q st)
       = Some (RateLimiter.refill 1000 (Pool.rateLimiter st))
    /\ (RateLimiter.tokens (RateLimiter.refill 1000 (Pool.rateLimiter st)) == -1)%Q
    /\ ~ (0 <= RateLimiter.tokens (RateLimiter.refill 1000 (Pool.rateLimiter st)))%Q.
Proof.
  eexists. split; [vm_compute; reflexivity|].
  split; [vm_compute; reflexivity|].
  split; [vm_compute; reflexivity|].
  split; [vm_compute; reflexivity|].
  split; [vm_compute; reflexivity|].
  intros H. vm_compute in H. apply H. reflexivity.
Qed.

(** C4, as the code has it.  In every state a schedule leads to, whatever
    the clock reads, the count after [refill()] is at most the capacity,
    which is [2 * limit]; and it is at least 0 when the count before the
    refill was at least 0 and the clock has not gone back since the last
    refill. *)
Theorem refill_count_bounds {W V : Type} (tasks : list (Pool.task W V))
    (limit : nat) (now0 : Q) (w0 : W) (sched : Pool.schedule) (st : Pool.state W V)
    (now : Q) :
  Pool.run tasks sched (Pool.start limit now0 w0) = Some st ->
  let rl := Pool.rateLimiter st in
  (RateLimiter.tokens (RateLimiter.refill now rl) <= RateLimiter.maxTokens rl)%Q
  /\ RateLimiter.maxTokens rl = (inject_Z (Z.of_nat limit) * 2)%Q
  /\ ((RateLimiter.lastRefill rl <= now)%Q ->
      (0 <= RateLimiter.tokens rl)%Q ->
      (0 <= RateLimiter.tokens (RateLimiter.refill now rl))%Q).
Proof.
  intros Hrun rl.
  pose proof (run_invariant tasks limit sched _ _
                (start_invariant tasks limit now0 w0) Hrun) as Hinv.
  destruct (Pool.inv_bucket _ _ _ Hinv) as [Hrate Hmax]. fold rl in Hrate, Hmax.
  split; [|split].
  - unfold RateLimiter.refill. simpl. apply Q.le_min_l.
  - exact Hmax.
  - intros Hclock Htokens. unfold RateLimiter.refill. simpl.
    apply Q.min_glb.
    + rewrite Hmax. apply Qmult_le_0_compat; [|discriminate].
      change 0%Q with (inject_Z 0). rewrite <- Zle_Qle. lia.
    + rewrite <- (Qplus_0_r 0). apply Qplus_le_compat; [exact Htokens|].
      apply Qmult_le_0_compat; [|exact Hrate].
      rewrite <- (Qplus_opp_r (RateLimiter.lastRefill rl)).
      apply Qplus_le_compat; [exact Hclock | apply Qle_refl].
Qed.

(** The bounds in the state reached after three resumptions at times 0, 0
    and 40. *)
Lemma refill_count_bounds_witness :
  exists st,
    Pool.run (replicate 7 (fun w : unit => (Settles (Resolved tt), w)))
      [(0%nat, 0%Q); (1%nat, 0%Q); (0%nat, 40%Q)] (Pool.start 2 0%Q tt) = Some st
    /\ (RateLimiter.tokens (RateLimiter.refill 100 (Pool.rateLimiter st)) <= 4)%Q
    /\ (0 <= RateLimiter.tokens (RateLimiter.refill 100 (Pool.rateLimiter st)))%Q.
Proof.
  destruct (Pool.run (replicate 7 (fun w : unit => (Settles (Resolved tt), w)))
              [(0%nat, 0%Q); (1%nat, 0%Q); (0%nat, 40%Q)] (Pool.start 2 0%Q tt))
    as [st|] eqn:Hrun; [|vm_compute in Hrun; discriminate Hrun].
  exists st. split; [reflexivity|].
  destruct (refill_count_bounds _ 2 0%Q tt _ st 100%Q Hrun)
    as (Hupper & Hcap & Hlower).
  assert (Hst : Some st = Some st) by reflexivity.
  rewrite <- Hrun in Hst at 1. vm_compute in Hst. injection Hst as Hst.
  split.
  - rewrite Hcap in Hupper. exact Hupper.
  - apply Hlower; rewrite <- Hst; vm_compute; discriminate.
Defined.

(* --------------------------------------------------------------------- *)
(** ** The batch scheduler                                                *)
(* --------------------------------------------------------------------- *)

Section BatchFacts.
Context {T V : Type}.


(** The loop of the second version stops by itself: more fuel than the
    number of tasks left changes nothing. *)
Lemma processBatches_from_fuel
    (pool : list T -> Z -> BuilderB.state
            -> list (option (settled V)) * BuilderB.state)
    (ticks : nat -> nat) (tasks : list T) fuel :
  forall i st,
    (length tasks <= i + fuel)%nat ->
    BuilderB.processBatches_from pool ticks fuel i tasks st
    = BuilderB.processBatches_from pool ticks (S fuel) i tasks st.
Proof.
  induction fuel as [|fuel IH]; intros i st Hfuel.
  - cbn [BuilderB.processBatches_from].
    case_decide; [lia | reflexivity].
  - remember (S fuel) as fuel1 eqn:Hfuel1.
    cbn [BuilderB.processBatches_from].
    rewrite Hfuel1 at 1. cbn [BuilderB.processBatches_from].
    case_decide; [|reflexivity].
    destruct (pool _ _ st) as [r st1].
    rewrite IH; [subst fuel1; reflexivity|].
    unfold BuilderB.batchSize. lia.
Qed.

(** The first version runs every batch with the limit it was called
    with. *)
Lemma processA_limit
    (pool : list T -> Z -> BuilderA.state
            -> list (option (settled V)) * BuilderA.state)
    (ticks : nat -> nat) (concurrency : Z) batches :
  forall index st,
    Forall (fun l => limit_used l = concurrency)
      (snd (BuilderA.process pool ticks batches index concurrency st)).
Proof.
  induction batches as [|batch rest IH]; intros index st; simpl.
  - constructor.
  - destruct (pool batch concurrency st) as [batchResults st1].
    match goal with
    | |- context [BuilderA.process pool ticks rest (S index) concurrency ?s] =>
        specialize (IH (S index) s);
        destruct (BuilderA.process pool ticks rest (S index) concurrency s)
          as [[results st2] launches]
    end.
    simpl in *. constructor; [reflexivity | exact IH].
Qed.

(** The second version runs every batch with the level the field has
    when the batch starts. *)
Lemma processBatchesB_fresh
    (pool : list T -> Z -> BuilderB.state
            -> list (option (settled V)) * BuilderB.state)
    (ticks : nat -> nat) (tasks : list T) fuel :
  forall i st,
    Forall (fun l => limit_used l = level_at_start l)
      (snd (BuilderB.processBatches_from pool ticks fuel i tasks st)).
Proof.
  induction fuel as [|fuel IH]; intros i st; simpl.
  - constructor.
  - case_decide; [|constructor].
    destruct (pool _ _ st) as [r st1].
    match goal with
    | |- context [BuilderB.processBatches_from pool ticks fuel ?j tasks ?s] =>
        specialize (IH j s);
        destruct (BuilderB.processBatches_from pool ticks fuel j tasks s)
          as [[results st2] launches]
    end.
    simpl in *. constructor; [reflexivity | exact IH].
Qed.

End BatchFacts.

(** C5 on the code.  Twenty-one tasks, the first of which is rejected with
    a 429 error, through the batch scheduler of each version, from the
    initial state of the builder and with no timer tick during the pause.
    After the first batch the level is lowered from 3 to 2.  The second
    version runs the second batch with limit 2.  The first version runs it
    with limit 3, the value its caller passed in.  In general the first
    version runs every batch with the level its caller read, and the
    second version runs every batch with the level of the moment. *)
Theorem processBatches_level_of_second_batch :
  snd (BuilderB.processBatches driven_pool (fun _ => 0%nat)
         ((fun st =>
             (Threw (MkApiError "createPolyanet failed (429)" (Some 429)
                       NoHeaders), st))
            :: replicate 20 (fun st => (Resolved tt, st)))
         BuilderB.initial)
  = [MkLaunch 3 3; MkLaunch 2 2]
  /\ snd (BuilderA.runBatches driven_pool (fun _ => 0%nat)
            ((fun st =>
                (Threw (MkApiError "createPolyanet failed (429)" (Some 429)
                          NoHeaders), st))
               :: replicate 20 (fun st => (Resolved tt, st)))
            BuilderA.initial)
     = [MkLaunch 3 3; MkLaunch 3 2]
  /\ (forall (T V : Type)
             (pool : list T -> Z -> BuilderA.state
                     -> list (option (settled V)) * BuilderA.state)
             (ticks : nat -> nat) (tasks : list T) (st : BuilderA.state),
        Forall (fun l => limit_used l = BuilderA.concurrency st)
          (snd (BuilderA.runBatches pool ticks tasks st)))
  /\ (forall (T V : Type)
             (pool : list T -> Z -> BuilderB.state
                     -> list (option (settled V)) * BuilderB.state)
             (ticks : nat -> nat) (tasks : list T) (st : BuilderB.state),
        Forall (fun l => limit_used l = level_at_start l)
          (snd (BuilderB.processBatches pool ticks tasks st))).
Proof.
  split; [vm_compute; reflexivity|].
  split; [vm_compute; reflexivity|].
  split.
  - intros T V pool ticks tasks st.
    unfold BuilderA.runBatches, BuilderA.processBatches.
    apply processA_limit.
  - intros T V pool ticks tasks st.
    unfold BuilderB.processBatches.
    apply processBatchesB_fresh.
Qed.

(* --------------------------------------------------------------------- *)
(** ** The unit tests of the repository, replayed on the model            *)
(* --------------------------------------------------------------------- *)

(** [tests/utils/retry.test.ts], "should resolve if function succeeds on
    first try". *)
Example retry_succeeds_first_try :
  Retry.retry (Retry.MkEnv (fun _ => 0.5%Q) (fun _ => 0%Q) (fun _ => None))
    (fun w : unit => (Resolved "success"%string, w)) Retry.no_options tt
  = Some (Resolved "success"%string, tt,
          [Retry.Invoke (Resolved "success"%string)]).
Proof. reflexivity. Qed.

(** "should retry on failure and succeed on second attempt": two calls,
    one sleep. *)
Example retry_succeeds_second_attempt :
  exists tr,
    Retry.retry (Retry.MkEnv (fun _ => 0.5%Q) (fun _ => 0%Q) (fun _ => None))
      (fun n : nat =>
         match n with
         | O => (Threw (MkApiError "temporary error" None NoHeaders), 1%nat)
         | S _ => (Resolved "success"%string, S n)
         end)
      (Retry.MkRetryOptions (Some 3) None None None None None None) 0%nat
    = Some (Resolved "success"%string, 2%nat, tr)
    /\ Retry.calls tr = 2%nat /\ Retry.sleeps tr = 1%nat.
Proof. eexists. split; [vm_compute; reflexivity|]. split; reflexivity. Qed.

(** "should not retry if shouldRetry returns false": one call, no sleep. *)
Example retry_not_retryable :
  Retry.retry (V := unit)
    (Retry.MkEnv (fun _ => 0.5%Q) (fun _ => 0%Q) (fun _ => None))
    (fun w : unit => (Threw (MkApiError "not retryable" None NoHeaders), w))
    (Retry.MkRetryOptions None None None None (Some (fun _ w => (false, w)))
       None None) tt
  = Some (Threw (MkApiError "not retryable" None NoHeaders), tt,
          [Retry.Invoke (Threw (MkApiError "not retryable" None NoHeaders))]).
Proof. reflexivity. Qed.

(** "should handle 429 rate limit errors with longer delays": a
    [Retry-After: 5] header gives 5000 ms before jitter, not the 1000 ms of
    the exponential base. *)
Example calculateDelay_retry_after_seconds :
  Retry.calculateDelay (W := unit) (fun _ => None) 0.5%Q 0%Q 1
    (MkApiError "429 Rate limit exceeded" None
       (HeadersGet (fun _ => GetReturns (Some "5"%string))))
    (Retry.MkRetryOptions None None None None None (Some false) None)
  = (Some 5000%Q, []).
Proof. vm_compute. reflexivity. Qed.

(** A date in the header: the delay is the time left until then. *)
Example calculateDelay_retry_after_date :
  Retry.calculateDelay (W := unit) (fun _ => Some 7000%Q) 0.5%Q 4000%Q 1
    (MkApiError "429 Rate limit exceeded" None
       (HeadersGet
          (fun _ => GetReturns (Some "Wed, 21 Oct 2015 07:28:00 GMT"%string))))
    (Retry.MkRetryOptions None None None None None (Some false) None)
  = (Some 3000%Q, []).
Proof. vm_compute. reflexivity. Qed.

(** [tests/utils/concurrency.test.ts], "should execute tasks with
    concurrency limit": five tasks returning [10 * k], limit 2. *)
Example pool_five_tasks :
  fst (driven_pool (W := unit)
         (map (fun k w => (Resolved (10 * k), w)) [0; 1; 2; 3; 4]) 2 tt)
  = map (fun k => Some (Fulfilled (10 * k))) [0; 1; 2; 3; 4].
Proof. vm_compute. reflexivity. Qed.

(** "should adjust rate limiter when encountering 429 errors": the refill
    rate after the run is 0.8 times the initial 1 token per second. *)
Example pool_slows_down_on_429 :
  exists st,
    Pool.run (W := unit) (V := Z)
      [fun w => (Settles (Resolved 1), w);
       fun w =>
         (Settles (Threw (MkApiError "429 Rate limit exceeded" None NoHeaders)),
          w);
       fun w => (Settles (Resolved 2), w)]
      [(0%nat, 0%Q); (1%nat, 0%Q); (0%nat, 0%Q); (1%nat, 0%Q);
       (0%nat, 0%Q); (0%nat, 0%Q); (0%nat, 0%Q); (1%nat, 0%Q)]
      (Pool.start 2 0%Q tt)
    = Some st
    /\ Pool.returned st
       = Some [Some (Fulfilled 1);
               Some (Rejected
                       (MkApiError "429 Rate limit exceeded" None NoHeaders));
               Some (Fulfilled 2)]
    /\ (RateLimiter.refillRate (Pool.rateLimiter st) * 1000 == 0.8)%Q.
Proof.
  eexists. split; [vm_compute; reflexivity|].
  split; vm_compute; reflexivity.
Qed.

(** The tasks of "should handle task failures", the second one throwing
    [undefined] instead of an [Error]: the runner that calls it dies and
    the promise of the pool rejects. *)
Example pool_rejects_on_undefined :
  exists st,
    Pool.run (W := unit) (V := Z)
      [fun w => (Settles (Resolved 1), w);
       fun w => (RejectsUnreadable, w);
       fun w => (Settles (Resolved 2), w)]
      [(0%nat, 0%Q); (1%nat, 0%Q); (1%nat, 0%Q)]
      (Pool.start 2 0%Q tt)
    = Some st
    /\ Pool.runners st = [Pool.TokenGranted 0; Pool.Died]
    /\ Pool.rejected st = true
    /\ Pool.returned st = None.
Proof.
  eexists. split; [vm_compute; reflexivity|].
  repeat split.
Qed.

(** Forty-five tasks are cut into batches of 20, 20 and 5. *)
Example make_batches_45 :
  map length (BuilderA.make_batches 45 (replicate 45 tt)) = [20; 20; 5]%nat.
Proof. vm_compute. reflexivity. Qed.

(* --------------------------------------------------------------------- *)
(** ** More on the retry engine                                           *)
(* --------------------------------------------------------------------- *)

Section RetryShape.
Context {W V : Type}.
Variable env : Retry.Env.
Variable fn : W -> outcome V * W.
Variable options : Retry.RetryOptions W.


End RetryShape.


Section RetryExhaustion.
Context {W V : Type}.
Variable env : Retry.Env.
Variable fn : W -> outcome V * W.
Variable options : Retry.RetryOptions W.

Hypothesis always_fails : forall w0, exists err w1, fn w0 = (Threw err, w1).
Hypothesis retryable : forall w0 err w1, fn w0 = (Threw err, w1) ->
  forall w2,
    fst (default (fun _ w => (true, w)) (Retry.shouldRetry options) err w2)
    = true.


End RetryExhaustion.



Section BuilderCounting.
Context {V : Type}.
Variable env : Retry.Env.





End BuilderCounting.



(* --------------------------------------------------------------------- *)
(** ** The delays                                                         *)
(* --------------------------------------------------------------------- *)

Lemma parseInt_from_nonneg s : forall acc,
  Retry.all_digits s = true -> 0 <= acc -> 0 <= Retry.parseInt_from acc s.
Proof.
  induction s as [|c s IH]; intros acc Hd Hacc; simpl in *; [exact Hacc|].
  apply andb_true_iff in Hd as [Hc Hs]. apply IH; [exact Hs|].
  unfold is_digit in Hc. apply andb_true_iff in Hc as [Hlo _].
  apply Nat.leb_le in Hlo. lia.
Qed.

Lemma parseInt_nonneg s : Retry.digits_only s = true -> 0 <= Retry.parseInt s.
Proof.
  intros Hd. apply parseInt_from_nonneg; [|lia].
  destruct s; [discriminate | exact Hd].
Qed.

Section DelayFacts.
Context {W : Type}.
Variable getTime : string -> jsnum.
Variable options : Retry.RetryOptions W.

Let minTimeout := default 1000%Q (Retry.minTimeout options).
Let maxTimeout := default 30000%Q (Retry.maxTimeout options).
Let factor := default 2%Q (Retry.factor options).

Hypothesis minTimeout_nonneg : (0 <= minTimeout)%Q.
Hypothesis maxTimeout_nonneg : (0 <= maxTimeout)%Q.
Hypothesis factor_nonneg : (0 <= factor)%Q.

Lemma cappedBackoff_range attempt :
  (0 <= Retry.cappedBackoff attempt options <= maxTimeout)%Q.
Proof.
  unfold Retry.cappedBackoff. fold minTimeout maxTimeout factor. split.
  - apply Q.min_glb; [|exact maxTimeout_nonneg].
    apply Qmult_le_0_compat; [exact minTimeout_nonneg|].
    by apply Qpower_0_le.
  - apply Q.le_min_r.
Qed.

Lemma getDelayFromHeaders_nonneg now err defaultDelay d ws :
  (0 <= defaultDelay)%Q ->
  Retry.getDelayFromHeaders getTime now err defaultDelay = (Some d, ws) ->
  (0 <= d)%Q.
Proof.
  intros Hdef H. unfold Retry.getDelayFromHeaders in H.
  destruct (headers err) as [|get]; [by injection H as <- _|].
  destruct (get "retry-after"%string) as [|[[|c s]|]];
    try (by injection H as <- _).
  destruct (Retry.digits_only (String c s)) eqn:Hd.
  - injection H as <- _.
    apply Qmult_le_0_compat; [|discriminate].
    change 0%Q with (inject_Z 0). rewrite <- Zle_Qle. by apply parseInt_nonneg.
  - destruct (getTime (String c s)); [|discriminate].
    injection H as <- _. apply Q.le_max_l.
Qed.

(** The delay before the jitter is applied. *)
Lemma calculateDelay_before_jitter rnd now attempt err :
  exists pre ws,
    Retry.calculateDelay getTime rnd now attempt err options
    = (Retry.applyJitter options rnd pre, ws)
    /\ forall p, pre = Some p -> (0 <= p <= maxTimeout)%Q.
Proof.
  unfold Retry.calculateDelay. fold maxTimeout.
  destruct (mentions_429 err).
  - destruct (Retry.getDelayFromHeaders getTime now err _) as [rate ws] eqn:Hh.
    exists (js_min rate maxTimeout), ws. split; [reflexivity|].
    intros p Hp. destruct rate as [r|]; [|discriminate].
    injection Hp as <-.
    apply getDelayFromHeaders_nonneg in Hh.
    + split; [by apply Q.min_glb | apply Q.le_min_r].
    + apply Qmult_le_0_compat; [|discriminate]. apply cappedBackoff_range.
  - exists (Some (Retry.cappedBackoff attempt options)), []. split; [reflexivity|].
    intros p [= <-]. apply cappedBackoff_range.
Qed.

End DelayFacts.

(** X4.  With non-negative [minTimeout], [factor] and [maxTimeout] (the
    defaults are), a delay that [calculateDelay] computes lies between 0
    and [maxTimeout] when the jitter is off, and is a whole number of
    milliseconds between 0 and [1.3 * maxTimeout] when it is on, whatever
    the attempt, the error and its headers. *)
Theorem calculateDelay_range {W : Type} (getTime : string -> jsnum)
    (options : Retry.RetryOptions W) (rnd now : Q) (attempt : Z)
    (err : ApiError) (d : Q) (ws : list Retry.warning) :
  (0 <= default 1000 (Retry.minTimeout options))%Q ->
  (0 <= default 30000 (Retry.maxTimeout options))%Q ->
  (0 <= default 2 (Retry.factor options))%Q ->
  (0 <= rnd <= 1)%Q ->
  Retry.calculateDelay getTime rnd now attempt err options = (Some d, ws) ->
  if default true (Retry.jitter options)
  then (0 <= d <= 1.3 * default 30000 (Retry.maxTimeout options))%Q
       /\ d = inject_Z (Qfloor d)
  else (0 <= d <= default 30000 (Retry.maxTimeout options))%Q.
Proof.
  intros Hmin Hmax Hfactor [Hr0 Hr1] Hcalc.
  destruct (calculateDelay_before_jitter getTime options Hmin Hmax Hfactor
              rnd now attempt err) as (pre & ws' & Heq & Hpre).
  rewrite Heq in Hcalc. injection Hcalc as Hj _.
  unfold Retry.applyJitter in Hj.
  destruct (default true (Retry.jitter options)).
  - destruct pre as [p|]; [|discriminate].
    destruct (Hpre p eq_refl) as [Hp0 Hp1].
    assert (Hj0 : (0 <= 0.7 + rnd * 0.6)%Q).
    { rewrite <- (Qplus_0_r 0). apply Qplus_le_compat; [discriminate|].
      apply Qmult_le_0_compat; [exact Hr0 | discriminate]. }
    assert (Hj1 : (0.7 + rnd * 0.6 <= 1.3)%Q).
    { apply Qle_trans with (0.7 + 1 * 0.6)%Q; [|discriminate].
      apply Qplus_le_compat; [apply Qle_refl|].
      apply Qmult_le_compat_r; [exact Hr1 | discriminate]. }
    assert (Hx0 : (0 <= p * (0.7 + rnd * 0.6))%Q)
      by (by apply Qmult_le_0_compat).
    assert (Hx1 : (p * (0.7 + rnd * 0.6)
                   <= 1.3 * default 30000 (Retry.maxTimeout options))%Q).
    { rewrite (Qmult_comm 1.3).
      apply Qmult_le_compat_nonneg; split; assumption. }
    remember (p * (0.7 + rnd * 0.6))%Q as x eqn:Hx.
    assert (Hd : d = inject_Z (Qfloor x)) by congruence.
    clear Hj Hx. subst d.
    split; [split|].
    + change 0%Q with (inject_Z 0). rewrite <- Zle_Qle.
      exact (Qfloor_resp_le 0 x Hx0).
    + eapply Qle_trans; [apply Qfloor_le | exact Hx1].
    + by rewrite Qfloor_Z.
  - subst pre. by apply Hpre.
Qed.

Lemma calculateDelay_range_witness :
  match Retry.calculateDelay (W := unit) (fun _ => None) 0.9%Q 0%Q 7
          (MkApiError "POST soloons failed (503)" (Some 503) NoHeaders)
          Retry.no_options with
  | (Some d, _) => (0 <= d <= 1.3 * 30000)%Q /\ d = inject_Z (Qfloor d)
  | (None, _) => False
  end.
Proof.
  destruct (Retry.calculateDelay (W := unit) (fun _ => None) 0.9%Q 0%Q 7
              (MkApiError "POST soloons failed (503)" (Some 503) NoHeaders)
              Retry.no_options) as [[d|] ws] eqn:E.
  - refine (calculateDelay_range (W := unit) (fun _ => None) Retry.no_options
              0.9%Q 0%Q 7 _ d ws _ _ _ _ E); try discriminate.
    split; discriminate.
  - vm_compute in E. discriminate E.
Defined.

(** X5.  For an error that mentions 429 and carries a [Retry-After] header
    made of digits, the delay before jitter is that number of seconds in
    milliseconds, capped at [maxTimeout]: the same at every attempt,
    whatever the exponential backoff would be, and without a warning. *)
Theorem calculateDelay_honours_retry_after {W : Type}
    (getTime : string -> jsnum) (options : Retry.RetryOptions W)
    (rnd now : Q) (attempt : Z) (err : ApiError)
    (get : string -> get_result) (seconds : string) :
  mentions_429 err = true ->
  headers err = HeadersGet get ->
  get "retry-after"%string = GetReturns (Some seconds) ->
  Retry.digits_only seconds = true ->
  Retry.calculateDelay getTime rnd now attempt err options
  = (Retry.applyJitter options rnd
       (Some (Qmin (inject_Z (Retry.parseInt seconds) * 1000)
                   (default 30000 (Retry.maxTimeout options)))%Q),
     [])
  /\ 0 <= Retry.parseInt seconds.
Proof.
  intros H429 Hh Hget Hd. split; [|by apply parseInt_nonneg].
  unfold Retry.calculateDelay, Retry.getDelayFromHeaders.
  rewrite H429, Hh, Hget.
  destruct seconds as [|c s]; [discriminate|]. rewrite Hd. reflexivity.
Qed.

Lemma calculateDelay_honours_retry_after_witness :
  Retry.calculateDelay (W := unit) (fun _ => None) 0.5%Q 0%Q 6
    (MkApiError "429 Rate limit exceeded" (Some 429)
       (HeadersGet (fun _ => GetReturns (Some "12"%string))))
    (Retry.MkRetryOptions None None None None None (Some false) None)
  = (Some (Qmin (inject_Z (Retry.parseInt "12") * 1000) 30000)%Q, []).
Proof.
  apply (calculateDelay_honours_retry_after (W := unit) (fun _ => None)
           (Retry.MkRetryOptions None None None None None (Some false) None)
           0.5%Q 0%Q 6 _ (fun _ => GetReturns (Some "12"%string)) "12");
    reflexivity.
Defined.

(** X6.  For an error that does not mention 429 the headers are not
    looked at: the delay before jitter is the capped exponential backoff,
    which, for a factor of at least 1, a positive [minTimeout] and attempts
    numbered from 1 as [retry] numbers them, never decreases from one
    attempt to a later one. *)
Theorem calculateDelay_backoff_monotone {W : Type}
    (getTime : string -> jsnum) (options : Retry.RetryOptions W)
    (rnd now : Q) (attempt attempt' : Z) (err : ApiError) :
  mentions_429 err = false ->
  (1 <= default 2 (Retry.factor options))%Q ->
  (0 < default 1000 (Retry.minTimeout options))%Q ->
  1 <= attempt <= attempt' ->
  Retry.calculateDelay getTime rnd now attempt err options
  = (Retry.applyJitter options rnd
       (Some (Retry.cappedBackoff attempt options)), [])
  /\ (Retry.cappedBackoff attempt options
      <= Retry.cappedBackoff attempt' options)%Q.
Proof.
  intros H429 Hf Hm [Hone Hle]. split.
  - unfold Retry.calculateDelay. rewrite H429. reflexivity.
  - unfold Retry.cappedBackoff. apply Q.min_le_compat_r.
    rewrite !(Qmult_comm (default 1000%Q (Retry.minTimeout options))).
    apply Qmult_le_compat_r; [|by apply Qlt_le_weak].
    apply Qpower_le_compat_l; [lia | exact Hf].
Qed.

(** The default options, attempts 3 and 9: 4000 ms, then the cap of
    30000 ms. *)
Lemma calculateDelay_backoff_monotone_witness :
  Retry.calculateDelay (W := unit) (fun _ => None) 0.5%Q 0%Q 3
    (MkApiError "POST soloons failed (503)" (Some 503) NoHeaders)
    Retry.no_options
  = (Retry.applyJitter (W := unit) Retry.no_options 0.5%Q
       (Some (Retry.cappedBackoff (W := unit) 3 Retry.no_options)), [])
  /\ (Retry.cappedBackoff (W := unit) 3 Retry.no_options
      <= Retry.cappedBackoff (W := unit) 9 Retry.no_options)%Q.
Proof.
  apply (calculateDelay_backoff_monotone (W := unit) (fun _ => None)
           Retry.no_options 0.5%Q 0%Q 3 9
           (MkApiError "POST soloons failed (503)" (Some 503) NoHeaders)).
  - reflexivity.
  - discriminate.
  - reflexivity.
  - lia.
Defined.

(* --------------------------------------------------------------------- *)
(** ** More on the token bucket and the pool                              *)
(* --------------------------------------------------------------------- *)

Section PoolMore.
Context {W V : Type}.
Variable tasks : list (Pool.task W V).

Lemma count_if_le_length {A} (p : A -> bool) (l : list A) :
  (count_if p l <= length l)%nat.
Proof. induction l as [|a l IH]; simpl; [lia|]. destruct (p a); lia. Qed.

Lemma in_flight_insert (rs : list Pool.runner) r x y :
  rs !! r = Some x ->
  (in_flight (<[r := y]> rs)
   + (match Pool.holding x with Some _ => 1 | None => 0 end)
   = in_flight rs
     + (match Pool.holding y with Some _ => 1 | None => 0 end))%nat.
Proof.
  intros Hr. unfold in_flight.
  pose proof (count_if_insert
                (fun r => match Pool.holding r with
                          | Some _ => true
                          | None => false
                          end) rs r x y Hr) as H.
  cbn beta in H.
  destruct (Pool.holding x), (Pool.holding y); lia.
Qed.

Lemma throttled_snoc (h : list (Pool.execution W V)) e :
  throttled (h ++ [e])
  = (throttled h
     + (match Pool.settlement e with
        | Settles (Threw error) => if mentions_429 error then 1 else 0
        | Settles (Resolved _) | RejectsUnreadable => 0
        end))%nat.
Proof.
  unfold throttled. rewrite count_if_app. simpl.
  destruct (Pool.settlement e) as [[|error]|]; lia.
Qed.

Lemma start_accounts (limit : nat) (now : Q) (w : W) :
  pool_accounts limit (Pool.start (V := V) limit now w).
Proof.
  unfold pool_accounts. simpl. split; [apply Qle_refl|]. split.
  - rewrite Qmult_1_r. reflexivity.
  - unfold in_flight. rewrite count_if_none; [reflexivity|].
    intros x Hx. apply elem_of_replicate_inv in Hx as ->. reflexivity.
Qed.

Lemma resume_accounts limit st r now st' :
  pool_accounts limit st ->
  Pool.resume tasks r now st = Some st' ->
  pool_accounts limit st'.
Proof.
  intros (Htok & Hrate & Hcur) Hstep. unfold Pool.resume in Hstep.
  destruct (Pool.runners st !! r) as [[|current wake|current| |]|] eqn:Hr;
    try discriminate.
  - case_decide as Hlt.
    + unfold RateLimiter.getToken_start in Hstep.
      destruct (Qle_bool 1 _) eqn:Hle; injection Hstep as <-;
        unfold pool_accounts; simpl.
      * split; [|split].
        -- apply Qle_trans with (Qmin (RateLimiter.maxTokens (Pool.rateLimiter st))
                                   (RateLimiter.tokens (Pool.rateLimiter st)
                                    + (now - RateLimiter.lastRefill (Pool.rateLimiter st))
                                      * RateLimiter.refillRate (Pool.rateLimiter st)));
             [|apply Q.le_min_l].
           unfold Qminus. rewrite <- (Qplus_0_r (Qmin _ _)) at 2.
           apply Qplus_le_compat; [apply Qle_refl | discriminate].
        -- exact Hrate.
        -- pose proof (in_flight_insert _ r _ (Pool.TokenGranted (Pool.i st)) Hr)
             as H. simpl in H. lia.
      * split; [apply Q.le_min_l|]. split; [exact Hrate|].
        match goal with
        | |- context [<[r := ?y]> _] =>
            pose proof (in_flight_insert _ r _ y Hr) as H
        end.
        simpl in H. lia.
    + injection Hstep as <-. unfold pool_accounts; simpl.
      split; [exact Htok|]. split; [exact Hrate|].
      pose proof (in_flight_insert _ r _ Pool.Finished Hr) as H.
      simpl in H. lia.
  - injection Hstep as <-. unfold pool_accounts; simpl.
    split; [|split; [exact Hrate|]].
    + unfold Qminus. rewrite <- (Qplus_0_r (RateLimiter.maxTokens _)).
      apply Qplus_le_compat; [exact Htok | discriminate].
    + pose proof (in_flight_insert _ r _ (Pool.TokenGranted current) Hr) as H.
      simpl in H. lia.
  - destruct (Pool.call tasks current (Pool.world st)) as [c w].
    injection Hstep as <-. unfold pool_accounts; simpl.
    rewrite throttled_snoc, length_app. simpl.
    pose proof (in_flight_insert _ r _
                  (match c with
                   | Settles _ => Pool.AtLoopTest
                   | RejectsUnreadable => Pool.Died
                   end) Hr) as H.
    split; [|split; [|destruct c; simpl in H; lia]].
    + destruct c as [[value|error]|]; try exact Htok.
      destruct (mentions_429 error); exact Htok.
    + destruct c as [[value|error]|];
        try (rewrite Nat.add_0_r; exact Hrate).
      destruct (mentions_429 error);
        [|rewrite Nat.add_0_r; exact Hrate].
      simpl. rewrite Hrate.
      rewrite Nat2Z.inj_add, Qpower_plus by discriminate.
      change (Qpower 0.8 (Z.of_nat 1)) with 0.8%Q. ring.
Qed.

Lemma run_accounts limit sched : forall st st',
  pool_accounts limit st ->
  Pool.run tasks sched st = Some st' ->
  pool_accounts limit st'.
Proof.
  induction sched as [|[r now] sched IH]; intros st st' Hacc Hrun;
    cbn [Pool.run] in Hrun.
  - by injection Hrun as <-.
  - destruct (Pool.resume tasks r now st) as [st1|] eqn:Hstep; [|discriminate].
    eapply IH; [|exact Hrun]. eapply resume_accounts; eassumption.
Qed.

End PoolMore.

(** X8.  In every state a schedule leads to: the token count is at most
    the capacity; the refill rate is the initial [limit * 0.5 / 1000]
    tokens per ms times 0.8 for each task rejected so far with a message
    mentioning 429, so it never goes up again; and it stays positive when
    the limit is at least 1. *)
Theorem rateLimiter_only_slows_down {W V : Type}
    (tasks : list (Pool.task W V)) (limit : nat) (now0 : Q) (w0 : W)
    (sched : Pool.schedule) (st : Pool.state W V) :
  Pool.run tasks sched (Pool.start limit now0 w0) = Some st ->
  (RateLimiter.tokens (Pool.rateLimiter st)
   <= RateLimiter.maxTokens (Pool.rateLimiter st))%Q
  /\ (RateLimiter.refillRate (Pool.rateLimiter st)
      == inject_Z (Z.of_nat limit) * 0.5 / 1000
         * Qpower 0.8 (Z.of_nat (throttled (Pool.history st))))%Q
  /\ (RateLimiter.refillRate (Pool.rateLimiter st)
      <= inject_Z (Z.of_nat limit) * 0.5 / 1000)%Q
  /\ ((1 <= limit)%nat -> (0 < RateLimiter.refillRate (Pool.rateLimiter st))%Q).
Proof.
  intros Hrun.
  destruct (run_accounts tasks limit sched _ _ (start_accounts limit now0 w0) Hrun)
    as (Htok & Hrate & _).
  pose proof (run_invariant tasks limit sched _ _
                (start_invariant tasks limit now0 w0) Hrun) as Hinv.
  split; [exact Htok|]. split; [exact Hrate|]. split.
  - rewrite Hrate.
    rewrite <- (Qmult_1_r (inject_Z (Z.of_nat limit) * 0.5 / 1000)) at 2.
    rewrite !(Qmult_comm (inject_Z (Z.of_nat limit) * 0.5 / 1000)).
    apply Qmult_le_compat_r.
    + assert (H : (/ Qpower (/ 0.8) (Z.of_nat (throttled (Pool.history st)))
                   <= 1)%Q).
      { apply Qle_shift_inv_r.
        - apply Qpower_0_lt. reflexivity.
        - rewrite Qmult_1_l. apply Qpower_1_le; [discriminate | lia]. }
      rewrite <- Qinv_power, Qinv_involutive in H. exact H.
    + unfold Qdiv. apply Qmult_le_0_compat; [|discriminate].
      apply Qmult_le_0_compat; [|discriminate].
      change 0%Q with (inject_Z 0). rewrite <- Zle_Qle. lia.
  - intros Hlimit. apply (Pool.inv_rate _ _ _ Hinv). lia.
Qed.

Lemma rateLimiter_only_slows_down_witness :
  exists st,
    Pool.run (W := unit) (V := Z)
      [fun w => (Settles (Resolved 1), w);
       fun w => (Settles (Threw (MkApiError "429 Rate limit exceeded" None NoHeaders)), w);
       fun w => (Settles (Threw (MkApiError "429 again" None NoHeaders)), w)]
      [(0%nat, 0%Q); (0%nat, 0%Q); (0%nat, 0%Q); (0%nat, 0%Q);
       (0%nat, 0%Q); (0%nat, 2500%Q); (0%nat, 2500%Q)]
      (Pool.start 1 0%Q tt)
    = Some st
    /\ (RateLimiter.refillRate (Pool.rateLimiter st)
        == inject_Z 1 * 0.5 / 1000 * Qpower 0.8 (Z.of_nat (throttled (Pool.history st))))%Q
    /\ throttled (Pool.history st) = 2%nat.
Proof.
  destruct (Pool.run (W := unit) (V := Z) _ _ (Pool.start 1 0%Q tt))
    as [st|] eqn:Hrun; [|vm_compute in Hrun; discriminate Hrun].
  exists st. split; [reflexivity|]. split.
  - apply (rateLimiter_only_slows_down _ 1 0%Q tt _ st Hrun).
  - assert (Hst : Some st = Some st) by reflexivity.
    rewrite <- Hrun in Hst at 1. vm_compute in Hst. injection Hst as <-.
    reflexivity.
Defined.

Lemma count_if_elem {A} (p : A -> bool) (l : list A) x :
  x ∈ l -> p x = true -> (1 <= count_if p l)%nat.
Proof.
  intros Hx Hp. apply list_elem_of_lookup in Hx as [j Hj].
  eapply count_if_member; eassumption.
Qed.

(** X9.  In every state a schedule leads to, the tasks claimed are the
    tasks already called plus the tasks in flight; the tasks in flight are
    at most [limit]; and no index past the end of the list is ever claimed
    or called. *)
Theorem pool_in_flight_bound {W V : Type}
    (tasks : list (Pool.task W V)) (limit : nat) (now0 : Q) (w0 : W)
    (sched : Pool.schedule) (st : Pool.state W V) :
  Pool.run tasks sched (Pool.start limit now0 w0) = Some st ->
  Pool.i st = (length (Pool.history st) + in_flight (Pool.runners st))%nat
  /\ (in_flight (Pool.runners st) <= limit)%nat
  /\ (Pool.i st <= length tasks)%nat
  /\ (forall e, e ∈ Pool.history st -> (Pool.index e < length tasks)%nat)
  /\ (forall r x k, Pool.runners st !! r = Some x ->
        Pool.holding x = Some k -> (k < length tasks)%nat).
Proof.
  intros Hrun.
  destruct (run_accounts tasks limit sched _ _ (start_accounts limit now0 w0) Hrun)
    as (_ & _ & Hcur).
  pose proof (run_invariant tasks limit sched _ _
                (start_invariant tasks limit now0 w0) Hrun) as Hinv.
  split; [exact Hcur|]. split; [|split; [|split]].
  - rewrite <- (Pool.inv_runners _ _ _ Hinv). apply count_if_le_length.
  - apply (Pool.inv_cursor _ _ _ Hinv).
  - intros e He.
    pose proof (Pool.inv_once _ _ _ Hinv (Pool.index e)) as Honce.
    pose proof (Pool.inv_cursor _ _ _ Hinv) as Hle.
    assert (1 <= Pool.executions (Pool.index e) (Pool.history st))%nat.
    { eapply count_if_elem; [exact He|]. apply Nat.eqb_refl. }
    case_decide; lia.
  - intros r x k Hr Hk.
    destruct (held_index tasks limit st r x k Hinv Hr Hk) as [Hlt _].
    pose proof (Pool.inv_cursor _ _ _ Hinv). lia.
Qed.

Lemma pool_in_flight_bound_witness :
  exists st,
    Pool.run (W := unit) (V := Z)
      (replicate 9 (fun w => (Settles (Resolved 1), w)))
      [(2%nat, 0%Q); (0%nat, 0%Q); (1%nat, 0%Q); (2%nat, 0%Q)]
      (Pool.start 3 0%Q tt)
    = Some st
    /\ Pool.i st = (length (Pool.history st) + in_flight (Pool.runners st))%nat
    /\ (in_flight (Pool.runners st) <= 3)%nat.
Proof.
  destruct (Pool.run (W := unit) (V := Z) _ _ (Pool.start 3 0%Q tt))
    as [st|] eqn:Hrun; [|vm_compute in Hrun; discriminate Hrun].
  exists st. split; [reflexivity|].
  destruct (pool_in_flight_bound _ 3 0%Q tt _ st Hrun) as (H1 & H2 & _).
  split; assumption.
Defined.

Section Wrappers.
Context {W V : Type}.
Variable count : W -> nat.
Variable tasks : list (Pool.task W V).

(** When every task bumps a counter of the world by one, the counter
    counts the calls. *)
Lemma run_counts_calls limit sched : forall st st',
  (forall t, t ∈ tasks -> forall w, count (snd (t w)) = S (count w)) ->
  Pool.invariant tasks limit st ->
  Pool.run tasks sched st = Some st' ->
  (count (Pool.world st') + length (Pool.history st)
   = count (Pool.world st) + length (Pool.history st'))%nat.
Proof.
  intros st st' Hbump. revert st st'.
  induction sched as [|[r now] sched IH]; intros st st' Hinv Hrun;
    cbn [Pool.run] in Hrun.
  - by injection Hrun as <-.
  - destruct (Pool.resume tasks r now st) as [st1|] eqn:Hstep; [|discriminate].
    pose proof (resume_invariant tasks limit st r now st1 Hinv Hstep) as Hinv1.
    specialize (IH st1 st' Hinv1 Hrun).
    enough (count (Pool.world st1) + length (Pool.history st)
            = count (Pool.world st) + length (Pool.history st1))%nat by lia.
    clear IH Hrun Hinv1. unfold Pool.resume in Hstep.
    destruct (Pool.runners st !! r) as [[|current wake|current| |]|] eqn:Hr;
      try discriminate.
    + case_decide.
      * destruct (RateLimiter.getToken_start _ _).
        injection Hstep as <-. reflexivity.
      * injection Hstep as <-. reflexivity.
    + injection Hstep as <-. reflexivity.
    + destruct (held_index tasks limit st r _ current Hinv Hr eq_refl)
        as [Hlt _].
      pose proof (Pool.inv_cursor _ _ _ Hinv) as Hle.
      destruct (lookup_lt_is_Some_2 tasks current ltac:(lia)) as [t Ht].
      rewrite (call_lookup tasks current t _ Ht) in Hstep.
      pose proof (Hbump t (list_elem_of_lookup_2 _ _ _ Ht) (Pool.world st))
        as Hb.
      destruct (t (Pool.world st)) as [o w].
      injection Hstep as <-. simpl in *. rewrite length_app. simpl. lia.
Qed.

End Wrappers.

(** X10.  The progress callback fires exactly once per task, whatever the
    task does: when the raw tasks are wrapped as the first version does
    (errors swallowed) or as the second does (errors rethrown), and the
    raw tasks leave the progress counter alone, the counter has advanced
    by the number of tasks when the pool returns.  Under the first wrapper
    every slot of the array is [fulfilled], so that no rejection with 429
    is ever counted from the results of a batch. *)
Theorem progress_fires_once_per_task {W V : Type} (count : W -> nat)
    (log : W -> W) (raw : list (Pool.task W V)) (limit : nat) (now0 : Q)
    (w0 : W) :
  (1 <= limit)%nat ->
  (forall w, count (log w) = S (count w)) ->
  (forall t, t ∈ raw -> forall w, count (snd (t w)) = count w) ->
  (forall sched st res,
      Pool.run (map (swallow_and_log log) raw) sched (Pool.start limit now0 w0)
      = Some st ->
      Pool.returned st = Some res ->
      count (Pool.world st) = (count w0 + length raw)%nat
      /\ res = replicate (length raw) (Some (Fulfilled tt))
      /\ count_429 res = 0)
  /\ (forall sched st res,
        Pool.run (map (log_finally log) raw) sched (Pool.start limit now0 w0)
        = Some st ->
        Pool.returned st = Some res ->
        count (Pool.world st) = (count w0 + length raw)%nat
        /\ length res = length raw).
Proof.
  intros Hlimit Hlog Hraw.
  assert (Hbump : forall (wrap : Pool.task W V -> Pool.task W unit),
             (forall fn w, snd (wrap fn w) = log (snd (fn w))) ->
             forall t, t ∈ map wrap raw ->
               forall w, count (snd (t w)) = S (count w)).
  { intros wrap Hwrap t Ht w.
    apply list_elem_of_fmap in Ht as (fn & -> & Hfn).
    rewrite Hwrap, Hlog, (Hraw fn Hfn). reflexivity. }
  assert (Hcount : forall (wrap : Pool.task W V -> Pool.task W unit),
             (forall fn w, snd (wrap fn w) = log (snd (fn w))) ->
             forall sched st res,
               Pool.run (map wrap raw) sched (Pool.start limit now0 w0) = Some st ->
               Pool.returned st = Some res ->
               count (Pool.world st) = (count w0 + length raw)%nat
               /\ length res = length raw).
  { intros wrap Hwrap sched st res Hrun Hret.
    pose proof (start_invariant (map wrap raw) limit now0 w0) as Hinv0.
    pose proof (run_invariant _ limit sched _ _ Hinv0 Hrun) as Hinv.
    pose proof (run_counts_calls count (map wrap raw) limit sched _ _
                  (Hbump wrap Hwrap) Hinv0 Hrun) as Hc.
    destruct (run_accounts (map wrap raw) limit sched _ _
                (start_accounts limit now0 w0) Hrun) as (_ & _ & Hcur).
    destruct (finished_results _ limit st res Hlimit Hinv Hret) as [Hlen _].
    rewrite length_map in Hlen. split; [|exact Hlen].
    simpl in Hc.
    assert (Hi : Pool.i st = length raw /\ in_flight (Pool.runners st) = 0%nat).
    { unfold Pool.returned in Hret.
      destruct (forallb Pool.is_finished (Pool.runners st)) eqn:Hall;
        [|discriminate].
      split.
      - rewrite <- (length_map (wrap)). apply (Pool.inv_finished _ _ _ Hinv).
        pose proof (Pool.inv_runners _ _ _ Hinv) as Hn.
        destruct (Pool.runners st) as [|x rs] eqn:Hrs; [simpl in Hn; lia|].
        assert (x = Pool.Finished) as ->
          by (eapply all_finished_elem; [exact Hall | apply list_elem_of_here]).
        apply list_elem_of_here.
      - unfold in_flight. apply count_if_none.
        intros x Hx. rewrite (all_finished_elem _ x Hall Hx). reflexivity. }
    lia. }
  split.
  - intros sched st res Hrun Hret.
    assert (Hwrap : forall (fn : Pool.task W V) w,
               snd (swallow_and_log log fn w) = log (snd (fn w))).
    { intros fn w. unfold swallow_and_log. by destruct (fn w). }
    destruct (Hcount (swallow_and_log log) Hwrap sched st res Hrun Hret)
      as [Hc Hlen].
    split; [exact Hc|].
    pose proof (run_invariant _ limit sched _ _
                  (start_invariant _ limit now0 w0) Hrun) as Hinv.
    assert (Hres : res = map (fun o => Some (settle o))
                           (replicate (length raw) (Resolved tt))).
    { eapply finished_results_fixed; [exact Hlimit | exact Hinv | exact Hret |].
      clear. induction raw as [|fn raw' IH]; simpl; constructor; [|exact IH].
      intros w. unfold swallow_and_log. by destruct (fn w). }
    assert (Hrep : res = replicate (length raw) (Some (Fulfilled tt))).
    { rewrite Hres. clear. induction (length raw); simpl; congruence. }
    split; [exact Hrep|].
    rewrite Hrep. clear. unfold count_429.
    induction (length raw); simpl; [reflexivity | assumption].
  - intros sched st res Hrun Hret.
    refine (Hcount (log_finally log) _ sched st res Hrun Hret).
    intros fn w. unfold log_finally. by destruct (fn w).
Qed.

Lemma progress_fires_once_per_task_witness :
  exists st res,
    Pool.run
      (map (swallow_and_log S)
         [fun w : nat => (Settles (Threw (MkApiError "POST failed (429)" None NoHeaders)), w);
          fun w : nat => (Settles (Resolved 7), w)])
      [(0%nat, 0%Q); (0%nat, 0%Q); (0%nat, 0%Q); (0%nat, 0%Q); (0%nat, 0%Q)]
      (Pool.start 1 0%Q 0%nat)
    = Some st
    /\ Pool.returned st = Some res
    /\ Pool.world st = 2%nat
    /\ res = [Some (Fulfilled tt); Some (Fulfilled tt)]
    /\ count_429 res = 0.
Proof.
  destruct (Pool.run _ _ (Pool.start 1 0%Q 0%nat)) as [st|] eqn:Hrun;
    [|vm_compute in Hrun; discriminate Hrun].
  destruct (Pool.returned st) as [res|] eqn:Hret.
  - exists st, res. split; [reflexivity|]. split; [exact Hret|].
    destruct (progress_fires_once_per_task (V := Z) (fun w : nat => w) S
                [fun w : nat => (Settles (Threw (MkApiError "POST failed (429)" None NoHeaders)), w);
                 fun w : nat => (Settles (Resolved 7), w)] 1 0%Q 0%nat
                ltac:(lia) ltac:(reflexivity)) as [Hswallow _].
    + intros t Ht w. repeat (apply elem_of_cons in Ht as [->|Ht]; [reflexivity|]).
      by apply not_elem_of_nil in Ht.
    + exact (Hswallow _ st res Hrun Hret).
  - assert (Hst : Some st = Some st) by reflexivity.
    rewrite <- Hrun in Hst at 1. vm_compute in Hst. injection Hst as <-.
    vm_compute in Hret. discriminate Hret.
Defined.

(** X22.  What [runtWithConcurrencyLimit] returns when it returns, with a
    limit of at least 1 and under any schedule: the run took at most
    [3 * N + limit] resumptions; the array has exactly [N] slots; every task
    was called exactly once, and slot [k] holds [fulfilled] with the value
    of that call when it resolved and [rejected] with its reason when it
    threw; the world handed back is the one the run ended in.  For tasks
    that settle the same way wherever they are called the array is the list
    of their settlements, in the order of the tasks.  As long as the run has
    neither returned nor rejected, some runner can be resumed.  When every
    task fulfils or rejects with a readable reason, no run rejects and some
    run that respects the clock returns. *)
Theorem runtWithConcurrencyLimit_returns_aligned {W V : Type}
    (tasks : list (Pool.task W V)) (limit : nat) (now0 : Q) (w0 : W) :
  (1 <= limit)%nat ->
  (forall sched res w',
      Pool.runtWithConcurrencyLimit tasks limit now0 sched w0 = Some (res, w') ->
      (length sched <= 3 * length tasks + limit)%nat
      /\ length res = length tasks
      /\ exists st,
           Pool.run tasks sched (Pool.start limit now0 w0) = Some st
           /\ w' = Pool.world st
           /\ forall k t, tasks !! k = Some t ->
                Pool.executions k (Pool.history st) = 1%nat
                /\ exists e, e ∈ Pool.history st
                     /\ Pool.index e = k
                     /\ match fst (t (Pool.world_before e)) with
                        | Settles (Resolved value) =>
                            res !! k = Some (Some (Fulfilled value))
                        | Settles (Threw reason) =>
                            res !! k = Some (Some (Rejected reason))
                        | RejectsUnreadable => False
                        end)
  /\ (forall outcomes : list (outcome V),
        Forall2 (fun t o => forall w, fst (t w) = Settles o) tasks outcomes ->
        forall sched res w',
          Pool.runtWithConcurrencyLimit tasks limit now0 sched w0
          = Some (res, w') ->
          res = map (fun o => Some match o with
                                   | Resolved value => Fulfilled value
                                   | Threw reason => Rejected reason
                                   end) outcomes)
  /\ (forall sched st,
        Pool.run tasks sched (Pool.start limit now0 w0) = Some st ->
        Pool.returned st = None ->
        Pool.rejected st = false ->
        exists r, forall now, is_Some (Pool.resume tasks r now st))
  /\ ((forall t, t ∈ tasks -> forall w, exists o, fst (t w) = Settles o) ->
      (forall sched st,
          Pool.run tasks sched (Pool.start limit now0 w0) = Some st ->
          Pool.rejected st = false)
      /\ exists sched res w',
           Pool.runtWithConcurrencyLimit tasks limit now0 sched w0
           = Some (res, w')
           /\ Pool.timely tasks now0 sched (Pool.start limit now0 w0) = true).
Proof.
  intros Hlimit.
  assert (Hunfold : forall sched res w',
             Pool.runtWithConcurrencyLimit tasks limit now0 sched w0
             = Some (res, w') ->
             exists st,
               Pool.run tasks sched (Pool.start limit now0 w0) = Some st
               /\ Pool.returned st = Some res /\ w' = Pool.world st
               /\ Pool.invariant tasks limit st).
  { intros sched res w' H. unfold Pool.runtWithConcurrencyLimit in H.
    destruct (Pool.run tasks sched _) as [st|] eqn:Hrun; [|discriminate].
    destruct (Pool.returned st) as [res'|] eqn:Hret; [|discriminate].
    injection H as <- <-. exists st.
    split; [reflexivity|]. split; [exact Hret|]. split; [reflexivity|].
    exact (run_invariant tasks limit sched _ _
             (start_invariant tasks limit now0 w0) Hrun). }
  split; [|split; [|split]].
  - intros sched res w' H.
    destruct (Hunfold _ _ _ H) as (st & Hrun & Hret & Hw & Hinv).
    destruct (finished_results tasks limit st res Hlimit Hinv Hret)
      as [Hlen Hslots].
    split.
    { pose proof (run_measure tasks sched _ _ Hrun) as Hm.
      rewrite start_measure in Hm. lia. }
    split; [exact Hlen|]. exists st. split; [exact Hrun|].
    split; [exact Hw|]. intros k t Ht.
    destruct (Hslots k) as (Honce & e & o & He & Hidx & Hcall & _ & Hres).
    { by eapply lookup_lt_Some. }
    split; [exact Honce|]. exists e. split; [exact He|].
    split; [exact Hidx|].
    rewrite (call_lookup tasks k t _ Ht) in Hcall.
    unfold Pool.task in *. rewrite Hcall. destruct o; exact Hres.
  - intros outcomes Hfixed sched res w' H.
    destruct (Hunfold _ _ _ H) as (st & Hrun & Hret & Hw & Hinv).
    exact (finished_results_fixed tasks limit st res outcomes Hlimit Hinv Hret
             Hfixed).
  - intros sched st _. apply progress.
  - intros Hreadable. split.
    + intros sched st Hrun.
      pose proof (run_invariant tasks limit sched _ _
                    (start_invariant tasks limit now0 w0) Hrun) as Hinv.
      pose proof (readable_history tasks limit st Hreadable Hinv) as Hd.
      unfold Pool.rejected.
      destruct (existsb Pool.is_died (Pool.runners st)) eqn:Hex; [|reflexivity].
      apply died_rejected in Hex. lia.
    + destruct (run_exists tasks limit now0 w0 Hreadable)
        as (sched & st & Hrun & Hret & Htimely).
      exists sched, (map Pool.published (Pool.results st)), (Pool.world st).
      unfold Pool.runtWithConcurrencyLimit. rewrite Hrun, Hret.
      split; [reflexivity | exact Htimely].
Qed.

(** The test "should handle task failures": [ok, throws Error, ok] at
    concurrency 2 returns [fulfilled, rejected, fulfilled]. *)
Lemma runtWithConcurrencyLimit_returns_aligned_witness :
  exists sched w',
    Pool.runtWithConcurrencyLimit
      [fun w : unit => (Settles (Resolved "success1"%string), w);
       fun w => (Settles (Threw (MkApiError "test error" None NoHeaders)), w);
       fun w => (Settles (Resolved "success2"%string), w)]
      2 0%Q sched tt
    = Some ([Some (Fulfilled "success1"%string);
             Some (Rejected (MkApiError "test error" None NoHeaders));
             Some (Fulfilled "success2"%string)], w').
Proof.
  destruct (runtWithConcurrencyLimit_returns_aligned
              [fun w : unit => (Settles (Resolved "success1"%string), w);
               fun w => (Settles (Threw (MkApiError "test error" None NoHeaders)),
                         w);
               fun w => (Settles (Resolved "success2"%string), w)]
              2 0%Q tt ltac:(lia)) as (_ & Hfixed & _ & Hreturns).
  destruct Hreturns as (_ & sched & res & w' & Hrun & _).
  { intros t Ht w. repeat (apply elem_of_cons in Ht as [->|Ht]; [by eexists|]).
    by apply not_elem_of_nil in Ht. }
  exists sched, w'.
  pose proof (Hfixed [Resolved "success1"%string;
                      Threw (MkApiError "test error" None NoHeaders);
                      Resolved "success2"%string]
                ltac:(repeat constructor) sched res w' Hrun) as Hres.
  cbn [map] in Hres. rewrite <- Hres. exact Hrun.
Defined.

(* --------------------------------------------------------------------- *)
(** ** More on the controller and the batch scheduler                     *)
(* --------------------------------------------------------------------- *)

Lemma iter_adjust_A n : forall st,
  BuilderA.error429Count st = 0 ->
  BuilderA.concurrency st <= BuilderA.maxConcurrency ->
  Nat.iter n BuilderA.adjustConcurrency st
  = BuilderA.MkState
      (Z.min (BuilderA.concurrency st + Z.of_nat n) BuilderA.maxConcurrency) 0.
Proof.
  induction n as [|n IH]; intros [c k] Hk Hc; simpl in *; subst k.
  - f_equal. lia.
  - rewrite IH by (simpl; first [reflexivity | assumption]).
    unfold BuilderA.adjustConcurrency. simpl.
    f_equal. unfold BuilderA.maxConcurrency in *. lia.
Qed.

Lemma iter_adjust_B n : forall st,
  BuilderB.error429 st = 0 ->
  BuilderB.concurrency st <= BuilderB.maxConcurrency ->
  Nat.iter n BuilderB.adjustConcurrency st
  = BuilderB.MkState
      (Z.min (BuilderB.concurrency st + Z.of_nat n) BuilderB.maxConcurrency) 0.
Proof.
  induction n as [|n IH]; intros [c k] Hk Hc; simpl in *; subst k.
  - f_equal. lia.
  - rewrite IH by (simpl; first [reflexivity | assumption]).
    unfold BuilderB.adjustConcurrency. simpl.
    f_equal. unfold BuilderB.maxConcurrency in *. lia.
Qed.

(** X11.  Recovery of the level, in both versions: from a state in range,
    one adjustment followed by [n] more with no error recorded in between
    leaves the level at [min (level after the first + n) maxConcurrency],
    in range, with the counter at 0.  So the level climbs by one per quiet
    tick and stays at [maxConcurrency] once there. *)
Theorem adjustConcurrency_recovers :
  (forall st n,
      BuilderA.valid st ->
      Nat.iter (S n) BuilderA.adjustConcurrency st
      = BuilderA.MkState
          (Z.min (BuilderA.concurrency (BuilderA.adjustConcurrency st)
                  + Z.of_nat n) BuilderA.maxConcurrency) 0
      /\ BuilderA.valid (Nat.iter (S n) BuilderA.adjustConcurrency st))
  /\ (forall st n,
        BuilderB.valid st ->
        Nat.iter (S n) BuilderB.adjustConcurrency st
        = BuilderB.MkState
            (Z.min (BuilderB.concurrency (BuilderB.adjustConcurrency st)
                    + Z.of_nat n) BuilderB.maxConcurrency) 0
        /\ BuilderB.valid (Nat.iter (S n) BuilderB.adjustConcurrency st)).
Proof.
  split; intros st n Hvalid.
  - pose proof (BuilderA_adjust_valid st Hvalid) as [[H1 H2] _].
    assert (Heq : Nat.iter (S n) BuilderA.adjustConcurrency st
                  = Nat.iter n BuilderA.adjustConcurrency
                      (BuilderA.adjustConcurrency st))
      by apply Nat.iter_succ_r.
    rewrite Heq, iter_adjust_A by (try reflexivity; exact H2).
    split; [reflexivity|].
    remember (BuilderA.concurrency (BuilderA.adjustConcurrency st)) as c'.
    unfold BuilderA.valid, BuilderA.maxConcurrency in *. cbn [BuilderA.concurrency BuilderA.error429Count].
    lia.
  - pose proof (BuilderB_adjust_valid st Hvalid) as [[H1 H2] _].
    assert (Heq : Nat.iter (S n) BuilderB.adjustConcurrency st
                  = Nat.iter n BuilderB.adjustConcurrency
                      (BuilderB.adjustConcurrency st))
      by apply Nat.iter_succ_r.
    rewrite Heq, iter_adjust_B by (try reflexivity; exact H2).
    split; [reflexivity|].
    remember (BuilderB.concurrency (BuilderB.adjustConcurrency st)) as c'.
    unfold BuilderB.valid, BuilderB.maxConcurrency in *. cbn [BuilderB.concurrency BuilderB.error429].
    lia.
Qed.

(** From level 6 with four errors recorded: down to 2, then up to 8 after
    six quiet ticks and still 8 after nine. *)
Lemma adjustConcurrency_recovers_witness :
  BuilderB.concurrency
    (Nat.iter 7 BuilderB.adjustConcurrency (BuilderB.MkState 6 4)) = 8
  /\ BuilderB.concurrency
       (Nat.iter 10 BuilderB.adjustConcurrency (BuilderB.MkState 6 4)) = 8.
Proof.
  destruct adjustConcurrency_recovers as [_ HB].
  assert (Hvalid : BuilderB.valid (BuilderB.MkState 6 4))
    by (unfold BuilderB.valid, BuilderB.maxConcurrency; simpl; lia).
  split.
  - rewrite (proj1 (HB (BuilderB.MkState 6 4) 6%nat Hvalid)). reflexivity.
  - rewrite (proj1 (HB (BuilderB.MkState 6 4) 9%nat Hvalid)). reflexivity.
Defined.

Lemma count_429_nonneg {V} (res : list (option (settled V))) : 0 <= count_429 res.
Proof. unfold count_429. lia. Qed.


Section BatchMore.
Context {T V : Type}.




End BatchMore.



Lemma iter_adjust_valid_A n st :
  BuilderA.valid st -> BuilderA.valid (Nat.iter n BuilderA.adjustConcurrency st).
Proof.
  intros H. induction n as [|n IH]; simpl; [exact H|].
  by apply BuilderA_adjust_valid.
Qed.

Lemma iter_adjust_valid_B n st :
  BuilderB.valid st -> BuilderB.valid (Nat.iter n BuilderB.adjustConcurrency st).
Proof.
  intros H. induction n as [|n IH]; simpl; [exact H|].
  by apply BuilderB_adjust_valid.
Qed.

Section BatchRange.
Context {T V : Type}.
Variable ticks : nat -> nat.

Lemma processA_valid
    (pool : list T -> Z -> BuilderA.state
            -> list (option (settled V)) * BuilderA.state)
    (concurrency : Z) :
  (forall batch limit s,
      BuilderA.valid s -> BuilderA.valid (snd (pool batch limit s))) ->
  forall batches index st,
    BuilderA.valid st ->
    BuilderA.valid
      (snd (fst (BuilderA.process pool ticks batches index concurrency st))).
Proof.
  intros Hpool. induction batches as [|batch rest IH]; intros index st Hvalid;
    simpl; [exact Hvalid|].
  pose proof (Hpool batch concurrency st Hvalid) as H1.
  destruct (pool batch concurrency st) as [batchResults st1]. cbn [snd] in H1.
  match goal with
  | |- context [BuilderA.process pool ticks rest (S index) concurrency ?s] =>
      assert (Hs : BuilderA.valid s)
  end.
  { assert (H2 : BuilderA.valid
                   (if 0 <? count_429 batchResults
                    then BuilderA.adjustConcurrency
                           {| BuilderA.concurrency := BuilderA.concurrency st1;
                              BuilderA.error429Count :=
                                BuilderA.error429Count st1
                                + count_429 batchResults |}
                    else st1)).
    { destruct (0 <? count_429 batchResults); [|exact H1].
      apply BuilderA_adjust_valid.
      pose proof (count_429_nonneg batchResults).
      unfold BuilderA.valid in *. simpl. lia. }
    destruct rest; [exact H2 | by apply iter_adjust_valid_A]. }
  specialize (IH (S index) _ Hs).
  destruct (BuilderA.process pool ticks rest (S index) concurrency _)
    as [[results st2] launches].
  exact IH.
Qed.

Lemma processB_valid
    (pool : list T -> Z -> BuilderB.state
            -> list (option (settled V)) * BuilderB.state)
    (tasks : list T) :
  (forall batch limit s,
      BuilderB.valid s -> BuilderB.valid (snd (pool batch limit s))) ->
  forall fuel i st,
    BuilderB.valid st ->
    BuilderB.valid
      (snd (fst (BuilderB.processBatches_from pool ticks fuel i tasks st)))
    /\ Forall (fun l => 1 <= limit_used l <= BuilderB.maxConcurrency)
         (snd (BuilderB.processBatches_from pool ticks fuel i tasks st)).
Proof.
  intros Hpool. induction fuel as [|fuel IH]; intros i st Hvalid;
    cbn [BuilderB.processBatches_from]; [split; [exact Hvalid | constructor]|].
  case_decide; [|split; [exact Hvalid | constructor]].
  pose proof (Hpool (take BuilderB.batchSize (drop i tasks))
                (BuilderB.concurrency st) st Hvalid) as H1.
  destruct (pool _ _ st) as [r st1]. cbn [snd] in H1.
  match goal with
  | |- context [BuilderB.processBatches_from pool ticks fuel ?j tasks ?s] =>
      assert (Hs : BuilderB.valid s); [|specialize (IH j _ Hs)]
  end.
  { assert (H2 : BuilderB.valid
                   (if count_429 r =? 0 then st1
                    else BuilderB.adjustConcurrency
                           {| BuilderB.concurrency := BuilderB.concurrency st1;
                              BuilderB.error429 :=
                                BuilderB.error429 st1 + count_429 r |})).
    { destruct (count_429 r =? 0); [exact H1|].
      apply BuilderB_adjust_valid.
      pose proof (count_429_nonneg r).
      unfold BuilderB.valid in *. simpl. lia. }
    case_decide; [by apply iter_adjust_valid_B | exact H2]. }
  destruct IH as [IH1 IH2].
  destruct (BuilderB.processBatches_from pool ticks fuel _ tasks _)
    as [[results st2] launches].
  cbn [fst snd] in *. split; [exact IH1|].
  constructor; [|exact IH2]. simpl. apply Hvalid.
Qed.

End BatchRange.

(** X13.  The batch scheduler never launches the pool with a limit
    outside [1, maxConcurrency], and leaves the controller in range: from
    a state in range, with a pool that keeps the state in range (its tasks
    only record 429s, the timer only adjusts), every batch of either
    version is run with a limit between 1 and [maxConcurrency], and the
    state after [processBatches] is in range. *)
Theorem processBatches_limits_in_range {T V : Type} (ticks : nat -> nat)
    (tasks : list T) :
  (forall (pool : list T -> Z -> BuilderA.state
                  -> list (option (settled V)) * BuilderA.state)
          (st : BuilderA.state),
      BuilderA.valid st ->
      (forall batch limit s,
          BuilderA.valid s -> BuilderA.valid (snd (pool batch limit s))) ->
      let '(_, st', launches) := BuilderA.runBatches pool ticks tasks st in
      BuilderA.valid st'
      /\ Forall (fun l => 1 <= limit_used l <= BuilderA.maxConcurrency) launches)
  /\ (forall (pool : list T -> Z -> BuilderB.state
                     -> list (option (settled V)) * BuilderB.state)
             (st : BuilderB.state),
        BuilderB.valid st ->
        (forall batch limit s,
            BuilderB.valid s -> BuilderB.valid (snd (pool batch limit s))) ->
        let '(_, st', launches) := BuilderB.processBatches pool ticks tasks st in
        BuilderB.valid st'
        /\ Forall (fun l => 1 <= limit_used l <= BuilderB.maxConcurrency)
             launches).
Proof.
  split.
  - intros pool st Hvalid Hpool.
    unfold BuilderA.runBatches, BuilderA.processBatches.
    pose proof (processA_valid ticks pool (BuilderA.concurrency st) Hpool
                  (BuilderA.make_batches (length tasks) tasks) 0%nat st Hvalid)
      as H1.
    pose proof (processA_limit pool ticks (BuilderA.concurrency st)
                  (BuilderA.make_batches (length tasks) tasks) 0%nat st) as H2.
    destruct (BuilderA.process _ _ _ _ _ _) as [[results st'] launches].
    cbn [fst snd] in *. split; [exact H1|].
    eapply Forall_impl; [exact H2|]. intros l ->. apply Hvalid.
  - intros pool st Hvalid Hpool. unfold BuilderB.processBatches.
    destruct (processB_valid ticks pool tasks Hpool (length tasks) 0%nat st Hvalid)
      as [H1 H2].
    destruct (BuilderB.processBatches_from _ _ _ _ _ _)
      as [[results st'] launches].
    cbn [fst snd] in *. split; assumption.
Qed.

Lemma processBatches_limits_in_range_witness :
  let '(_, st', launches) :=
    BuilderB.processBatches
      (fun batch limit st =>
         (map (fun _ : unit =>
                 Some (Rejected (V := unit)
                         (MkApiError "DELETE comeths failed (429)" (Some 429)
                            NoHeaders))) batch,
          st))
      (fun _ => 2%nat) (replicate 61 tt) BuilderB.initial in
  BuilderB.valid st'
  /\ Forall (fun l => 1 <= limit_used l <= BuilderB.maxConcurrency) launches.
Proof.
  apply (proj2 (processBatches_limits_in_range (fun _ => 2%nat)
                  (replicate 61 tt))).
  - apply BuilderB_initial_valid.
  - intros batch limit s Hs. exact Hs.
Defined.

(* --------------------------------------------------------------------- *)
(** ** Tokens of the goal map                                             *)
(* --------------------------------------------------------------------- *)

(** The two token tests, spelled out. *)
Lemma isSoloonToken_cases t :
  isSoloonToken t
  = (String.eqb t "RED_SOLOON" || String.eqb t "BLUE_SOLOON"
     || String.eqb t "PURPLE_SOLOON" || String.eqb t "WHITE_SOLOON")%bool.
Proof.
  unfold isSoloonToken, SOLOON. cbn.
  repeat rewrite orb_assoc. by rewrite orb_false_r.
Qed.

Lemma isComethToken_cases t :
  isComethToken t
  = (String.eqb t "UP_COMETH" || String.eqb t "DOWN_COMETH"
     || String.eqb t "LEFT_COMETH" || String.eqb t "RIGHT_COMETH")%bool.
Proof.
  unfold isComethToken, COMETH. cbn.
  repeat rewrite orb_assoc. by rewrite orb_false_r.
Qed.

(** Splits on whether [t] is one of the nine tokens, replacing it by the
    literal when it is. *)
Ltac token_cases t :=
  repeat match goal with
         | |- context [String.eqb t ?lit] =>
             destruct (String.eqb_spec t lit) as [->|?]
         end.

Lemma createFromToken_switch (token : string) (r c : nat) :
  create_by_switch token r c = Reconcile.createFromToken token r c.
Proof.
  unfold create_by_switch, Reconcile.createFromToken.
  rewrite isSoloonToken_cases, isComethToken_cases.
  token_cases token; reflexivity.
Qed.

Lemma isSame_empty_cell (token : string) :
  Reconcile.isSame token None = String.eqb token "SPACE".
Proof.
  unfold Reconcile.isSame.
  by rewrite !andb_false_r, !orb_false_r, andb_true_r.
Qed.

(** X14.  The three translations of a goal token agree on every string:
    the [switch] of the first builder, [createFromToken] of the second
    (which recognises tokens by [isSoloonToken] and [isComethToken] and
    computes the colour or direction from the token), and [parseCell] of
    the domain model produce the same kind of object with the same
    coordinates and the same colour or direction, and nothing for any
    other string ([SPACE] included). *)
Theorem token_translations_agree (token : string) (r c : nat) :
  create_by_switch token r c = Reconcile.createFromToken token r c
  /\ parseCell token r c
     = match Reconcile.createFromToken token r c with
       | CreatePolyanet row column => Some (Polyanet row column)
       | CreateSoloon row column color => Some (Soloon row column color)
       | CreateCometh row column direction =>
           Some (Cometh row column direction)
       | _ => None
       end.
Proof.
  split; [apply createFromToken_switch|].
  unfold Reconcile.createFromToken, parseCell.
  rewrite isSoloonToken_cases, isComethToken_cases.
  token_cases token; reflexivity.
Qed.

(** X15.  [isSame] and [createFromToken] are two readings of one table:
    a cell of the current map counts as matching the goal token exactly
    when it is the object that [createFromToken] would create for the
    token, and an empty cell matches only [SPACE].  So a token that is
    none of the ten known ones matches no cell at all, while nothing is
    created for it. *)
Theorem isSame_iff_createFromToken (token : string) (r c : nat) :
  (Reconcile.isSame token (Some PolyanetCell) = true
   <-> Reconcile.createFromToken token r c = CreatePolyanet r c)
  /\ (forall color,
        Reconcile.isSame token (Some (SoloonCell color)) = true
        <-> Reconcile.createFromToken token r c = CreateSoloon r c color)
  /\ (forall direction,
        Reconcile.isSame token (Some (ComethCell direction)) = true
        <-> Reconcile.createFromToken token r c = CreateCometh r c direction)
  /\ (Reconcile.isSame token None = true <-> token = "SPACE"%string).
Proof.
  unfold Reconcile.isSame, Reconcile.createFromToken.
  rewrite isSoloonToken_cases, isComethToken_cases.
  repeat split.
  all: try (intros H; revert H).
  all: token_cases token; cbn; try tauto; try congruence; try discriminate.
  all: try (rewrite String.eqb_eq; congruence).
  all: try (intros [= <-]; reflexivity).
  all: rewrite ?orb_false_r, String.eqb_eq; congruence.
Qed.

(* --------------------------------------------------------------------- *)
(** ** Reconciling the current map with the goal                          *)
(* --------------------------------------------------------------------- *)

Lemma cell_todo_same token have r c :
  Reconcile.isSame token have = true -> Reconcile.cell_todo token have r c = [].
Proof. unfold Reconcile.cell_todo. by intros ->. Qed.

Lemma cell_todo_elem token have r c item :
  item ∈ Reconcile.cell_todo token have r c
  <-> Reconcile.isSame token have = false
      /\ (item = Reconcile.Create token r c
          \/ exists h, have = Some h /\ item = Reconcile.Remove h r c).
Proof.
  unfold Reconcile.cell_todo.
  destruct (Reconcile.isSame token have).
  - split; [by intros ?%elem_of_nil | by intros [? _]].
  - destruct have as [h|]; cbn.
    + rewrite elem_of_cons, list_elem_of_singleton. split.
      * intros [->| ->]; (split; [done|]); [right; by exists h | by left].
      * intros [_ [->|(h' & [= <-] & ->)]]; [by right | by left].
    + rewrite list_elem_of_singleton. split.
      * intros ->. split; [done | by left].
      * intros [_ [->|(h' & [=] & _)]]. done.
Qed.

(** A row contributes the tasks of its cells, from left to right. *)
Lemma row_todo_split row crow r : forall c0 j token,
  row !! j = Some token ->
  exists pre post,
    Reconcile.row_todo row crow r c0
    = pre ++ Reconcile.cell_todo token (mjoin (crow !! (c0 + j)%nat)) r
               (c0 + j) ++ post.
Proof.
  induction row as [|t row IH]; intros c0 j token Hj; [done|].
  destruct j as [|j]; cbn in Hj.
  - injection Hj as ->. exists [], (Reconcile.row_todo row crow r (S c0)).
    cbn. by rewrite Nat.add_0_r.
  - destruct (IH (S c0) j token Hj) as (pre & post & E).
    exists (Reconcile.cell_todo t (mjoin (crow !! c0)) r c0 ++ pre), post.
    cbn. rewrite E. replace (S c0 + j)%nat with (c0 + S j)%nat by lia.
    by rewrite <- app_assoc.
Qed.

Lemma row_todo_elem row crow r item : forall c0,
  item ∈ Reconcile.row_todo row crow r c0
  -> exists j token,
       row !! j = Some token
       /\ item ∈ Reconcile.cell_todo token (mjoin (crow !! (c0 + j)%nat)) r
                   (c0 + j).
Proof.
  induction row as [|t row IH]; intros c0; cbn; [by intros ?%elem_of_nil|].
  rewrite elem_of_app. intros [H|H].
  - exists 0%nat, t. by rewrite Nat.add_0_r.
  - destruct (IH _ H) as (j & token & Hj & Hin).
    exists (S j), token. split; [done|].
    by replace (c0 + S j)%nat with (S c0 + j)%nat by lia.
Qed.

Lemma syncWithGoal_from_total goal current : forall r0,
  (r0 + length goal <= length current)%nat ->
  is_Some (Reconcile.syncWithGoal_from goal current r0).
Proof.
  induction goal as [|row goal IH]; intros r0 Hlen; cbn; [by eexists|].
  cbn in Hlen.
  destruct (IH (S r0)) as [rest E]; [lia|].
  destruct (lookup_lt_is_Some_2 current r0) as [crow Ec]; [lia|].
  rewrite Ec, E. destruct row; by eexists.
Qed.

Lemma syncWithGoal_from_split goal current : forall r0 todo i row j token,
  Reconcile.syncWithGoal_from goal current r0 = Some todo ->
  goal !! i = Some row ->
  row !! j = Some token ->
  exists pre post,
    todo = pre ++ Reconcile.cell_todo token (cell_at current (r0 + i) j)
                    (r0 + i) j ++ post.
Proof.
  induction goal as [|row0 goal IH]; intros r0 todo i row j token E Hi Hj;
    [done|].
  cbn in E.
  destruct (Reconcile.syncWithGoal_from goal current (S r0)) as [rest|] eqn:Er.
  2: { destruct row0, (current !! r0); discriminate. }
  assert (Et : todo = Reconcile.row_todo row0 (default [] (current !! r0)) r0 0
                      ++ rest).
  { destruct row0, (current !! r0); first [discriminate | by injection E as <-]. }
  destruct i as [|i]; cbn in Hi.
  - injection Hi as ->.
    destruct (row_todo_split row (default [] (current !! r0)) r0 0 j token Hj)
      as (pre & post & E1).
    exists pre, (post ++ rest). rewrite Et, E1, Nat.add_0_r.
    unfold cell_at. cbn. by rewrite <- !app_assoc.
  - destruct (IH (S r0) rest i row j token Er Hi Hj) as (pre & post & E1).
    exists (Reconcile.row_todo row0 (default [] (current !! r0)) r0 0 ++ pre),
      post.
    rewrite Et, E1. replace (r0 + S i)%nat with (S r0 + i)%nat by lia.
    by rewrite <- app_assoc.
Qed.

Lemma syncWithGoal_from_elem goal current item : forall r0 todo,
  Reconcile.syncWithGoal_from goal current r0 = Some todo ->
  item ∈ todo ->
  exists i row j token,
    goal !! i = Some row /\ row !! j = Some token
    /\ item ∈ Reconcile.cell_todo token (cell_at current (r0 + i) j)
                (r0 + i) j.
Proof.
  induction goal as [|row0 goal IH]; intros r0 todo E Hin; cbn in E.
  { injection E as <-. by apply elem_of_nil in Hin. }
  destruct (Reconcile.syncWithGoal_from goal current (S r0)) as [rest|] eqn:Er.
  2: { destruct row0, (current !! r0); discriminate. }
  assert (Et : todo = Reconcile.row_todo row0 (default [] (current !! r0)) r0 0
                      ++ rest).
  { destruct row0, (current !! r0); first [discriminate | by injection E as <-]. }
  subst todo. apply elem_of_app in Hin as [Hin|Hin].
  - apply row_todo_elem in Hin as (j & token & Hj & Hin).
    exists 0%nat, row0, j, token. rewrite Nat.add_0_r. by repeat split.
  - destruct (IH _ _ Er Hin) as (i & row & j & token & Hi & Hj & Hc).
    exists (S i), row, j, token.
    replace (r0 + S i)%nat with (S r0 + i)%nat by lia. by repeat split.
Qed.

(** The tasks of one cell are all at its position. *)
Lemma cell_todo_filter token have r c (p : nat * nat) :
  filter (fun item => Reconcile.position item = p)
    (Reconcile.cell_todo token have r c)
  = if decide ((r, c) = p) then Reconcile.cell_todo token have r c else [].
Proof.
  unfold Reconcile.cell_todo.
  destruct (Reconcile.isSame token have); [by destruct (decide _)|].
  destruct have as [h|]; cbn [app];
    rewrite ?filter_cons, ?filter_nil; cbn [Reconcile.position];
    destruct (decide ((r, c) = p)); reflexivity.
Qed.

Lemma row_todo_filter row crow r r' c' : forall c0,
  filter (fun item => Reconcile.position item = (r', c'))
    (Reconcile.row_todo row crow r c0)
  = if decide (r = r' /\ c0 <= c')%nat then
      match row !! (c' - c0)%nat with
      | Some token => Reconcile.cell_todo token (mjoin (crow !! c')) r c'
      | None => []
      end
    else [].
Proof.
  induction row as [|t row IH]; intros c0; cbn [Reconcile.row_todo].
  { rewrite filter_nil. by destruct (decide _). }
  rewrite filter_app, cell_todo_filter, IH.
  destruct (decide ((r, c0) = (r', c'))) as [Heq|Hne],
    (decide (r = r' /\ S c0 <= c')%nat) as [Hnext|Hnext],
    (decide (r = r' /\ c0 <= c')%nat) as [Hhere|Hhere];
    try (exfalso; injection Heq as <- <-; lia);
    try (exfalso; lia).
  - injection Heq as <- <-. rewrite Nat.sub_diag, app_nil_r. reflexivity.
  - replace (c' - c0)%nat with (S (c' - S c0)) by lia. reflexivity.
  - exfalso. apply Hne. f_equal; lia.
  - reflexivity.
Qed.

Lemma syncWithGoal_from_filter goal current r' c' : forall r0 todo,
  Reconcile.syncWithGoal_from goal current r0 = Some todo ->
  filter (fun item => Reconcile.position item = (r', c')) todo
  = if decide (r0 <= r')%nat then
      match goal !! (r' - r0)%nat with
      | Some row =>
          match row !! c' with
          | Some token =>
              Reconcile.cell_todo token (cell_at current r' c') r' c'
          | None => []
          end
      | None => []
      end
    else [].
Proof.
  induction goal as [|row0 goal IH]; intros r0 todo E; cbn in E.
  { injection E as <-. rewrite filter_nil. by destruct (decide _). }
  destruct (Reconcile.syncWithGoal_from goal current (S r0)) as [rest|] eqn:Er.
  2: { destruct row0, (current !! r0); discriminate. }
  assert (Et : todo = Reconcile.row_todo row0 (default [] (current !! r0)) r0 0
                      ++ rest).
  { destruct row0, (current !! r0); first [discriminate | by injection E as <-]. }
  subst todo. rewrite filter_app, row_todo_filter, (IH _ _ Er).
  rewrite Nat.sub_0_r.
  destruct (decide (r0 = r' /\ 0 <= c')%nat) as [Hhere|Hhere],
    (decide (S r0 <= r')%nat) as [Hnext|Hnext],
    (decide (r0 <= r')%nat) as [Hle|Hle];
    try (exfalso; lia).
  - destruct Hhere as [<- _]. rewrite Nat.sub_diag, app_nil_r. reflexivity.
  - replace (r' - r0)%nat with (S (r' - S r0)) by lia. reflexivity.
  - reflexivity.
Qed.

(** X16.  [syncWithGoal] computes a minimal diff.  When the current map
    has a row for every row of the goal, the list of tasks it hands to the
    pool is defined, and
    - every task works on a cell that does not match its goal token: a
      delete removes the object that is there, a create is for the goal
      token of the cell; a matching cell is never touched;
    - a mismatching cell that holds an object gets its delete immediately
      followed by its create, a mismatching empty cell gets its create;
    - the tasks at a position are exactly those, once each: none for a
      matching cell or outside the goal; one delete then one create for a
      mismatching cell that holds an object; one create for a mismatching
      empty cell;
    - the list is empty exactly when every cell matches. *)
Theorem syncWithGoal_minimal_diff (goal : list (list string))
    (current : list (list (option cell))) :
  (length goal <= length current)%nat ->
  exists todo,
    Reconcile.syncWithGoal_todo goal current = Some todo
    /\ (forall item,
          item ∈ todo ->
          exists r c row token,
            goal !! r = Some row /\ row !! c = Some token
            /\ Reconcile.isSame token (cell_at current r c) = false
            /\ (item = Reconcile.Create token r c
                \/ exists have,
                     cell_at current r c = Some have
                     /\ item = Reconcile.Remove have r c))
    /\ (forall r c row token,
          goal !! r = Some row -> row !! c = Some token ->
          Reconcile.isSame token (cell_at current r c) = false ->
          exists pre post,
            todo = pre ++ match cell_at current r c with
                          | Some have => [Reconcile.Remove have r c]
                          | None => []
                          end ++ Reconcile.Create token r c :: post)
    /\ (forall r c,
          filter (fun item => Reconcile.position item = (r, c)) todo
          = match goal !! r with
            | Some row =>
                match row !! c with
                | Some token =>
                    if Reconcile.isSame token (cell_at current r c) then []
                    else match cell_at current r c with
                         | Some have =>
                             [Reconcile.Remove have r c;
                              Reconcile.Create token r c]
                         | None => [Reconcile.Create token r c]
                         end
                | None => []
                end
            | None => []
            end)
    /\ (todo = []
        <-> forall r c row token,
              goal !! r = Some row -> row !! c = Some token ->
              Reconcile.isSame token (cell_at current r c) = true).
Proof.
  intros Hlen. unfold Reconcile.syncWithGoal_todo.
  destruct (syncWithGoal_from_total goal current 0) as [todo E]; [lia|].
  exists todo. split; [exact E|].
  assert (Hitems : forall item,
             item ∈ todo ->
             exists r c row token,
               goal !! r = Some row /\ row !! c = Some token
               /\ Reconcile.isSame token (cell_at current r c) = false
               /\ (item = Reconcile.Create token r c
                   \/ exists have,
                        cell_at current r c = Some have
                        /\ item = Reconcile.Remove have r c)).
  { intros item Hin.
    destruct (syncWithGoal_from_elem goal current item 0 todo E Hin)
      as (i & row & j & token & Hi & Hj & Hc).
    cbn in Hc. apply cell_todo_elem in Hc as [Hs Hc].
    exists i, j, row, token. by repeat split. }
  assert (Hcells : forall r c row token,
             goal !! r = Some row -> row !! c = Some token ->
             Reconcile.isSame token (cell_at current r c) = false ->
             exists pre post,
               todo = pre ++ match cell_at current r c with
                             | Some have => [Reconcile.Remove have r c]
                             | None => []
                             end ++ Reconcile.Create token r c :: post).
  { intros r c row token Hr Hc Hs.
    destruct (syncWithGoal_from_split goal current 0 todo r row c token E Hr Hc)
      as (pre & post & E1).
    cbn in E1. unfold Reconcile.cell_todo in E1. rewrite Hs in E1.
    exists pre, post. rewrite E1. by rewrite <- app_assoc. }
  split; [exact Hitems|]. split; [exact Hcells|]. split; [|split].
  - intros r c.
    rewrite (syncWithGoal_from_filter goal current r c 0 todo E).
    rewrite decide_True by lia. rewrite Nat.sub_0_r.
    destruct (goal !! r) as [row|]; [|reflexivity].
    destruct (row !! c) as [token|]; [|reflexivity].
    unfold Reconcile.cell_todo.
    destruct (Reconcile.isSame token (cell_at current r c)); [reflexivity|].
    by destruct (cell_at current r c).
  - intros -> r c row token Hr Hc.
    destruct (Reconcile.isSame token (cell_at current r c)) eqn:Hs; [done|].
    destruct (Hcells r c row token Hr Hc Hs) as (pre & post & E1).
    destruct pre, (cell_at current r c); discriminate.
  - intros Hall. destruct todo as [|item todo]; [done|].
    destruct (Hitems item) as (r & c & row & token & Hr & Hc & Hs & _);
      [apply list_elem_of_here|].
    rewrite (Hall r c row token Hr Hc) in Hs. discriminate.
Qed.

Lemma syncWithGoal_minimal_diff_witness :
  exists todo,
    Reconcile.syncWithGoal_todo
      [["SPACE"; "POLYANET"]; ["RED_SOLOON"; "UP_COMETH"]]%string
      [[None; None]; [Some (SoloonCell "blue"); Some (ComethCell "up")]]
    = Some todo
    /\ todo = [Reconcile.Create "POLYANET" 0 1;
               Reconcile.Remove (SoloonCell "blue") 1 0;
               Reconcile.Create "RED_SOLOON" 1 0].
Proof.
  destruct (syncWithGoal_minimal_diff
              [["SPACE"; "POLYANET"]; ["RED_SOLOON"; "UP_COMETH"]]%string
              [[None; None]; [Some (SoloonCell "blue"); Some (ComethCell "up")]])
    as (todo & E & _); [simpl; lia|].
  exists todo. split; [exact E|].
  vm_compute in E. by injection E as <-.
Defined.

(* --------------------------------------------------------------------- *)
(** ** Deleting everything                                                *)
(* --------------------------------------------------------------------- *)

Lemma row_deletes_elem row r call : forall c0,
  call ∈ Reconcile.row_deletes row r c0
  <-> exists j have,
        mjoin (row !! j) = Some have /\ call = delete_call have r (c0 + j).
Proof.
  induction row as [|x row IH]; intros c0; cbn.
  - split; [by intros ?%elem_of_nil | by intros (j & have & [=] & _)].
  - assert (Hshift : (exists j have,
                         mjoin (row !! j) = Some have
                         /\ call = delete_call have r (S c0 + j))
                     <-> exists j have,
                           mjoin ((x :: row) !! S j) = Some have
                           /\ call = delete_call have r (c0 + S j)).
    { split; intros (j & have & Hj & ->); exists j, have; (split; [done|]);
        f_equal; lia. }
    destruct x as [h|].
    + rewrite elem_of_cons, IH, Hshift. split.
      * intros [->|(j & have & Hj & ->)].
        -- exists 0%nat, h. by rewrite Nat.add_0_r.
        -- by exists (S j), have.
      * intros ([|j] & have & Hj & ->).
        -- left. cbn in Hj. injection Hj as <-. by rewrite Nat.add_0_r.
        -- right. by exists j, have.
    + rewrite IH, Hshift. split.
      * intros (j & have & Hj & ->). by exists (S j), have.
      * intros ([|j] & have & Hj & ->); [done|]. by exists j, have.
Qed.

Lemma toDeleteTasks_from_elem grid call : forall r0,
  call ∈ Reconcile.toDeleteTasks_from grid r0
  <-> exists i c have,
        cell_at grid i c = Some have /\ call = delete_call have (r0 + i) c.
Proof.
  induction grid as [|row grid IH]; intros r0; cbn.
  - split; [by intros ?%elem_of_nil | by intros (i & c & have & [=] & _)].
  - rewrite elem_of_app, row_deletes_elem, IH. split.
    + intros [(j & have & Hj & ->)|(i & c & have & Hc & ->)].
      * exists 0%nat, j, have. by rewrite Nat.add_0_r.
      * exists (S i), c, have. split; [exact Hc | f_equal; lia].
    + intros ([|i] & c & have & Hc & ->).
      * left. exists c, have. by rewrite Nat.add_0_r.
      * right. exists i, c, have. split; [exact Hc | f_equal; lia].
Qed.

Lemma delete_call_position have have' r c r' c' :
  delete_call have r c = delete_call have' r' c' -> r = r' /\ c = c'.
Proof. destruct have, have'; cbn; intros [=]; by subst. Qed.

Lemma row_deletes_NoDup row r : forall c0,
  NoDup (Reconcile.row_deletes row r c0).
Proof.
  induction row as [|x row IH]; intros c0; cbn; [constructor|].
  destruct x as [h|]; [|apply IH].
  constructor; [|apply IH].
  intros (j & have & _ & Heq)%row_deletes_elem.
  apply delete_call_position in Heq as [_ Hc]. lia.
Qed.

Lemma toDeleteTasks_from_NoDup grid : forall r0,
  NoDup (Reconcile.toDeleteTasks_from grid r0).
Proof.
  induction grid as [|row grid IH]; intros r0; cbn; [constructor|].
  apply NoDup_app. split; [apply row_deletes_NoDup|]. split; [|apply IH].
  intros call (j & have & _ & ->)%row_deletes_elem
    (i & c & have' & _ & Heq)%toDeleteTasks_from_elem.
  apply delete_call_position in Heq as [Hr _]. lia.
Qed.

Lemma row_deletes_length row r : forall c0,
  length (Reconcile.row_deletes row r c0) = length (omap id row).
Proof.
  induction row as [|x row IH]; intros c0; cbn; [reflexivity|].
  destruct x as [h|]; cbn; by rewrite IH.
Qed.

Lemma toDeleteTasks_from_length grid : forall r0,
  length (Reconcile.toDeleteTasks_from grid r0)
  = length (omap id (concat grid)).
Proof.
  induction grid as [|row grid IH]; intros r0; cbn; [reflexivity|].
  rewrite length_app, row_deletes_length, IH, omap_app, length_app.
  reflexivity.
Qed.

(** X17.  [toDeleteTasks] issues exactly one kind of call, the delete
    that fits what is on the map: a call is in the list exactly when it is
    the delete, of the kind of the object ([polyanets], [soloons] or
    [comeths]), for a cell of the grid that holds one; no call occurs
    twice, so that the list has one task for each cell that holds an
    object and its length is the number of such cells; the list is empty
    exactly when every cell is [null], a grid without rows included. *)
Theorem toDeleteTasks_covers_map (grid : list (list (option cell))) :
  (forall call,
      call ∈ Reconcile.toDeleteTasks grid
      <-> exists r c have,
            cell_at grid r c = Some have /\ call = delete_call have r c)
  /\ NoDup (Reconcile.toDeleteTasks grid)
  /\ length (Reconcile.toDeleteTasks grid) = length (omap id (concat grid))
  /\ (Reconcile.toDeleteTasks grid = []
      <-> forall r c, cell_at grid r c = None).
Proof.
  assert (H : forall call,
             call ∈ Reconcile.toDeleteTasks grid
             <-> exists r c have,
                   cell_at grid r c = Some have /\ call = delete_call have r c).
  { intros call. unfold Reconcile.toDeleteTasks.
    by rewrite toDeleteTasks_from_elem. }
  split; [exact H|].
  split; [apply toDeleteTasks_from_NoDup|].
  split; [apply toDeleteTasks_from_length|].
  split.
  - intros E r c. destruct (cell_at grid r c) as [have|] eqn:Hc; [|done].
    assert (Hin : delete_call have r c ∈ Reconcile.toDeleteTasks grid).
    { apply H. by exists r, c, have. }
    rewrite E in Hin. by apply elem_of_nil in Hin.
  - intros Hall. destruct (Reconcile.toDeleteTasks grid) as [|call l] eqn:E;
      [done|].
    assert (Hin : call ∈ call :: l) by apply list_elem_of_here.
    apply H in Hin as (r & c & have & Hc & _).
    rewrite Hall in Hc. discriminate.
Qed.

(* --------------------------------------------------------------------- *)
(** ** What [buildUniverse] creates                                       *)
(* --------------------------------------------------------------------- *)

Lemma createTodo_row_elem (row : list string) (crow : list (option cell))
    (r : nat) (call : api_call) :
  call ∈ Reconcile.createTodo_row (length row) row crow r
  <-> exists c token,
        row !! c = Some token
        /\ Reconcile.isSame token (mjoin (crow !! c)) = false
        /\ call = Reconcile.createFromToken token r c.
Proof.
  unfold Reconcile.createTodo_row.
  rewrite list_elem_of_In, in_flat_map. split.
  - intros (c & Hc%in_seq & Hin).
    destruct (lookup_lt_is_Some_2 row c) as [token Ht]; [lia|].
    rewrite Ht in Hin. cbn [Reconcile.createTodo_cell] in Hin.
    destruct (Reconcile.isSame token (mjoin (crow !! c))) eqn:Hs; [done|].
    destruct Hin as [<-|[]]. by exists c, token.
  - intros (c & token & Ht & Hs & ->). exists c. split.
    + apply in_seq. apply lookup_lt_Some in Ht. lia.
    + rewrite Ht. cbn [Reconcile.createTodo_cell]. rewrite Hs. by left.
Qed.

(** On a row of the current map without objects, the second version
    collects for a row of the goal what the first version does. *)
Lemma createTodo_row_blank (crow : list (option cell)) (r : nat)
    (row : list string) : forall pre : list string,
  (forall c, mjoin (crow !! c) = None) ->
  flat_map (fun c => Reconcile.createTodo_cell ((pre ++ row) !! c)
                       (mjoin (crow !! c)) r c)
    (seq (length pre) (length row))
  = rawTasks_row row r (length pre).
Proof.
  induction row as [|token row IH]; intros pre Hblank; [done|].
  cbn [length seq flat_map rawTasks_row].
  rewrite list_lookup_middle by done. cbn [Reconcile.createTodo_cell].
  rewrite Hblank, isSame_empty_cell, createFromToken_switch.
  f_equal.
  specialize (IH (pre ++ [token]) Hblank).
  rewrite <- app_assoc, length_app in IH. cbn in IH.
  by rewrite Nat.add_1_r in IH.
Qed.

Section CreateTodo.
Variable width : nat.
Variable current : list (list (option cell)).

Lemma createTodo_from_total goal : forall r0,
  (r0 + length goal <= length current)%nat ->
  is_Some (Reconcile.createTodo_from width goal current r0).
Proof.
  induction goal as [|row goal IH]; intros r0 Hlen; cbn; [by eexists|].
  cbn in Hlen.
  destruct (IH (S r0)) as [rest E]; [lia|].
  destruct (lookup_lt_is_Some_2 current r0) as [crow Ec]; [lia|].
  rewrite Ec, E. destruct width; by eexists.
Qed.

Lemma createTodo_from_unfold row goal r0 todo :
  Reconcile.createTodo_from width (row :: goal) current r0 = Some todo ->
  exists rest,
    Reconcile.createTodo_from width goal current (S r0) = Some rest
    /\ todo = Reconcile.createTodo_row width row (default [] (current !! r0)) r0
              ++ rest.
Proof.
  cbn [Reconcile.createTodo_from]. intros E.
  destruct (Reconcile.createTodo_from width goal current (S r0)) as [rest|].
  - exists rest. split; [done|].
    destruct width, (current !! r0); first [discriminate | by injection E as <-].
  - destruct width, (current !! r0); discriminate.
Qed.

Lemma createTodo_from_elem goal call : forall r0 todo,
  Forall (fun row : list string => length row = width) goal ->
  Reconcile.createTodo_from width goal current r0 = Some todo ->
  call ∈ todo
  <-> exists i c row token,
        goal !! i = Some row /\ row !! c = Some token
        /\ Reconcile.isSame token (cell_at current (r0 + i) c) = false
        /\ call = Reconcile.createFromToken token (r0 + i) c.
Proof.
  induction goal as [|row goal IH]; intros r0 todo Hrect E.
  { cbn in E. injection E as <-. split; [by intros ?%elem_of_nil|].
    by intros (i & c & row & token & [=] & _). }
  apply Forall_cons in Hrect as [Hrow Hrect].
  apply createTodo_from_unfold in E as (rest & Er & ->).
  rewrite elem_of_app, (IH _ _ Hrect Er), <- Hrow, createTodo_row_elem.
  unfold cell_at. split.
  - intros [(c & token & Ht & Hs & ->)|(i & c & row' & token & Hi & Ht & Hs & ->)].
    + exists 0%nat, c, row, token. by rewrite Nat.add_0_r.
    + exists (S i), c, row', token.
      replace (r0 + S i)%nat with (S r0 + i)%nat by lia. by repeat split.
  - intros ([|i] & c & row' & token & Hi & Ht & Hs & ->); cbn in Hi.
    + injection Hi as <-. left. exists c, token.
      by rewrite Nat.add_0_r in *.
    + right. exists i, c, row', token.
      replace (S r0 + i)%nat with (r0 + S i)%nat by lia. by repeat split.
Qed.

Lemma createTodo_from_blank goal : forall r0 todo,
  Forall (fun row : list string => length row = width) goal ->
  (forall r c, cell_at current r c = None) ->
  Reconcile.createTodo_from width goal current r0 = Some todo ->
  todo = rawTasks_from goal r0.
Proof.
  induction goal as [|row goal IH]; intros r0 todo Hrect Hblank E.
  { cbn in E. by injection E as <-. }
  apply Forall_cons in Hrect as [Hrow Hrect].
  apply createTodo_from_unfold in E as (rest & Er & ->).
  cbn [rawTasks_from]. rewrite <- (IH _ _ Hrect Hblank Er). f_equal.
  rewrite <- Hrow. unfold Reconcile.createTodo_row.
  apply (createTodo_row_blank (default [] (current !! r0)) r0 row []).
  intros c. apply (Hblank r0 c).
Qed.

End CreateTodo.

(** X18.  What the creation pass of the second [buildUniverse] creates.
    For a rectangular goal and a current map with a row for every row of
    the goal, the list [createTodo] is defined and holds exactly the
    creations, by [createFromToken], for the cells that do not match their
    goal token.  So it is empty after a [syncWithGoal] that found nothing
    to fix; and on a map without any object it is the list [rawTasks] that
    the first version of [buildUniverse] collects from the goal alone: one
    task for every cell whose token is not [SPACE]. *)
Theorem buildUniverse_creates_what_is_missing (goal : list (list string))
    (current : list (list (option cell))) :
  (length goal <= length current)%nat ->
  Forall (fun row => length row = length (default [] (head goal))) goal ->
  exists todo,
    Reconcile.createTodo goal current = Some todo
    /\ (forall call,
          call ∈ todo
          <-> exists r c row token,
                goal !! r = Some row /\ row !! c = Some token
                /\ Reconcile.isSame token (cell_at current r c) = false
                /\ call = Reconcile.createFromToken token r c)
    /\ (Reconcile.syncWithGoal_todo goal current = Some [] -> todo = [])
    /\ ((forall r c, cell_at current r c = None) ->
        todo = buildUniverse_rawTasks goal).
Proof.
  intros Hlen Hrect. unfold Reconcile.createTodo.
  destruct (createTodo_from_total (length (default [] (head goal))) current
              goal 0) as [todo E]; [lia|].
  exists todo. split; [exact E|].
  pose proof (fun call =>
                createTodo_from_elem _ current goal call 0 todo Hrect E)
    as Helem.
  cbn in Helem. split; [exact Helem|]. split.
  - intros Hsync. destruct todo as [|call todo]; [done|].
    destruct (proj1 (Helem call)) as (r & c & row & token & Hr & Hc & Hs & _);
      [apply list_elem_of_here|].
    destruct (syncWithGoal_from_split goal current 0 [] r row c token Hsync Hr Hc)
      as (pre & post & E1).
    cbn in E1. unfold Reconcile.cell_todo in E1. rewrite Hs in E1.
    destruct pre, (cell_at current r c); discriminate.
  - intros Hblank.
    exact (createTodo_from_blank _ current goal 0%nat todo Hrect Hblank E).
Qed.

Lemma buildUniverse_creates_what_is_missing_witness :
  exists todo,
    Reconcile.createTodo
      [["SPACE"; "POLYANET"]; ["RED_SOLOON"; "UP_COMETH"]]%string
      [[None; None]; [Some (SoloonCell "blue"); Some (ComethCell "up")]]
    = Some todo
    /\ todo = [CreatePolyanet 0 1; CreateSoloon 1 0 "red"].
Proof.
  destruct (buildUniverse_creates_what_is_missing
              [["SPACE"; "POLYANET"]; ["RED_SOLOON"; "UP_COMETH"]]%string
              [[None; None]; [Some (SoloonCell "blue"); Some (ComethCell "up")]])
    as (todo & E & _); [simpl; lia | repeat constructor|].
  exists todo. split; [exact E|].
  vm_compute in E. by injection E as <-.
Defined.

(* --------------------------------------------------------------------- *)
(** ** The progress logger                                                *)
(* --------------------------------------------------------------------- *)

Lemma div_succ (c i : Z) :
  0 < i -> 0 <= c ->
  (c + 1) / i = c / i + (if (c + 1) mod i =? 0 then 1 else 0).
Proof.
  intros Hi Hc.
  pose proof (Z.div_mod c i) as E1. pose proof (Z.div_mod (c + 1) i) as E2.
  pose proof (Z.mod_pos_bound c i Hi) as B1.
  pose proof (Z.mod_pos_bound (c + 1) i Hi) as B2.
  destruct (Z.eqb_spec ((c + 1) mod i) 0) as [E|E]; nia.
Qed.

Section LoggerFacts.
Variables total interval : Z.
Hypothesis interval_positive : 0 < interval.

Lemma lines_step calls count :
  0 <= count ->
  ProgressLogger.lines total interval (S calls) count
  = (if ((count + 1) mod interval =? 0) || (count + 1 =? total)
     then [(count + 1, total)] else [])
    ++ ProgressLogger.lines total interval calls (count + 1).
Proof.
  intros Hc. cbn [ProgressLogger.lines]. unfold ProgressLogger.logProgress.
  rewrite Z.rem_mod_nonneg by lia.
  by destruct (((count + 1) mod interval =? 0) || (count + 1 =? total)).
Qed.

Lemma lines_length calls : forall count,
  0 <= count ->
  Z.of_nat (length (ProgressLogger.lines total interval calls count))
  = (count + Z.of_nat calls) / interval - count / interval
    + (if (count <? total) && (total <=? count + Z.of_nat calls)
          && negb (total mod interval =? 0)
       then 1 else 0).
Proof.
  induction calls as [|calls IH]; intros count Hc.
  - cbn [ProgressLogger.lines length]. rewrite Z.add_0_r.
    destruct (Z.ltb_spec count total), (Z.leb_spec total count); cbn; lia.
  - rewrite lines_step, length_app, Nat2Z.inj_add, IH by lia.
    replace (count + 1 + Z.of_nat calls) with (count + Z.of_nat (S calls))
      by lia.
    rewrite (div_succ count interval) by lia.
    destruct (Z.eqb_spec ((count + 1) mod interval) 0) as [Em|Em];
      destruct (Z.eqb_spec (count + 1) total) as [Et|Et];
      destruct (Z.eqb_spec (total mod interval) 0) as [Ez|Ez];
      destruct (Z.ltb_spec count total), (Z.ltb_spec (count + 1) total),
               (Z.leb_spec total (count + Z.of_nat (S calls)));
      cbn; try lia; congruence.
Qed.

Lemma lines_last calls : forall count,
  0 <= count -> count + Z.of_nat (S calls) = total ->
  last (ProgressLogger.lines total interval (S calls) count)
  = Some (total, total).
Proof.
  induction calls as [|calls IH]; intros count Hc Ht.
  - rewrite lines_step by lia. cbn [ProgressLogger.lines].
    replace (count + 1 =? total) with true by (symmetry; apply Z.eqb_eq; lia).
    rewrite orb_true_r. cbn. f_equal. f_equal. lia.
  - rewrite lines_step by lia.
    rewrite last_app, IH by lia. reflexivity.
Qed.

Lemma lines_sound calls : forall count,
  0 <= count ->
  Forall (fun line => line.2 = total
                      /\ count < line.1 <= count + Z.of_nat calls
                      /\ (line.1 mod interval = 0 \/ line.1 = total))
    (ProgressLogger.lines total interval calls count).
Proof.
  induction calls as [|calls IH]; intros count Hc; [constructor|].
  rewrite lines_step by lia. apply Forall_app. split.
  - destruct (Z.eqb_spec ((count + 1) mod interval) 0) as [Em|Em];
      destruct (Z.eqb_spec (count + 1) total) as [Et|Et]; cbn;
      repeat constructor; cbn; lia.
  - eapply Forall_impl; [apply IH; lia|]. cbn. intros line. lia.
Qed.

End LoggerFacts.

(** X19.  What a progress logger prints over a whole run.  Called once
    per task ([total] calls, from a counter of 0) with a positive
    [interval], it prints one line at every multiple of [interval] and one
    at the last call, and nothing else: [total / interval] lines, plus one
    when [total] is not a multiple of [interval]; every line shows a count
    between 1 and [total] that is a multiple of [interval] or is [total];
    and when there is at least one task the last line printed is
    [total/total]. *)
Theorem createProgressLogger_lines (total interval : Z) :
  0 < interval -> 0 <= total ->
  let printed := ProgressLogger.lines total interval (Z.to_nat total) 0 in
  Z.of_nat (length printed)
  = total / interval + (if total mod interval =? 0 then 0 else 1)
  /\ Forall (fun line => line.2 = total
                         /\ 1 <= line.1 <= total
                         /\ (line.1 mod interval = 0 \/ line.1 = total))
       printed
  /\ (0 < total -> last printed = Some (total, total)).
Proof.
  intros Hi Ht printed. subst printed. split; [|split].
  - rewrite lines_length by lia. rewrite Z2Nat.id by lia.
    rewrite Z.div_0_l, Z.add_0_l, Z.sub_0_r by lia.
    destruct (Z.ltb_spec 0 total), (Z.leb_spec total total),
             (Z.eqb_spec (total mod interval) 0) as [Ez|Ez]; cbn; try lia.
    replace total with 0 in Ez by lia. rewrite Z.mod_0_l in Ez by lia. lia.
  - eapply Forall_impl; [apply lines_sound; lia|]. cbn. intros line. lia.
  - intros Hpos. destruct (Z.to_nat total) as [|calls] eqn:E; [lia|].
    apply lines_last; lia.
Qed.

Lemma createProgressLogger_lines_witness :
  ProgressLogger.lines 45 10 45 0
  = [(10, 45); (20, 45); (30, 45); (40, 45); (45, 45)]
  /\ Z.of_nat (length (ProgressLogger.lines 45 10 (Z.to_nat 45) 0))
     = 45 / 10 + (if 45 mod 10 =? 0 then 0 else 1).
Proof.
  split; [vm_compute; reflexivity|].
  apply (createProgressLogger_lines 45 10); lia.
Defined.

(* --------------------------------------------------------------------- *)
(** ** Failed requests and the retry predicate of the builder             *)
(* --------------------------------------------------------------------- *)

Lemma mentions_429_includes err :
  mentions_429 err = includes "429" (message err).
Proof. unfold mentions_429. by destruct (message err). Qed.

Lemma not_digit_neq (c d : ascii) :
  is_digit c = false -> is_digit d = true -> Ascii.eqb d c = false.
Proof.
  intros Hc Hd. destruct (Ascii.eqb_spec d c) as [->|]; [congruence | done].
Qed.

Lemma includes_429_cons c s :
  is_digit c = false -> includes "429" (String c s) = includes "429" s.
Proof.
  intros Hc. cbn [includes starts_with].
  by rewrite (not_digit_neq c "4" Hc).
Qed.

Lemma matches_5xx_cons c s :
  is_digit c = false -> matches_5xx (String c s) = matches_5xx s.
Proof.
  intros Hc. destruct s as [|c2 [|c3 s]]; try reflexivity.
  cbn [matches_5xx]. rewrite Ascii.eqb_sym.
  by rewrite (not_digit_neq c "5" Hc).
Qed.

Lemma includes_429_prefix pre s :
  digit_free pre = true -> includes "429" (pre ++ s) = includes "429" s.
Proof.
  induction pre as [|c pre IH]; [done|]. cbn [digit_free append].
  intros [Hc Hpre]%andb_prop. apply negb_true_iff in Hc.
  by rewrite includes_429_cons, IH.
Qed.

Lemma matches_5xx_prefix pre s :
  digit_free pre = true -> matches_5xx (pre ++ s) = matches_5xx s.
Proof.
  induction pre as [|c pre IH]; [done|]. cbn [digit_free append].
  intros [Hc Hpre]%andb_prop. apply negb_true_iff in Hc.
  by rewrite matches_5xx_cons, IH.
Qed.

Lemma includes_429_digit_free s :
  digit_free s = true -> includes "429" s = false.
Proof.
  induction s as [|c s IH]; [done|]. cbn [digit_free].
  intros [Hc Hs]%andb_prop. apply negb_true_iff in Hc.
  by rewrite includes_429_cons, IH.
Qed.

Lemma matches_5xx_digit_free s :
  digit_free s = true -> matches_5xx s = false.
Proof.
  induction s as [|c s IH]; [done|]. cbn [digit_free].
  intros [Hc Hs]%andb_prop. apply negb_true_iff in Hc.
  by rewrite matches_5xx_cons, IH.
Qed.

(** A three-digit status followed by text without digits. *)
Lemma includes_429_status d1 d2 d3 post :
  digit_free post = true ->
  includes "429" (String d1 (String d2 (String d3 post)))
  = Ascii.eqb "4" d1 && Ascii.eqb "2" d2 && Ascii.eqb "9" d3.
Proof.
  intros Hpost. pose proof (includes_429_digit_free post Hpost) as Hnone.
  destruct post as [|p post].
  - cbn [includes starts_with].
    repeat (match goal with
            | |- context [Ascii.eqb ?a ?b] => destruct (Ascii.eqb a b)
            end); reflexivity.
  - cbn [digit_free] in Hpost. apply andb_prop in Hpost as [Hp _].
    apply negb_true_iff in Hp.
    rewrite (includes_429_cons p post Hp) in Hnone.
    cbn [includes starts_with] in *.
    rewrite (not_digit_neq p "4" Hp), (not_digit_neq p "9" Hp),
      (not_digit_neq p "2" Hp) by reflexivity.
    cbn [andb orb]. rewrite Hnone.
    repeat (match goal with
            | |- context [Ascii.eqb ?a ?b] => destruct (Ascii.eqb a b)
            end); reflexivity.
Qed.

Lemma matches_5xx_status d1 d2 d3 post :
  is_digit d2 = true -> is_digit d3 = true -> digit_free post = true ->
  matches_5xx (String d1 (String d2 (String d3 post))) = Ascii.eqb d1 "5".
Proof.
  intros H2 H3 Hpost.
  assert (Htail : matches_5xx (String d2 (String d3 post)) = false).
  { destruct post as [|p post]; [reflexivity|].
    cbn [digit_free] in Hpost. apply andb_prop in Hpost as [Hp Hpost].
    apply negb_true_iff in Hp.
    change (matches_5xx (String d2 (String d3 (String p post))))
      with ((Ascii.eqb d2 "5" && is_digit d3 && is_digit p)
            || matches_5xx (String d3 (String p post))).
    rewrite Hp, andb_false_r, orb_false_l.
    destruct post as [|p2 post]; [reflexivity|].
    change (matches_5xx (String d3 (String p (String p2 post))))
      with ((Ascii.eqb d3 "5" && is_digit p && is_digit p2)
            || matches_5xx (String p (String p2 post))).
    rewrite Hp, andb_false_r, andb_false_l, orb_false_l.
    rewrite matches_5xx_cons by exact Hp.
    by apply matches_5xx_digit_free. }
  change (matches_5xx (String d1 (String d2 (String d3 post))))
    with ((Ascii.eqb d1 "5" && is_digit d2 && is_digit d3)
          || matches_5xx (String d2 (String d3 post))).
  by rewrite Htail, H2, H3, orb_false_r, !andb_true_r.
Qed.

(** The decimal form of the statuses 100 to 999. *)
Lemma show_status (n : N) :
  (100 <= n < 1000)%N ->
  exists d1 d2 d3,
    ApiClient.show n = String d1 (String d2 (String d3 ""))
    /\ is_digit d2 = true /\ is_digit d3 = true
    /\ Ascii.eqb "4" d1 && Ascii.eqb "2" d2 && Ascii.eqb "9" d3 = (n =? 429)%N
    /\ Ascii.eqb d1 "5" = ((500 <=? n) && (n <=? 599))%N.
Proof.
  intros Hn.
  assert (Hall : forallb
                   (fun k =>
                      match ApiClient.show (N.of_nat k) with
                      | String d1 (String d2 (String d3 "")) =>
                          is_digit d2 && is_digit d3
                          && Bool.eqb (Ascii.eqb "4" d1 && Ascii.eqb "2" d2
                                       && Ascii.eqb "9" d3)
                               (N.of_nat k =? 429)%N
                          && Bool.eqb (Ascii.eqb d1 "5")
                               ((500 <=? N.of_nat k) && (N.of_nat k <=? 599))%N
                      | _ => false
                      end) (seq 100 900) = true)
    by (vm_compute; reflexivity).
  rewrite forallb_forall in Hall.
  specialize (Hall (N.to_nat n)). rewrite N2Nat.id in Hall.
  destruct (ApiClient.show n) as [|d1 [|d2 [|d3 [|]]]];
    try (discriminate Hall; apply in_seq; lia).
  exists d1, d2, d3.
  assert (Hin : In (N.to_nat n) (seq 100 900)) by (apply in_seq; lia).
  apply Hall in Hin.
  apply andb_prop in Hin as [[[H2 H3]%andb_prop H429]%andb_prop H5].
  apply eqb_prop in H429, H5. by repeat split.
Qed.

(** X20.  Which failed requests the builder retries.  When the server
    answers a [post] or [del] of either version of the client with a
    status that is not [ok], the request throws an [ApiError] that carries
    the status; and when neither the resource name nor the body of the
    answer contains a digit, the message mentions 429 exactly for status
    429, so that the retry predicate of either builder retries exactly
    the statuses 429 and 500 to 599, and counts a rate-limit hit exactly
    for 429. *)
Theorem failed_request_classification (v : ApiClient.version)
    (m : ApiClient.method) (resource : string) (resp : ApiClient.Response) :
  ApiClient.ok resp = false ->
  (100 <= ApiClient.resp_status resp < 1000)%N ->
  digit_free resource = true ->
  digit_free (ApiClient.text resp) = true ->
  let rate_limited := (ApiClient.resp_status resp =? 429)%N in
  let server_error :=
    ((500 <=? ApiClient.resp_status resp)
     && (ApiClient.resp_status resp <=? 599))%N in
  exists err,
    ApiClient.request v m resource resp = Threw err
    /\ status err = Some (Z.of_N (ApiClient.resp_status resp))
    /\ mentions_429 err = rate_limited
    /\ (forall st,
          BuilderA.shouldRetry err st
          = (rate_limited || server_error,
             if rate_limited then BuilderA.record429 st else st))
    /\ (forall st,
          BuilderB.shouldRetry err st
          = (rate_limited || server_error,
             if rate_limited
             then {| BuilderB.concurrency := BuilderB.concurrency st;
                     BuilderB.error429 := BuilderB.error429 st + 1 |}
             else st)).
Proof.
  intros Hok Hstatus Hres Htext rate_limited server_error.
  destruct (show_status _ Hstatus) as (d1 & d2 & d3 & Eshow & H2 & H3 & E429 & E5).
  assert (Hinc : includes "429" (ApiClient.failure_message v m resource resp)
                 = rate_limited).
  { unfold ApiClient.failure_message.
    destruct v, m; cbn [ApiClient.method_name];
      rewrite !includes_429_prefix by (assumption || reflexivity);
      rewrite Eshow; cbn [append];
      rewrite (includes_429_status d1 d2 d3) by (cbn; exact Htext);
      exact E429. }
  assert (H5xx : matches_5xx (ApiClient.failure_message v m resource resp)
                 = server_error).
  { unfold ApiClient.failure_message.
    destruct v, m; cbn [ApiClient.method_name];
      rewrite !matches_5xx_prefix by (assumption || reflexivity);
      rewrite Eshow; cbn [append];
      rewrite (matches_5xx_status d1 d2 d3 _ H2 H3) by (cbn; exact Htext);
      exact E5. }
  exists (ApiClient.failure v m resource resp).
  unfold ApiClient.request. rewrite Hok. split; [reflexivity|].
  split; [reflexivity|]. split; [by rewrite mentions_429_includes|].
  split; intros st.
  - unfold BuilderA.shouldRetry. cbn [message ApiClient.failure].
    by rewrite Hinc, H5xx.
  - unfold BuilderB.shouldRetry. cbn [message ApiClient.failure].
    by rewrite Hinc, H5xx.
Qed.

Lemma failed_request_classification_witness :
  exists err,
    ApiClient.request ApiClient.Second ApiClient.DELETE "comeths"
      (ApiClient.MkResponse false 429 NoHeaders "Too Many Requests")
    = Threw err
    /\ message err = "DELETE comeths failed (429): Too Many Requests"%string
    /\ mentions_429 err = true
    /\ BuilderB.shouldRetry err BuilderB.initial
       = (true, {| BuilderB.concurrency := 3; BuilderB.error429 := 1 |}).
Proof.
  destruct (failed_request_classification ApiClient.Second ApiClient.DELETE
              "comeths"
              (ApiClient.MkResponse false 429 NoHeaders "Too Many Requests"))
    as (err & E & _ & Hm & _ & HB); [reflexivity | cbn; lia | reflexivity..|].
  exists err. split; [exact E|]. injection E as <-.
  split; [reflexivity|]. split; [exact Hm|]. apply HB.
Defined.

(* --------------------------------------------------------------------- *)
(** ** The X pattern of the first builder                                 *)
(* --------------------------------------------------------------------- *)

Lemma xPattern_from_seq (matrixSize : nat) (fuel : nat) : forall i : nat,
  (matrixSize - 2 - i <= fuel)%nat ->
  xPattern_from fuel i matrixSize
  = flat_map (fun i => [CreatePolyanet i i; CreatePolyanet i (matrixSize - i)])
      (seq i (matrixSize - 2 - i)).
Proof.
  induction fuel as [|fuel IH]; intros i Hfuel.
  - by replace (matrixSize - 2 - i)%nat with 0%nat by lia.
  - cbn [xPattern_from]. case_decide.
    + replace (matrixSize - 2 - i)%nat with (S (matrixSize - 2 - S i)) by lia.
      cbn [seq flat_map app]. by rewrite IH by lia.
    + by replace (matrixSize - 2 - i)%nat with 0%nat by lia.
Qed.

(** X21.  The tasks [buildXPattern(matrixSize)] collects: for each row
    [i] from 2 to [matrixSize - 3], in order, one polyanet on the diagonal
    and one in column [matrixSize - i]; so [2 * (matrixSize - 4)] tasks
    (none for a matrix of size 4 or less), each inside the matrix and at
    least two cells from its top and left edges. *)
Theorem buildXPattern_tasks (matrixSize : nat) :
  buildXPattern_calls matrixSize
  = flat_map (fun i => [CreatePolyanet i i; CreatePolyanet i (matrixSize - i)])
      (seq 2 (matrixSize - 4))
  /\ length (buildXPattern_calls matrixSize) = (2 * (matrixSize - 4))%nat
  /\ Forall (fun call =>
               exists r c,
                 call = CreatePolyanet r c
                 /\ (2 <= r < matrixSize)%nat /\ (2 <= c < matrixSize)%nat)
       (buildXPattern_calls matrixSize).
Proof.
  assert (E : buildXPattern_calls matrixSize
              = flat_map (fun i => [CreatePolyanet i i;
                                    CreatePolyanet i (matrixSize - i)])
                  (seq 2 (matrixSize - 4))).
  { unfold buildXPattern_calls. rewrite xPattern_from_seq by lia.
    by replace (matrixSize - 2 - 2)%nat with (matrixSize - 4)%nat by lia. }
  split; [exact E|]. rewrite E. split.
  - assert (H : forall k i : nat,
               length (flat_map
                         (fun i => [CreatePolyanet i i;
                                    CreatePolyanet i (matrixSize - i)])
                         (seq i k)) = (2 * k)%nat).
    { induction k as [|k IH]; intros i; [done|].
      cbn [seq flat_map app length]. rewrite IH. lia. }
    apply H.
  - apply Forall_forall. intros call Hin.
    apply list_elem_of_In, in_flat_map in Hin as (i & Hi & Hcall).
    apply in_seq in Hi.
    destruct Hcall as [<-|[<-|[]]]; eexists _, _; (split; [reflexivity|]); lia.
Qed.

